(** * Interview Scheduling Autopilot: availability search, workflow and ticker

    A shallow embedding of [backend/services/timeutil.py],
    [backend/services/calendar.py], [backend/services/llm.py],
    [backend/services/orchestrator.py], [backend/services/jobs.py] and
    [backend/seed.py], over the tables of [backend/models.py].

    Conventions of the embedding.
    - A [datetime] is the number of microseconds (the resolution of Python's
      [datetime]) on the wall clock of the configured time zone since
      1970-01-01T00:00 of that zone; [ensure_aware] only attaches that zone
      and is the identity here.
    - [total_seconds()] is a float in Python; it is an exact rational here.
    - A table is the list of its rows in insertion order; [session.get] is a
      search by primary key, an attribute assignment followed by a commit is
      an update of the rows with that key.
    - Surrogate keys that the services never read (of participants,
      feedback, ATS records and calendar blocks) are left out. *)

From Stdlib Require Import ZArith QArith Qround String Ascii List Bool Lia.
From Stdlib Require Import DecimalString Sorted Permutation.
Import ListNotations.
Local Open Scope Z_scope.

(* ===================================================================== *)
(** ** timeutil.py *)

Definition datetime := Z.
Definition timedelta := Z.

Definition MICROSECOND : Z := 1000000.

(** [timedelta(minutes=m)] *)
Definition minutes (m : Z) : timedelta := m * 60 * MICROSECOND.

(** [td.total_seconds()] *)
Definition total_seconds (td : timedelta) : Q := td # 1000000.

Definition ensure_aware (dt : datetime) : datetime := dt.

(** [ceil_to_minutes(dt, minutes)]:
<<
    seconds = (dt - epoch).total_seconds()
    step = delta.total_seconds()
    snapped = ((seconds + step - 1) // step) * step
    return epoch + timedelta(seconds=snapped)
>>
    [//] is floor division; [snapped] is a whole number of seconds. *)
Definition ceil_to_minutes (dt : datetime) (mins : Z) : datetime :=
  let dt := ensure_aware dt in
  let delta := minutes mins in
  let seconds := total_seconds dt in
  let step := total_seconds delta in
  let snapped := (inject_Z (Qfloor ((seconds + step - 1) / step)) * step)%Q in
  Qfloor (snapped * inject_Z MICROSECOND)%Q.

(* ===================================================================== *)
(** ** The calendar table and calendar.py *)

Module CalendarBlock.
Record t := mk {
  user_id : Z;
  start : datetime;
  end_ : datetime;
  title : string
}.
End CalendarBlock.

Record TimeWindow := { tw_start : datetime; tw_end : datetime }.

Definition overlaps (a_start a_end b_start b_end : datetime) : bool :=
  (a_start <? b_end) && (b_start <? a_end).

(** The [where] clause of [is_user_free]'s query. *)
Definition blocks_user (uid : Z) (start end_ : datetime) (b : CalendarBlock.t) : bool :=
  (CalendarBlock.user_id b =? uid)
  && ((CalendarBlock.start b <? end_) && (CalendarBlock.end_ b >? start)).

(** [is_user_free]: no row of the user's calendar matches. *)
Definition is_user_free (blocks : list CalendarBlock.t)
    (uid : Z) (start end_ : datetime) : bool :=
  let start := ensure_aware start in
  let end_ := ensure_aware end_ in
  match find (blocks_user uid start end_) blocks with
  | None => true
  | Some _ => false
  end.

(** The inner [for uid in user_ids: if not free: ok = False; break]. *)
Definition all_free (blocks : list CalendarBlock.t) (user_ids : list Z)
    (slot_start slot_end : datetime) : bool :=
  forallb (fun uid => is_user_free blocks uid slot_start slot_end) user_ids.

(** The [while cursor + duration <= end] loop of [find_common_slot]. One
    unit of fuel is one evaluation of the loop test; [None] is fuel
    exhausted, [Some r] is the value returned by the function. *)
Fixpoint scan_slot (fuel : nat) (blocks : list CalendarBlock.t) (user_ids : list Z)
    (end_ duration step : timedelta) (cursor : datetime)
    : option (option (datetime * datetime)) :=
  match fuel with
  | O => None
  | S fuel' =>
    if cursor + duration <=? end_ then
      let slot_start := cursor in
      let slot_end := cursor + duration in
      if all_free blocks user_ids slot_start slot_end
      then Some (Some (slot_start, slot_end))
      else scan_slot fuel' blocks user_ids end_ duration step (cursor + step)
    else Some None
  end.

(** Number of loop tests that a scan from [cursor] can need when the step
    is positive. *)
Definition scan_fuel (end_ duration step : timedelta) (cursor : datetime) : nat :=
  S (Z.to_nat ((end_ - duration - cursor) / step + 1)).

(** [find_common_slot]. With a step that is not positive the Python loop
    need not end; the model then gives [None] when the fuel is used up. *)
Definition find_common_slot (blocks : list CalendarBlock.t) (user_ids : list Z)
    (window : TimeWindow) (duration_minutes step_minutes : Z)
    : option (datetime * datetime) :=
  match user_ids with
  | [] => None
  | _ =>
    let start := ensure_aware (tw_start window) in
    let end_ := ensure_aware (tw_end window) in
    let cursor := ceil_to_minutes start step_minutes in
    let duration := minutes duration_minutes in
    let step := minutes step_minutes in
    match scan_slot (scan_fuel end_ duration step cursor)
                    blocks user_ids end_ duration step cursor with
    | Some r => r
    | None => None
    end
  end.

(** The collecting loop of [find_common_slots]. *)
Fixpoint scan_slots (fuel : nat) (blocks : list CalendarBlock.t) (user_ids : list Z)
    (end_ duration step : timedelta) (limit : Z)
    (slots : list (datetime * datetime)) (cursor : datetime)
    : option (list (datetime * datetime)) :=
  match fuel with
  | O => None
  | S fuel' =>
    if (cursor + duration <=? end_) && (Z.of_nat (length slots) <? limit) then
      let slot_start := cursor in
      let slot_end := cursor + duration in
      let slots :=
        if all_free blocks user_ids slot_start slot_end
        then slots ++ [(slot_start, slot_end)] else slots in
      scan_slots fuel' blocks user_ids end_ duration step limit slots (cursor + step)
    else Some slots
  end.

Definition find_common_slots (blocks : list CalendarBlock.t) (user_ids : list Z)
    (window : TimeWindow) (duration_minutes limit step_minutes : Z)
    : list (datetime * datetime) :=
  if limit <=? 0 then []
  else
    match user_ids with
    | [] => []
    | _ =>
      let start := ensure_aware (tw_start window) in
      let end_ := ensure_aware (tw_end window) in
      let cursor := ceil_to_minutes start step_minutes in
      let duration := minutes duration_minutes in
      let step := minutes step_minutes in
      match scan_slots (scan_fuel end_ duration step cursor)
                       blocks user_ids end_ duration step limit [] cursor with
      | Some r => r
      | None => []
      end
    end.

(** [block_time]: one more row in the calendar. *)
Definition block_time (blocks : list CalendarBlock.t)
    (user_id : Z) (start end_ : datetime) (title : string) : list CalendarBlock.t :=
  blocks ++ [CalendarBlock.mk user_id (ensure_aware start) (ensure_aware end_) title].

(* ===================================================================== *)
(** ** models.py: enumerations and rows *)

Module UserRole.
Inductive t := recruiter | engineer | tech_lead | hiring_manager.
End UserRole.

Module InterviewStatus.
Inductive t := scheduled | completed | feedback_requested | feedback_received.
Definition eqb (a b : t) : bool :=
  match a, b with
  | scheduled, scheduled | completed, completed
  | feedback_requested, feedback_requested
  | feedback_received, feedback_received => true
  | _, _ => false
  end.
End InterviewStatus.

Module FeedbackDecision.
Inductive t := pass_ | fail | need_more_info.
Definition eqb (a b : t) : bool :=
  match a, b with
  | pass_, pass_ | fail, fail | need_more_info, need_more_info => true
  | _, _ => false
  end.
End FeedbackDecision.

Module ATSStatus.
Inductive t := interview_scheduled | interview_completed | feedback_received.
End ATSStatus.

Module ATSRecommendation.
Inductive t := hire | no_hire | mixed | insufficient_data.
End ATSRecommendation.

Module SchedulingRequestStatus.
Inductive t := proposed | approved | cancelled.
Definition eqb (a b : t) : bool :=
  match a, b with
  | proposed, proposed | approved, approved | cancelled, cancelled => true
  | _, _ => false
  end.
End SchedulingRequestStatus.

Module User.
Record t := mk {
  id : Z;
  name : string;
  email : string;
  role : UserRole.t;
  slack_handle : option string
}.
End User.

Module Candidate.
Record t := mk {
  id : Z;
  name : string;
  email : string;
  resume_text : string
}.
End Candidate.

Module Interview.
Record t := mk {
  id : Z;
  candidate_id : Z;
  job_title : string;
  recruiter_name : string;
  recruiter_email : string;
  created_at : datetime;
  scheduled_start : datetime;
  scheduled_end : datetime;
  video_link : string;
  status : InterviewStatus.t;
  reminder_sent_at : option datetime;
  feedback_requested_at : option datetime;
  consolidated_at : option datetime
}.

Definition set_video_link (v : string) (i : t) : t :=
  mk (id i) (candidate_id i) (job_title i) (recruiter_name i) (recruiter_email i)
     (created_at i) (scheduled_start i) (scheduled_end i) v (status i)
     (reminder_sent_at i) (feedback_requested_at i) (consolidated_at i).

Definition set_status (s : InterviewStatus.t) (i : t) : t :=
  mk (id i) (candidate_id i) (job_title i) (recruiter_name i) (recruiter_email i)
     (created_at i) (scheduled_start i) (scheduled_end i) (video_link i) s
     (reminder_sent_at i) (feedback_requested_at i) (consolidated_at i).

Definition set_reminder_sent_at (d : datetime) (i : t) : t :=
  mk (id i) (candidate_id i) (job_title i) (recruiter_name i) (recruiter_email i)
     (created_at i) (scheduled_start i) (scheduled_end i) (video_link i) (status i)
     (Some d) (feedback_requested_at i) (consolidated_at i).

Definition set_feedback_requested_at (d : datetime) (i : t) : t :=
  mk (id i) (candidate_id i) (job_title i) (recruiter_name i) (recruiter_email i)
     (created_at i) (scheduled_start i) (scheduled_end i) (video_link i) (status i)
     (reminder_sent_at i) (Some d) (consolidated_at i).

Definition set_consolidated_at (d : datetime) (i : t) : t :=
  mk (id i) (candidate_id i) (job_title i) (recruiter_name i) (recruiter_email i)
     (created_at i) (scheduled_start i) (scheduled_end i) (video_link i) (status i)
     (reminder_sent_at i) (feedback_requested_at i) (Some d).
End Interview.

Module InterviewParticipant.
Record t := mk { interview_id : Z; user_id : Z }.
End InterviewParticipant.

Module Feedback.
Record t := mk {
  interview_id : Z;
  user_id : Z;
  decision : FeedbackDecision.t;
  comment : string;
  submitted_at : datetime
}.
End Feedback.

Module ATSRecord.
Record t := mk {
  interview_id : Z;
  status : ATSStatus.t;
  recommendation : option ATSRecommendation.t;
  summary : option string;
  updated_at : datetime
}.
End ATSRecord.

Module SchedulingRequest.
Record t := mk {
  id : Z;
  created_at : datetime;
  recruiter_name : string;
  recruiter_email : string;
  candidate_id : Z;
  job_title : string;
  duration_minutes : Z;
  status : SchedulingRequestStatus.t;
  approved_option_id : option Z;
  interview_id : option Z
}.

(** The three assignments that close [approve_schedule_and_create_interview]. *)
Definition approve (option_id interview : Z) (r : t) : t :=
  mk (id r) (created_at r) (recruiter_name r) (recruiter_email r) (candidate_id r)
     (job_title r) (duration_minutes r) SchedulingRequestStatus.approved
     (Some option_id) (Some interview).
End SchedulingRequest.

Module SchedulingOption.
Record t := mk {
  id : Z;
  request_id : Z;
  start : datetime;
  end_ : datetime
}.
End SchedulingOption.

(* ===================================================================== *)
(** ** llm.py: the deterministic mock summarizer *)

Record FeedbackItem := {
  interviewer_name : string;
  item_decision : FeedbackDecision.t;
  item_comment : string
}.

Record SummaryResult := {
  strengths : list string;
  risks : list string;
  sr_recommendation : ATSRecommendation.t;
  narrative : string
}.

(** Characters are code points below 256. Python's [str.isspace] holds of
    U+0009..U+000D, U+001C..U+0020, U+0085 and U+00A0 in that range. *)
Definition isspace (c : ascii) : bool :=
  let n := nat_of_ascii c in
  (((9 <=? n) && (n <=? 13)) || ((28 <=? n) && (n <=? 32))
   || (n =? 133) || (n =? 160))%nat.

Fixpoint lstrip (s : string) : string :=
  match s with
  | String c s' => if isspace c then lstrip s' else s
  | EmptyString => EmptyString
  end.

Fixpoint rstrip (s : string) : string :=
  match s with
  | EmptyString => EmptyString
  | String c s' =>
    match rstrip s' with
    | EmptyString => if isspace c then EmptyString else String c EmptyString
    | r => String c r
    end
  end.

(** [s.strip()] *)
Definition strip (s : string) : string := rstrip (lstrip s).

Definition is_empty (s : string) : bool :=
  match s with EmptyString => true | _ => false end.

(** [sum(1 for i in items if i.decision == d)] *)
Definition count_decision (d : FeedbackDecision.t) (items : list FeedbackItem) : Z :=
  Z.of_nat (List.length (filter (fun i => FeedbackDecision.eqb (item_decision i) d) items)).

(** The [for it in items] loop that fills [strengths] and [risks]. *)
Fixpoint collect_comments (items : list FeedbackItem)
    (strengths risks : list string) : list string * list string :=
  match items with
  | [] => (strengths, risks)
  | it :: rest =>
    let c := strip (item_comment it) in
    if is_empty c then collect_comments rest strengths risks
    else
      match item_decision it with
      | FeedbackDecision.pass_ => collect_comments rest (strengths ++ [c]) risks
      | FeedbackDecision.fail => collect_comments rest strengths (risks ++ [c])
      | _ => collect_comments rest strengths (risks ++ [c])
      end
  end.

Definition decision_value (d : FeedbackDecision.t) : string :=
  match d with
  | FeedbackDecision.pass_ => "pass"
  | FeedbackDecision.fail => "fail"
  | FeedbackDecision.need_more_info => "need_more_info"
  end.

(** [f"{n}"] for an integer. *)
Definition str_of_int (n : Z) : string := NilZero.string_of_int (Z.to_int n).

Definition newline : string := String (ascii_of_nat 10) EmptyString.

(** [sep.join(parts)] *)
Fixpoint join (sep : string) (parts : list string) : string :=
  match parts with
  | [] => EmptyString
  | [p] => p
  | p :: rest => (p ++ sep ++ join sep rest)%string
  end.

(** The em dash of the narrative, as its UTF-8 bytes. *)
Definition em_dash : string :=
  String (ascii_of_nat 226) (String (ascii_of_nat 128) (String (ascii_of_nat 148) EmptyString)).

(** One line of the narrative per item. *)
Definition comment_line (it : FeedbackItem) : string :=
  ("  - " ++ interviewer_name it ++ ": " ++ decision_value (item_decision it)
   ++ " " ++ em_dash ++ " " ++ strip (item_comment it))%string.

Definition counts_line (passes fails needs : Z) : string :=
  ("- Pass: " ++ str_of_int passes ++ ", Fail: " ++ str_of_int fails
   ++ ", Need more info: " ++ str_of_int needs)%string.

Definition _mock_summary (items : list FeedbackItem) : SummaryResult :=
  let passes := count_decision FeedbackDecision.pass_ items in
  let fails := count_decision FeedbackDecision.fail items in
  let needs := count_decision FeedbackDecision.need_more_info items in
  let rec :=
    if (passes =? 0) && (fails =? 0) && (needs =? 0) then ATSRecommendation.insufficient_data
    else if fails >=? 2 then ATSRecommendation.no_hire
    else if (passes >=? 2) && (fails =? 0) then ATSRecommendation.hire
    else if (fails =? 0) && ((passes >=? 1) && (needs >=? 1)) then ATSRecommendation.mixed
    else ATSRecommendation.mixed in
  let '(strengths, risks) := collect_comments items [] [] in
  let narrative :=
    join newline
      ([ "Automatic summary (mock):"%string;
         counts_line passes fails needs;
         "- Key comments:"%string ]
       ++ map comment_line items) in
  {| strengths := firstn 5 strengths;
     risks := firstn 5 risks;
     sr_recommendation := rec;
     narrative := narrative |}.

Record Settings := {
  mock_llm : bool;
  llm_provider : string;
  reminder_lead_minutes : Z;
  feedback_request_delay_minutes : Z
}.

(** What is outside the repository: the two hosted language models and the
    signed-token codec of [itsdangerous] ([None] is [BadSignature]). *)
Record Env := {
  settings : Settings;
  _watsonx_summary : string -> string -> list FeedbackItem -> SummaryResult;
  _openai_summary : string -> string -> list FeedbackItem -> SummaryResult;
  parse_token : string -> option (Z * Z)
}.

Definition summarize_feedback (env : Env)
    (candidate_name job_title : string) (items : list FeedbackItem) : SummaryResult :=
  if mock_llm (settings env) || String.eqb (llm_provider (settings env)) "mock"
  then _mock_summary items
  else if String.eqb (llm_provider (settings env)) "watsonx"
  then _watsonx_summary env candidate_name job_title items
  else if String.eqb (llm_provider (settings env)) "openai"
  then _openai_summary env candidate_name job_title items
  else _mock_summary items.

(* ===================================================================== *)
(** ** The session: tables, sent messages, exceptions *)

(** What a message is about; its text is not modelled. *)
Inductive Message :=
| InterviewScheduled
| ReminderNotice
| FeedbackRequested (user_id : Z)
| ReportReady (recommendation : ATSRecommendation.t).

Inductive Call :=
| send_email (to : string) (m : Message)
| send_slack (m : Message)
| llm_summarize (candidate_name job_title : string) (items : list FeedbackItem).

(** A call to a collaborator, with the interview on whose behalf it is made. *)
Record Effect := { about : Z; call : Call }.

Record Store := mkStore {
  users : list User.t;
  candidates : list Candidate.t;
  interviews : list Interview.t;
  interview_participants : list InterviewParticipant.t;
  feedback : list Feedback.t;
  ats_records : list ATSRecord.t;
  calendar_blocks : list CalendarBlock.t;
  scheduling_requests : list SchedulingRequest.t;
  scheduling_options : list SchedulingOption.t;
  outbox : list Effect
}.

Definition with_interviews (l : list Interview.t) (w : Store) : Store :=
  mkStore (users w) (candidates w) l (interview_participants w) (feedback w)
          (ats_records w) (calendar_blocks w) (scheduling_requests w)
          (scheduling_options w) (outbox w).

Definition with_interview_participants (l : list InterviewParticipant.t) (w : Store) : Store :=
  mkStore (users w) (candidates w) (interviews w) l (feedback w)
          (ats_records w) (calendar_blocks w) (scheduling_requests w)
          (scheduling_options w) (outbox w).

Definition with_feedback (l : list Feedback.t) (w : Store) : Store :=
  mkStore (users w) (candidates w) (interviews w) (interview_participants w) l
          (ats_records w) (calendar_blocks w) (scheduling_requests w)
          (scheduling_options w) (outbox w).

Definition with_ats_records (l : list ATSRecord.t) (w : Store) : Store :=
  mkStore (users w) (candidates w) (interviews w) (interview_participants w) (feedback w)
          l (calendar_blocks w) (scheduling_requests w)
          (scheduling_options w) (outbox w).

Definition with_calendar_blocks (l : list CalendarBlock.t) (w : Store) : Store :=
  mkStore (users w) (candidates w) (interviews w) (interview_participants w) (feedback w)
          (ats_records w) l (scheduling_requests w)
          (scheduling_options w) (outbox w).

Definition with_scheduling_requests (l : list SchedulingRequest.t) (w : Store) : Store :=
  mkStore (users w) (candidates w) (interviews w) (interview_participants w) (feedback w)
          (ats_records w) (calendar_blocks w) l
          (scheduling_options w) (outbox w).

Definition with_scheduling_options (l : list SchedulingOption.t) (w : Store) : Store :=
  mkStore (users w) (candidates w) (interviews w) (interview_participants w) (feedback w)
          (ats_records w) (calendar_blocks w) (scheduling_requests w)
          l (outbox w).

Definition with_outbox (l : list Effect) (w : Store) : Store :=
  mkStore (users w) (candidates w) (interviews w) (interview_participants w) (feedback w)
          (ats_records w) (calendar_blocks w) (scheduling_requests w)
          (scheduling_options w) l.

Inductive exn :=
| ValueError (msg : string)
| IntegrityError
| MultipleResultsFound.

Inductive outcome (A : Type) :=
| Ok (a : A)
| Raise (e : exn).
Arguments Ok {A} a.
Arguments Raise {A} e.

(** A computation in a session: it reads and writes the store and returns
    or raises. A raise leaves the store as it is at that point. *)
Definition M (A : Type) : Type := Store -> Store * outcome A.

Definition ret {A} (a : A) : M A := fun w => (w, Ok a).

Definition bind {A B} (m : M A) (k : A -> M B) : M B :=
  fun w =>
    match m w with
    | (w', Ok a) => k a w'
    | (w', Raise e) => (w', Raise e)
    end.

Definition raise {A} (e : exn) : M A := fun w => (w, Raise e).
Definition gets {A} (f : Store -> A) : M A := fun w => (w, Ok (f w)).
Definition modify (f : Store -> Store) : M unit := fun w => (f w, Ok tt).

Declare Scope session_scope.
Delimit Scope session_scope with session.
Notation "x <- m ;; k" := (bind m (fun x => k))
  (at level 61, m at next level, right associativity) : session_scope.
Notation "m ;; k" := (bind m (fun _ => k))
  (at level 61, right associativity) : session_scope.
Local Open Scope session_scope.

(** [for x in l: f(x)] *)
Fixpoint for_each {A} (l : list A) (f : A -> M unit) : M unit :=
  match l with
  | [] => ret tt
  | x :: rest => f x ;; for_each rest f
  end.

(** A flush that fails rolls the transaction back: the tables are again
    those of the last commit. Every service function commits last, so that
    is the store at its entry. *)
Definition transactional {A} (m : M A) : M A :=
  fun w =>
    match m w with
    | (w', Raise IntegrityError) => (with_outbox (outbox w') w, Raise IntegrityError)
    | r => r
    end.

(** Leaving [async with SessionLocal() as session] by an exception closes
    the session without a commit: what the failing call had written since
    the last commit is lost. *)
Definition discard_uncommitted {A} (m : M A) : M A :=
  fun w =>
    match m w with
    | (w', Raise e) => (with_outbox (outbox w') w, Raise e)
    | r => r
    end.

(** [result.scalar_one_or_none()] *)
Definition scalar_one_or_none {A} (rows : list A) : M (option A) :=
  match rows with
  | [] => ret None
  | [x] => ret (Some x)
  | _ => raise MultipleResultsFound
  end.

(** The next value of an autoincremented key. *)
Definition next_id (ids : list Z) : Z := 1 + fold_right Z.max 0 ids.

Definition emit (interview_id : Z) (c : Call) : M unit :=
  modify (fun w => with_outbox (outbox w ++ [{| about := interview_id; call := c |}]) w).

(** *** Reads *)

Definition get_candidate (id : Z) : M (option Candidate.t) :=
  gets (fun w => find (fun c => Candidate.id c =? id) (candidates w)).

Definition get_interview (id : Z) : M (option Interview.t) :=
  gets (fun w => find (fun i => Interview.id i =? id) (interviews w)).

Definition get_request (id : Z) : M (option SchedulingRequest.t) :=
  gets (fun w => find (fun r => SchedulingRequest.id r =? id) (scheduling_requests w)).

Definition get_option (id : Z) : M (option SchedulingOption.t) :=
  gets (fun w => find (fun o => SchedulingOption.id o =? id) (scheduling_options w)).

Definition mem (x : Z) (l : list Z) : bool := existsb (Z.eqb x) l.

(** [select(User).where(User.id.in_(ids))] *)
Definition users_in (ids : list Z) (w : Store) : list User.t :=
  filter (fun u => mem (User.id u) ids) (users w).

(** Rows in ascending order of a key; rows with equal keys keep the order
    in which they are given. *)
Fixpoint insert_by_key {A} (key : A -> Z) (x : A) (l : list A) : list A :=
  match l with
  | [] => [x]
  | y :: rest =>
    if key x <=? key y then x :: y :: rest else y :: insert_by_key key x rest
  end.

Definition order_by_key {A} (key : A -> Z) (l : list A) : list A :=
  fold_right (insert_by_key key) [] l.

(** [select(User).join(InterviewParticipant, InterviewParticipant.user_id ==
    User.id).where(InterviewParticipant.interview_id == interview_id)]

    The statement has no [ORDER BY], so the order of its rows is the
    engine's. SQLite, the engine of the configuration, answers it through
    the index of [uq_interview_user], on (interview_id, user_id): the users
    come in ascending order of their ids, whatever the order in which the
    participants were added. *)
Definition participants_of (interview_id : Z) (w : Store) : list User.t :=
  order_by_key User.id
    (flat_map
       (fun p => filter (fun u => User.id u =? InterviewParticipant.user_id p) (users w))
       (filter (fun p => InterviewParticipant.interview_id p =? interview_id)
               (interview_participants w))).

(** [select(Feedback).where(Feedback.interview_id == interview_id)]

    No [ORDER BY] either: SQLite answers it through the index of
    [uq_feedback_interview_user], on (interview_id, user_id), so the rows
    come in ascending order of the user id, whatever the order of the
    submissions. *)
Definition feedback_of (interview_id : Z) (w : Store) : list Feedback.t :=
  order_by_key Feedback.user_id
    (filter (fun f => Feedback.interview_id f =? interview_id) (feedback w)).

Definition feedback_by (interview_id user_id : Z) (w : Store) : list Feedback.t :=
  filter (fun f => (Feedback.interview_id f =? interview_id)
                   && (Feedback.user_id f =? user_id)) (feedback w).

Definition ats_of (interview_id : Z) (w : Store) : list ATSRecord.t :=
  filter (fun a => ATSRecord.interview_id a =? interview_id) (ats_records w).

(** *** Writes. A row is inserted when it is added; the unique constraints
    of models.py are checked by the insert. *)

(** [session.add(interview); await session.flush()] *)
Definition add_interview (mk_row : Z -> Interview.t) : M Interview.t :=
  fun w =>
    let row := mk_row (next_id (map Interview.id (interviews w))) in
    (with_interviews (interviews w ++ [row]) w, Ok row).

Definition update_interview (id : Z) (f : Interview.t -> Interview.t) : M unit :=
  modify (fun w =>
    with_interviews
      (map (fun i => if Interview.id i =? id then f i else i) (interviews w)) w).

(** [uq_interview_user] *)
Definition add_participant (p : InterviewParticipant.t) : M unit :=
  fun w =>
    if existsb (fun q => (InterviewParticipant.interview_id q =? InterviewParticipant.interview_id p)
                         && (InterviewParticipant.user_id q =? InterviewParticipant.user_id p))
               (interview_participants w)
    then (w, Raise IntegrityError)
    else (with_interview_participants (interview_participants w ++ [p]) w, Ok tt).

(** [uq_ats_interview] *)
Definition add_ats (a : ATSRecord.t) : M unit :=
  fun w =>
    if existsb (fun b => ATSRecord.interview_id b =? ATSRecord.interview_id a) (ats_records w)
    then (w, Raise IntegrityError)
    else (with_ats_records (ats_records w ++ [a]) w, Ok tt).

Definition update_ats (interview_id : Z) (f : ATSRecord.t -> ATSRecord.t) : M unit :=
  modify (fun w =>
    with_ats_records
      (map (fun a => if ATSRecord.interview_id a =? interview_id then f a else a)
           (ats_records w)) w).

(** [uq_feedback_interview_user] *)
Definition add_feedback (f : Feedback.t) : M unit :=
  fun w =>
    if existsb (fun g => (Feedback.interview_id g =? Feedback.interview_id f)
                         && (Feedback.user_id g =? Feedback.user_id f)) (feedback w)
    then (w, Raise IntegrityError)
    else (with_feedback (feedback w ++ [f]) w, Ok tt).

Definition update_feedback (interview_id user_id : Z) (f : Feedback.t -> Feedback.t) : M unit :=
  modify (fun w =>
    with_feedback
      (map (fun g => if (Feedback.interview_id g =? interview_id)
                        && (Feedback.user_id g =? user_id) then f g else g)
           (feedback w)) w).

Definition add_request (mk_row : Z -> SchedulingRequest.t) : M SchedulingRequest.t :=
  fun w =>
    let row := mk_row (next_id (map SchedulingRequest.id (scheduling_requests w))) in
    (with_scheduling_requests (scheduling_requests w ++ [row]) w, Ok row).

Definition update_request (id : Z) (f : SchedulingRequest.t -> SchedulingRequest.t) : M unit :=
  modify (fun w =>
    with_scheduling_requests
      (map (fun r => if SchedulingRequest.id r =? id then f r else r)
           (scheduling_requests w)) w).

(** [uq_request_slot] *)
Definition add_option (request_id : Z) (s e : datetime) : M SchedulingOption.t :=
  fun w =>
    if existsb (fun o => (SchedulingOption.request_id o =? request_id)
                         && (SchedulingOption.start o =? s)
                         && (SchedulingOption.end_ o =? e)) (scheduling_options w)
    then (w, Raise IntegrityError)
    else
      let row := SchedulingOption.mk
                   (next_id (map SchedulingOption.id (scheduling_options w)))
                   request_id s e in
      (with_scheduling_options (scheduling_options w ++ [row]) w, Ok row).

(** [await block_time(session, ...)] *)
Definition do_block_time (user_id : Z) (start end_ : datetime) (title : string) : M unit :=
  modify (fun w => with_calendar_blocks (block_time (calendar_blocks w) user_id start end_ title) w).

(* ===================================================================== *)
(** ** orchestrator.py

    Each function takes the reading [now] of the clock for its calls of
    [now()], and the booking functions the value [token_hex] drawn by
    [secrets.token_hex(4)]. *)

Definition _video_link (interview_id : Z) (token_hex : string) : string :=
  let room := ("ibm-dev-day-" ++ str_of_int interview_id ++ "-" ++ token_hex)%string in
  ("https://meet.jit.si/" ++ room)%string.

Definition is_nil {A} (l : list A) : bool :=
  match l with [] => true | _ => false end.

(** [len(set(ids))] *)
Definition len_set (ids : list Z) : nat := List.length (nodup Z.eq_dec ids).

Definition block_title (cand : Candidate.t) (job_title : string) : string :=
  ("Interview: " ++ Candidate.name cand ++ " (" ++ job_title ++ ")")%string.

(** The notifications that close both booking functions. *)
Definition notify_scheduled (interview_id : Z) (cand : Candidate.t) (users : list User.t) : M unit :=
  emit interview_id (send_email (Candidate.email cand) InterviewScheduled) ;;
  for_each users (fun u => emit interview_id (send_email (User.email u) InterviewScheduled)) ;;
  emit interview_id (send_slack InterviewScheduled).

Definition start_interview (recruiter_name recruiter_email : string)
    (candidate_id : Z) (job_title : string) (interviewer_user_ids : list Z)
    (preferred_window : TimeWindow) (duration_minutes : Z)
    (now : datetime) (token_hex : string) : M Interview.t :=
  transactional (
    cand <- get_candidate candidate_id ;;
    match cand with
    | None => raise (ValueError "candidate not found")
    | Some cand =>
      if is_nil interviewer_user_ids
      then raise (ValueError "no interviewers specified")
      else
        users <- gets (users_in interviewer_user_ids) ;;
        if negb (List.length users =? len_set interviewer_user_ids)%nat
        then raise (ValueError "some interviewers not found")
        else
          slot <- gets (fun w => find_common_slot (calendar_blocks w) interviewer_user_ids
                                   preferred_window duration_minutes 15) ;;
          match slot with
          | None => raise (ValueError "no common slot found in preferred window")
          | Some (start_dt, end_dt) =>
            interview <- add_interview (fun id =>
              Interview.mk id candidate_id job_title recruiter_name recruiter_email
                now start_dt end_dt "pending" InterviewStatus.scheduled
                None None None) ;;
            let link := _video_link (Interview.id interview) token_hex in
            update_interview (Interview.id interview) (Interview.set_video_link link) ;;
            for_each interviewer_user_ids (fun uid =>
              add_participant (InterviewParticipant.mk (Interview.id interview) uid)) ;;
            add_ats (ATSRecord.mk (Interview.id interview) ATSStatus.interview_scheduled
                       None None now) ;;
            for_each users (fun u =>
              do_block_time (User.id u) start_dt end_dt (block_title cand job_title)) ;;
            notify_scheduled (Interview.id interview) cand users ;;
            ret (Interview.set_video_link link interview)
          end
    end).

Record ProposalResult := {
  request : SchedulingRequest.t;
  options : list SchedulingOption.t
}.

(** [for s, e in slots: opt = SchedulingOption(...); session.add(opt);
    options.append(opt)] *)
Fixpoint add_options (request_id : Z) (slots : list (datetime * datetime))
    : M (list SchedulingOption.t) :=
  match slots with
  | [] => ret []
  | (s, e) :: rest =>
    opt <- add_option request_id s e ;;
    opts <- add_options request_id rest ;;
    ret (opt :: opts)
  end.

Definition propose_schedule (recruiter_name recruiter_email : string)
    (candidate_id : Z) (job_title : string) (interviewer_user_ids : list Z)
    (preferred_window : TimeWindow) (duration_minutes option_limit : Z)
    (now : datetime) : M ProposalResult :=
  transactional (
    cand <- get_candidate candidate_id ;;
    match cand with
    | None => raise (ValueError "candidate not found")
    | Some cand =>
      if is_nil interviewer_user_ids
      then raise (ValueError "no interviewers specified")
      else
        users <- gets (users_in interviewer_user_ids) ;;
        if negb (List.length users =? len_set interviewer_user_ids)%nat
        then raise (ValueError "some interviewers not found")
        else
          slots <- gets (fun w => find_common_slots (calendar_blocks w) interviewer_user_ids
                                    preferred_window duration_minutes option_limit 15) ;;
          if is_nil slots
          then raise (ValueError "no common slots found in preferred window")
          else
            req <- add_request (fun id =>
              SchedulingRequest.mk id now recruiter_name recruiter_email candidate_id
                job_title duration_minutes SchedulingRequestStatus.proposed None None) ;;
            options <- add_options (SchedulingRequest.id req) slots ;;
            ret {| request := req; options := options |}
    end).

Definition approve_schedule_and_create_interview (request_id option_id : Z)
    (interviewer_user_ids : list Z) (now : datetime) (token_hex : string)
    : M Interview.t :=
  transactional (
    req <- get_request request_id ;;
    match req with
    | None => raise (ValueError "request not found")
    | Some req =>
      if negb (SchedulingRequestStatus.eqb (SchedulingRequest.status req)
                 SchedulingRequestStatus.proposed)
      then raise (ValueError "request not in proposed state")
      else
        opt <- get_option option_id ;;
        match opt with
        | None => raise (ValueError "invalid option_id for request")
        | Some opt =>
          if negb (SchedulingOption.request_id opt =? SchedulingRequest.id req)
          then raise (ValueError "invalid option_id for request")
          else
            cand <- get_candidate (SchedulingRequest.candidate_id req) ;;
            match cand with
            | None => raise (ValueError "candidate not found")
            | Some cand =>
              users <- gets (users_in interviewer_user_ids) ;;
              if negb (List.length users =? len_set interviewer_user_ids)%nat
              then raise (ValueError "some interviewers not found")
              else
                interview <- add_interview (fun id =>
                  Interview.mk id (SchedulingRequest.candidate_id req)
                    (SchedulingRequest.job_title req)
                    (SchedulingRequest.recruiter_name req)
                    (SchedulingRequest.recruiter_email req)
                    now (SchedulingOption.start opt) (SchedulingOption.end_ opt)
                    "pending" InterviewStatus.scheduled None None None) ;;
                let link := _video_link (Interview.id interview) token_hex in
                update_interview (Interview.id interview) (Interview.set_video_link link) ;;
                for_each interviewer_user_ids (fun uid =>
                  add_participant (InterviewParticipant.mk (Interview.id interview) uid)) ;;
                add_ats (ATSRecord.mk (Interview.id interview) ATSStatus.interview_scheduled
                           None None now) ;;
                for_each users (fun u =>
                  do_block_time (User.id u) (Interview.scheduled_start interview)
                    (Interview.scheduled_end interview)
                    (block_title cand (SchedulingRequest.job_title req))) ;;
                update_request (SchedulingRequest.id req)
                  (SchedulingRequest.approve (SchedulingOption.id opt) (Interview.id interview)) ;;
                notify_scheduled (Interview.id interview) cand users ;;
                ret (Interview.set_video_link link interview)
            end
        end
    end).

Definition ats_set_status (s : ATSStatus.t) (now : datetime) (a : ATSRecord.t) : ATSRecord.t :=
  ATSRecord.mk (ATSRecord.interview_id a) s (ATSRecord.recommendation a)
    (ATSRecord.summary a) now.

Definition request_feedback (interview_id : Z) (now : datetime) : M unit :=
  interview <- get_interview interview_id ;;
  match interview with
  | None => ret tt
  | Some interview =>
    cand <- get_candidate (Interview.candidate_id interview) ;;
    match cand with
    | None => ret tt
    | Some cand =>
      users <- gets (participants_of interview_id) ;;
      for_each users (fun u =>
        emit interview_id (send_email (User.email u) (FeedbackRequested (User.id u))) ;;
        emit interview_id (send_slack (FeedbackRequested (User.id u)))) ;;
      update_interview (Interview.id interview)
        (fun i => Interview.set_feedback_requested_at now
                    (Interview.set_status InterviewStatus.feedback_requested i)) ;;
      rows <- gets (ats_of (Interview.id interview)) ;;
      ats <- scalar_one_or_none rows ;;
      match ats with
      | Some _ =>
        update_ats (Interview.id interview) (ats_set_status ATSStatus.interview_completed now)
      | None => ret tt
      end
    end
  end.

(** [dec_map] of [submit_feedback]; [None] for a key that is not in it. *)
Definition dec_map (decision : string) : option FeedbackDecision.t :=
  if String.eqb decision "pass" then Some FeedbackDecision.pass_
  else if String.eqb decision "fail" then Some FeedbackDecision.fail
  else if String.eqb decision "need_more_info" then Some FeedbackDecision.need_more_info
  else None.

Definition submit_feedback (env : Env) (token decision comment : string)
    (now : datetime) : M unit :=
  transactional (
    match parse_token env token with
    | None => raise (ValueError "invalid token")
    | Some (interview_id, user_id) =>
      interview <- get_interview interview_id ;;
      match interview with
      | None => raise (ValueError "interview not found")
      | Some _ =>
        match dec_map decision with
        | None => raise (ValueError "invalid decision")
        | Some dec =>
          rows <- gets (feedback_by interview_id user_id) ;;
          fb <- scalar_one_or_none rows ;;
          match fb with
          | None => add_feedback (Feedback.mk interview_id user_id dec comment now)
          | Some _ =>
            update_feedback interview_id user_id
              (fun _ => Feedback.mk interview_id user_id dec comment now)
          end
        end
      end
    end).

(** [required_user_ids.issubset(got_user_ids)] *)
Definition issubset (required got : list Z) : bool :=
  forallb (fun x => mem x got) required.

(** [id_to_user[f.user_id].name if f.user_id in id_to_user else
    f"User {f.user_id}"]; in the dict a later user replaces an earlier one
    with the same id. *)
Definition interviewer_name_of (users : list User.t) (user_id : Z) : string :=
  match find (fun u => User.id u =? user_id) (rev users) with
  | Some u => User.name u
  | None => ("User " ++ str_of_int user_id)%string
  end.

Definition feedback_items (users : list User.t) (rows : list Feedback.t) : list FeedbackItem :=
  map (fun f => {| interviewer_name := interviewer_name_of users (Feedback.user_id f);
                   item_decision := Feedback.decision f;
                   item_comment := Feedback.comment f |}) rows.

Definition ats_consolidate (summary : SummaryResult) (now : datetime)
    (a : ATSRecord.t) : ATSRecord.t :=
  ATSRecord.mk (ATSRecord.interview_id a) ATSStatus.feedback_received
    (Some (sr_recommendation summary)) (Some (narrative summary)) now.

Definition maybe_consolidate (env : Env) (interview_id : Z) (now : datetime) : M bool :=
  interview <- get_interview interview_id ;;
  match interview with
  | None => ret false
  | Some interview =>
    cand <- get_candidate (Interview.candidate_id interview) ;;
    match cand with
    | None => ret false
    | Some cand =>
      users <- gets (participants_of interview_id) ;;
      let required_user_ids := map User.id users in
      feedback <- gets (feedback_of interview_id) ;;
      let got_user_ids := map Feedback.user_id feedback in
      if negb (issubset required_user_ids got_user_ids)
      then ret false
      else
        let items := feedback_items users feedback in
        emit (Interview.id interview)
          (llm_summarize (Candidate.name cand) (Interview.job_title interview) items) ;;
        let summary := summarize_feedback env (Candidate.name cand)
                         (Interview.job_title interview) items in
        rows <- gets (ats_of (Interview.id interview)) ;;
        ats <- scalar_one_or_none rows ;;
        match ats with
        | Some _ => update_ats (Interview.id interview) (ats_consolidate summary now)
        | None =>
          add_ats (ATSRecord.mk (Interview.id interview) ATSStatus.feedback_received
                     (Some (sr_recommendation summary)) (Some (narrative summary)) now)
        end ;;
        update_interview (Interview.id interview)
          (fun i => Interview.set_consolidated_at now
                      (Interview.set_status InterviewStatus.feedback_received i)) ;;
        emit (Interview.id interview)
          (send_email (Interview.recruiter_email interview)
             (ReportReady (sr_recommendation summary))) ;;
        emit (Interview.id interview) (send_slack (ReportReady (sr_recommendation summary))) ;;
        ret true
    end
  end.

Definition send_reminder (interview_id : Z) (now : datetime) : M unit :=
  interview <- get_interview interview_id ;;
  match interview with
  | None => ret tt
  | Some interview =>
    cand <- get_candidate (Interview.candidate_id interview) ;;
    match cand with
    | None => ret tt
    | Some cand =>
      users <- gets (participants_of interview_id) ;;
      for_each users (fun u =>
        emit interview_id (send_email (User.email u) ReminderNotice)) ;;
      emit interview_id (send_slack ReminderNotice) ;;
      update_interview (Interview.id interview) (Interview.set_reminder_sent_at now)
    end
  end.

(* ===================================================================== *)
(** ** jobs.py *)

Definition is_none {A} (o : option A) : bool :=
  match o with None => true | Some _ => false end.

(** The [where] clauses of the three queries of [tick]. *)
Definition reminder_due (env : Env) (t : datetime) (i : Interview.t) : bool :=
  let lead := minutes (reminder_lead_minutes (settings env)) in
  let due_by := t + lead in
  InterviewStatus.eqb (Interview.status i) InterviewStatus.scheduled
  && is_none (Interview.reminder_sent_at i)
  && (Interview.scheduled_start i <=? due_by)
  && (Interview.scheduled_start i >? t).

Definition feedback_request_due (env : Env) (t : datetime) (i : Interview.t) : bool :=
  let delay := minutes (feedback_request_delay_minutes (settings env)) in
  is_none (Interview.feedback_requested_at i)
  && (Interview.scheduled_end i <=? t - delay).

Definition consolidation_due (i : Interview.t) : bool :=
  (InterviewStatus.eqb (Interview.status i) InterviewStatus.feedback_requested
   || InterviewStatus.eqb (Interview.status i) InterviewStatus.completed)
  && is_none (Interview.consolidated_at i).

(** [select(Interview.id).where(...)] *)
Definition select_ids (p : Interview.t -> bool) (w : Store) : list Z :=
  map Interview.id (filter p (interviews w)).

(** [tick] reads the clock once, [t = now()], and uses [t] in its queries
    only; [send_reminder], [request_feedback] and [maybe_consolidate] read
    the clock again when they are called. An [ActionClock] gives those
    later readings, for each of the three actions and each interview. *)
Record ActionClock := {
  reminder_at : Z -> datetime;
  request_at : Z -> datetime;
  consolidation_at : Z -> datetime
}.

(** Each of the three functions commits before it returns, so the last
    commit before a call that raises is the store at the entry of that call. *)
Definition tick (env : Env) (t : datetime) (clock : ActionClock) : M unit :=
  ids <- gets (select_ids (reminder_due env t)) ;;
  for_each ids (fun interview_id =>
    discard_uncommitted (send_reminder interview_id (reminder_at clock interview_id))) ;;
  ids2 <- gets (select_ids (feedback_request_due env t)) ;;
  for_each ids2 (fun interview_id =>
    discard_uncommitted (request_feedback interview_id (request_at clock interview_id))) ;;
  ids3 <- gets (select_ids consolidation_due) ;;
  for_each ids3 (fun interview_id =>
    discard_uncommitted
      (maybe_consolidate env interview_id (consolidation_at clock interview_id)) ;;
    ret tt).

(* ===================================================================== *)
(** ** The entry points of the service (server.py and the scheduler) *)

Inductive Op :=
| OpStart (recruiter_name recruiter_email : string) (candidate_id : Z)
    (job_title : string) (interviewer_user_ids : list Z)
    (preferred_window : TimeWindow) (duration_minutes : Z)
    (now : datetime) (token_hex : string)
| OpPropose (recruiter_name recruiter_email : string) (candidate_id : Z)
    (job_title : string) (interviewer_user_ids : list Z)
    (preferred_window : TimeWindow) (duration_minutes option_limit : Z)
    (now : datetime)
| OpApprove (request_id option_id : Z) (interviewer_user_ids : list Z)
    (now : datetime) (token_hex : string)
| OpSubmit (token decision comment : string) (now : datetime)
| OpTick (now : datetime) (clock : ActionClock).

(** The store after an entry point has run, whatever it returned. *)
Definition step (env : Env) (op : Op) (w : Store) : Store :=
  match op with
  | OpStart rn re c j ids tw d now hex => fst (start_interview rn re c j ids tw d now hex w)
  | OpPropose rn re c j ids tw d lim now => fst (propose_schedule rn re c j ids tw d lim now w)
  | OpApprove r o ids now hex => fst (approve_schedule_and_create_interview r o ids now hex w)
  | OpSubmit tok dec com now => fst (submit_feedback env tok dec com now w)
  | OpTick now clock => fst (tick env now clock w)
  end.

Definition run (env : Env) (ops : list Op) (w : Store) : Store :=
  fold_left (fun w op => step env op w) ops w.

(* ===================================================================== *)
(** ** Vocabulary of the properties *)

(** The block is one of [uid] and meets the half-open interval [s, e). *)
Definition conflicts (b : CalendarBlock.t) (uid : Z) (s e : datetime) : Prop :=
  CalendarBlock.user_id b = uid /\ CalendarBlock.start b < e /\ s < CalendarBlock.end_ b.

Definition free_for (blocks : list CalendarBlock.t) (uid : Z) (s e : datetime) : Prop :=
  forall b, In b blocks -> ~ conflicts b uid s e.

(** Every listed participant is free during [s, e). *)
Definition feasible (blocks : list CalendarBlock.t) (user_ids : list Z)
    (s e : datetime) : Prop :=
  forall uid, In uid user_ids -> free_for blocks uid s e.

Definition inside (w : TimeWindow) (s e : datetime) : Prop :=
  tw_start w <= s /\ e <= tw_end w.

(** A start that the scan with this step can propose. *)
Definition on_grid (step_minutes : Z) (t : datetime) : Prop :=
  (minutes step_minutes | t).

Definition is_pass (d : FeedbackDecision.t) : bool :=
  FeedbackDecision.eqb d FeedbackDecision.pass_.

(** The comments, stripped, of the items whose decision is kept, without
    those that are empty after stripping. *)
Definition kept_comments (keep : FeedbackDecision.t -> bool)
    (items : list FeedbackItem) : list string :=
  filter (fun c => negb (is_empty c))
    (map (fun it => strip (item_comment it))
       (filter (fun it => keep (item_decision it)) items)).

(** The decision table of the recommendation: two fails or more, no_hire;
    else two passes or more and no fail, hire; else nothing submitted,
    insufficient_data; else mixed. *)
Definition recommendation_by_counts (items : list FeedbackItem) : ATSRecommendation.t :=
  let passes := count_decision FeedbackDecision.pass_ items in
  let fails := count_decision FeedbackDecision.fail items in
  if 2 <=? fails then ATSRecommendation.no_hire
  else if (2 <=? passes) && (fails =? 0) then ATSRecommendation.hire
  else if is_nil items then ATSRecommendation.insufficient_data
  else ATSRecommendation.mixed.

(** Every exception that [m] can raise satisfies [P]. *)
Definition raises_only {A} (P : exn -> Prop) (m : M A) : Prop :=
  forall w w' e, m w = (w', Raise e) -> P e.

(** [m] relates the store it starts in to the store it leaves. *)
Definition preserves {A} (R : Store -> Store -> Prop) (m : M A) : Prop :=
  forall w w' r, m w = (w', r) -> R w w'.

(** The exceptions of the store, as opposed to the [ValueError]s that the
    services raise themselves. *)
Definition store_error (e : exn) : Prop :=
  e = IntegrityError \/ e = MultipleResultsFound.


(** What [notify_scheduled] sends. *)
Definition scheduled_notices (iid : Z) (cand : Candidate.t) (us : list User.t)
    : list Effect :=
  {| about := iid; call := send_email (Candidate.email cand) InterviewScheduled |}
  :: map (fun u => {| about := iid; call := send_email (User.email u) InterviewScheduled |}) us
  ++ [{| about := iid; call := send_slack InterviewScheduled |}].

(** The store after a booking of [iv] for the listed ids and the users
    [us] found for them: the interview, a participant per listed id, the ATS
    record, a calendar block per user, and the notifications. *)
Definition booked (w : Store) (iv : Interview.t) (ids : list Z) (us : list User.t)
    (cand : Candidate.t) (title : string) (now : datetime) : Store :=
  {| users := users w;
     candidates := candidates w;
     interviews := interviews w ++ [iv];
     interview_participants :=
       interview_participants w ++ map (InterviewParticipant.mk (Interview.id iv)) ids;
     feedback := feedback w;
     ats_records :=
       ats_records w
       ++ [ATSRecord.mk (Interview.id iv) ATSStatus.interview_scheduled None None now];
     calendar_blocks :=
       calendar_blocks w
       ++ map (fun u => CalendarBlock.mk (User.id u) (Interview.scheduled_start iv)
                          (Interview.scheduled_end iv) title) us;
     scheduling_requests := scheduling_requests w;
     scheduling_options := scheduling_options w;
     outbox := outbox w ++ scheduled_notices (Interview.id iv) cand us |}.

(** The ids of the participant rows of an interview. *)
Definition participant_ids (interview_id : Z) (w : Store) : list Z :=
  map InterviewParticipant.user_id
    (filter (fun p => InterviewParticipant.interview_id p =? interview_id)
            (interview_participants w)).

(** The participant has a Feedback row for the interview. *)
Definition has_feedback (interview_id user_id : Z) (w : Store) : Prop :=
  exists f, In f (feedback w)
            /\ Feedback.interview_id f = interview_id
            /\ Feedback.user_id f = user_id.


(** [uq_ats_interview]. *)
Definition ats_unique (w : Store) : Prop :=
  NoDup (map ATSRecord.interview_id (ats_records w)).

(** The three calls of a consolidation. *)
Definition consolidation_calls (env : Env) (w : Store) (iv : Interview.t)
    (cand : Candidate.t) : list Effect :=
  let items := feedback_items (participants_of (Interview.id iv) w)
                 (feedback_of (Interview.id iv) w) in
  let summary := summarize_feedback env (Candidate.name cand) (Interview.job_title iv) items in
  [ {| about := Interview.id iv;
       call := llm_summarize (Candidate.name cand) (Interview.job_title iv) items |};
    {| about := Interview.id iv;
       call := send_email (Interview.recruiter_email iv)
                 (ReportReady (sr_recommendation summary)) |};
    {| about := Interview.id iv;
       call := send_slack (ReportReady (sr_recommendation summary)) |} ].


(** The store after the consolidation of [iv]. *)
Definition consolidated (env : Env) (w : Store) (iv : Interview.t)
    (cand : Candidate.t) (now : datetime) : Store :=
  let items := feedback_items (participants_of (Interview.id iv) w)
                 (feedback_of (Interview.id iv) w) in
  let summary := summarize_feedback env (Candidate.name cand) (Interview.job_title iv) items in
  with_outbox (outbox w ++ consolidation_calls env w iv cand)
    (with_interviews
       (map (fun i => if Interview.id i =? Interview.id iv
                      then Interview.set_consolidated_at now
                             (Interview.set_status InterviewStatus.feedback_received i)
                      else i) (interviews w))
       (with_ats_records
          (match ats_of (Interview.id iv) w with
           | [] => ats_records w
                   ++ [ATSRecord.mk (Interview.id iv) ATSStatus.feedback_received
                         (Some (sr_recommendation summary)) (Some (narrative summary)) now]
           | _ => map (fun a => if ATSRecord.interview_id a =? Interview.id iv
                                then ats_consolidate summary now a else a)
                      (ats_records w)
           end) w)).

(** Foreign key of [scheduling_requests.candidate_id]. *)
Definition requests_have_candidates (w : Store) : Prop :=
  forall r, In r (scheduling_requests w) ->
    In (SchedulingRequest.candidate_id r) (map Candidate.id (candidates w)).

(** Foreign keys to [interviews.id] of the participant, feedback and ATS
    rows. *)
Definition rows_reference_interviews (w : Store) : Prop :=
  (forall p, In p (interview_participants w) ->
     In (InterviewParticipant.interview_id p) (map Interview.id (interviews w)))
  /\ (forall f, In f (feedback w) ->
       In (Feedback.interview_id f) (map Interview.id (interviews w)))
  /\ (forall a, In a (ats_records w) ->
       In (ATSRecord.interview_id a) (map Interview.id (interviews w))).

(** Primary key of [interviews]. *)
Definition interviews_pk (w : Store) : Prop :=
  NoDup (map Interview.id (interviews w)).

(** A marker that is set keeps its value. *)
Definition marker_le (a b : option datetime) : Prop :=
  forall v, a = Some v -> b = Some v.

(** The later state [i'] of the interview row [i]: the same interview,
    with every marker that was set unchanged. *)
Definition row_le (i i' : Interview.t) : Prop :=
  Interview.id i' = Interview.id i
  /\ marker_le (Interview.reminder_sent_at i) (Interview.reminder_sent_at i')
  /\ marker_le (Interview.feedback_requested_at i) (Interview.feedback_requested_at i')
  /\ marker_le (Interview.consolidated_at i) (Interview.consolidated_at i').

Definition markers_kept (w w' : Store) : Prop :=
  forall i, In i (interviews w) -> exists i', In i' (interviews w') /\ row_le i i'.

(** The calls that a consolidation makes: the summarizer and the report. *)
Definition is_consolidation (c : Call) : bool :=
  match c with
  | llm_summarize _ _ _ => true
  | send_email _ (ReportReady _) => true
  | send_slack (ReportReady _) => true
  | _ => false
  end.

(** The calls of a reminder. *)
Definition is_reminder (c : Call) : bool :=
  match c with
  | send_email _ ReminderNotice => true
  | send_slack ReminderNotice => true
  | _ => false
  end.

(** From [w] to [w']: interview ids stay distinct, markers are kept, and
    what was sent in between satisfies [Q]. *)
Definition extends (Q : Effect -> Prop) (w w' : Store) : Prop :=
  (interviews_pk w -> interviews_pk w')
  /\ markers_kept w w'
  /\ exists sent, outbox w' = outbox w ++ sent /\ Forall Q sent.

(** Neither a consolidation nor a reminder. *)
Definition booking_call (e : Effect) : Prop :=
  is_consolidation (call e) = false /\ is_reminder (call e) = false.

(** A relation between the store before and the store after that the
    session combinators respect: reflexive, transitive, blind to the other
    tables, and kept by a rollback of the tables. *)
Class Frame (R : Store -> Store -> Prop) : Prop := {
  frame_refl : forall w, R w w;
  frame_trans : forall w1 w2 w3, R w1 w2 -> R w2 w3 -> R w1 w3;
  frame_same : forall w w',
    interviews w' = interviews w -> candidates w' = candidates w ->
    outbox w' = outbox w -> R w w';
  frame_rollback : forall w w1, R w w1 -> R w (with_outbox (outbox w1) w)
}.

(** The update of the interview rows with the given id. *)
Definition upd (id : Z) (f : Interview.t -> Interview.t) (i : Interview.t) : Interview.t :=
  if Interview.id i =? id then f i else i.

(** A call made for interview [id], of one of the [allowed] kinds. *)
Definition action_call (id : Z) (allowed : Call -> bool) (e : Effect) : Prop :=
  about e = id /\ allowed (call e) = true.

(** What a ticker action for interview [id] may do: nothing to the
    interview rows or the update [f] of those of [id]; nothing to the
    candidates; and calls for [id] of the [allowed] kinds. *)
Definition touches (f : Interview.t -> Interview.t) (allowed : Call -> bool) (id : Z)
    (w w' : Store) : Prop :=
  (interviews w' = interviews w \/ interviews w' = map (upd id f) (interviews w))
  /\ candidates w' = candidates w
  /\ exists sent, outbox w' = outbox w ++ sent /\ Forall (action_call id allowed) sent.

(** The calls of a feedback request. *)
Definition is_feedback_request (c : Call) : bool :=
  match c with
  | send_email _ (FeedbackRequested _) => true
  | send_slack (FeedbackRequested _) => true
  | _ => false
  end.

(** The three updates of the ticker. *)
Definition reminded (t : datetime) (i : Interview.t) : Interview.t :=
  Interview.set_reminder_sent_at t i.

Definition feedback_asked (t : datetime) (i : Interview.t) : Interview.t :=
  Interview.set_feedback_requested_at t
    (Interview.set_status InterviewStatus.feedback_requested i).

Definition consolidated_row (t : datetime) (i : Interview.t) : Interview.t :=
  Interview.set_consolidated_at t
    (Interview.set_status InterviewStatus.feedback_received i).

(** Foreign key of [interviews.candidate_id]. *)
Definition interviews_have_candidates (w : Store) : Prop :=
  forall i, In i (interviews w) ->
    In (Interview.candidate_id i) (map Candidate.id (candidates w)).

(** What a scan of the ticker over the interviews [ids] does: the rows
    keep their ids and their set markers, rows of other interviews are
    untouched, the candidates are untouched, and the calls are for
    interviews of [ids] and of the [allowed] kinds. *)
Definition scanned (allowed : Call -> bool) (ids : list Z) (w w' : Store) : Prop :=
  map Interview.id (interviews w') = map Interview.id (interviews w)
  /\ candidates w' = candidates w
  /\ markers_kept w w'
  /\ (forall i', In i' (interviews w') -> ~ In (Interview.id i') ids ->
        In i' (interviews w))
  /\ exists sent,
       outbox w' = outbox w ++ sent
       /\ Forall (fun e => In (about e) ids /\ allowed (call e) = true) sent.

(** One entry point later: interview ids are distinct, markers are kept,
    and every call of a consolidation made in between is for an interview
    that was not consolidated before. *)
Definition stepped (w w' : Store) : Prop :=
  interviews_pk w'
  /\ markers_kept w w'
  /\ exists sent,
       outbox w' = outbox w ++ sent
       /\ forall e, In e sent -> is_consolidation (call e) = true ->
            exists i, In i (interviews w)
                      /\ Interview.id i = about e
                      /\ Interview.consolidated_at i = None.

(* ===================================================================== *)
(** ** calendar.py: [get_busy_blocks] *)

(** The [where] clauses of [get_busy_blocks]. *)
Definition busy_in (uid : Z) (window : TimeWindow) (b : CalendarBlock.t) : bool :=
  (CalendarBlock.user_id b =? uid)
  && ((CalendarBlock.start b <? tw_end window)
      && (CalendarBlock.end_ b >? tw_start window)).

(** [order_by(CalendarBlock.start.asc())]. SQL leaves the order of rows
    with equal starts open; here they keep the order of the table. *)
Fixpoint insert_by_start (b : CalendarBlock.t) (l : list CalendarBlock.t)
    : list CalendarBlock.t :=
  match l with
  | [] => [b]
  | x :: rest =>
    if CalendarBlock.start b <=? CalendarBlock.start x
    then b :: x :: rest
    else x :: insert_by_start b rest
  end.

Definition order_by_start (l : list CalendarBlock.t) : list CalendarBlock.t :=
  fold_right insert_by_start [] l.

Definition get_busy_blocks (blocks : list CalendarBlock.t) (user_id : Z)
    (window : TimeWindow) : list CalendarBlock.t :=
  order_by_start (filter (busy_in user_id window) blocks).

(* ===================================================================== *)
(** ** Markers and the calls they guard *)




(** The calls of a reminder for interview [id] whose query returned the
    users [us]: an email to each, then one Slack message. *)
Definition reminder_calls_to (id : Z) (us : list User.t) : list Effect :=
  map (fun u => {| about := id; call := send_email (User.email u) ReminderNotice |}) us
  ++ [{| about := id; call := send_slack ReminderNotice |}].

(** The calls of a reminder for interview [id]: an email to each
    participant, then one Slack message. *)
Definition reminder_calls (id : Z) (w : Store) : list Effect :=
  map (fun u => {| about := id; call := send_email (User.email u) ReminderNotice |})
    (participants_of id w)
  ++ [{| about := id; call := send_slack ReminderNotice |}].

(** The interviews of [ids] are in the store with their candidates. *)
Definition present (ids : list Z) (w : Store) : Prop :=
  forall id, In id ids ->
    exists iv cand,
      find (fun i => Interview.id i =? id) (interviews w) = Some iv
      /\ find (fun c => Candidate.id c =? Interview.candidate_id iv) (candidates w)
         = Some cand.

(** [uq_feedback_interview_user]. *)
Definition feedback_unique (w : Store) : Prop :=
  forall i u, (List.length (feedback_by i u w) <= 1)%nat.

(** [op] is a submission of feedback by user [uid] for interview [iid],
    with a decision of the map. *)
Definition submits (env : Env) (op : Op) (iid uid : Z) : Prop :=
  match op with
  | OpSubmit token decision _ _ =>
    parse_token env token = Some (iid, uid) /\ dec_map decision <> None
  | _ => False
  end.

(** A submission for an interview of the store. *)
Definition valid_submission (env : Env) (w : Store) (op : Op) : Prop :=
  exists iid uid,
    submits env op iid uid
    /\ In iid (map Interview.id (interviews w)).

(* ===================================================================== *)
(** ** Tables that only grow *)

(** [l'] is [l] with rows added at the end. *)
Definition prefix {A} (l l' : list A) : Prop := exists more, l' = l ++ more.

(** From [w] to [w'] no row is deleted and no key is changed: the users and
    the candidates are the same; every other table has its rows (or, where
    rows are updated, their keys) in place, with new ones at the end; and
    what was sent stays sent. *)
Definition grows (w w' : Store) : Prop :=
  users w' = users w
  /\ candidates w' = candidates w
  /\ prefix (map Interview.id (interviews w)) (map Interview.id (interviews w'))
  /\ prefix (interview_participants w) (interview_participants w')
  /\ prefix (map (fun f => (Feedback.interview_id f, Feedback.user_id f)) (feedback w))
            (map (fun f => (Feedback.interview_id f, Feedback.user_id f)) (feedback w'))
  /\ prefix (map ATSRecord.interview_id (ats_records w))
            (map ATSRecord.interview_id (ats_records w'))
  /\ prefix (calendar_blocks w) (calendar_blocks w')
  /\ prefix (map SchedulingRequest.id (scheduling_requests w))
            (map SchedulingRequest.id (scheduling_requests w'))
  /\ prefix (scheduling_options w) (scheduling_options w')
  /\ prefix (outbox w) (outbox w').

(* ===================================================================== *)
(** ** seed.py *)

Definition with_users (l : list User.t) (w : Store) : Store :=
  mkStore l (candidates w) (interviews w) (interview_participants w) (feedback w)
          (ats_records w) (calendar_blocks w) (scheduling_requests w)
          (scheduling_options w) (outbox w).

Definition with_candidates (l : list Candidate.t) (w : Store) : Store :=
  mkStore (users w) l (interviews w) (interview_participants w) (feedback w)
          (ats_records w) (calendar_blocks w) (scheduling_requests w)
          (scheduling_options w) (outbox w).

(** The insert of a user, with the unique constraint on [email]. *)
Definition add_user (mk_row : Z -> User.t) : M User.t :=
  fun w =>
    let row := mk_row (next_id (map User.id (users w))) in
    if existsb (fun u => String.eqb (User.email u) (User.email row)) (users w)
    then (w, Raise IntegrityError)
    else (with_users (users w ++ [row]) w, Ok row).

(** The insert of a candidate, with the unique constraint on [email]. *)
Definition add_candidate (mk_row : Z -> Candidate.t) : M Candidate.t :=
  fun w =>
    let row := mk_row (next_id (map Candidate.id (candidates w))) in
    if existsb (fun c => String.eqb (Candidate.email c) (Candidate.email row)) (candidates w)
    then (w, Raise IntegrityError)
    else (with_candidates (candidates w ++ [row]) w, Ok row).

(** [dt.replace(minute=0, second=0, microsecond=0)] *)
Definition floor_hour (dt : datetime) : datetime := dt - dt mod minutes 60.

Definition seed_resume : string :=
  ("Synthetic demo resume." ++ newline
   ++ "- 5 years of Python" ++ newline
   ++ "- FastAPI, SQL" ++ newline
   ++ "- System design (basic)" ++ newline)%string.

Definition seed_email : string := "candidate@example.com".

(** The three blocks of the demo calendar, for the users [u0], [u1] and
    [u2]. *)
Definition seed_blocks (u0 u1 u2 : Z) (base : datetime) : list CalendarBlock.t :=
  [ CalendarBlock.mk u0 (base + minutes 60) (base + minutes 120) "Focus";
    CalendarBlock.mk u1 (base + minutes 120) (base + minutes 180) "Meeting";
    CalendarBlock.mk u2 (base + minutes 90) (base + minutes 150) "1:1" ].

Definition seed_if_empty (now : datetime) : M unit :=
  transactional (
    rows <- gets (fun w => firstn 1 (map User.id (users w))) ;;
    first <- scalar_one_or_none rows ;;
    match first with
    | Some _ => ret tt
    | None =>
      u0 <- add_user (fun id =>
        User.mk id "Ivan Engineer" "ivan.engineer@example.com" UserRole.engineer
          (Some "@ivan"%string)) ;;
      u1 <- add_user (fun id =>
        User.mk id "Olga Engineer" "olga.engineer@example.com" UserRole.engineer
          (Some "@olga"%string)) ;;
      u2 <- add_user (fun id =>
        User.mk id "Max TechLead" "max.techlead@example.com" UserRole.tech_lead
          (Some "@max"%string)) ;;
      add_candidate (fun id => Candidate.mk id "Test Candidate" seed_email seed_resume) ;;
      let base := floor_hour now + minutes 120 in
      modify (fun w =>
        with_calendar_blocks
          (calendar_blocks w ++ seed_blocks (User.id u0) (User.id u1) (User.id u2) base) w)
    end)%session.

(** The store that a seeding of [w] leaves when [w] has no user. *)
Definition seeded (now : datetime) (w : Store) : Store :=
  with_calendar_blocks
    (calendar_blocks w ++ seed_blocks 1 2 3 (floor_hour now + minutes 120))
    (with_candidates
       (candidates w
        ++ [Candidate.mk (next_id (map Candidate.id (candidates w))) "Test Candidate"
              seed_email seed_resume])
       (with_users
          [ User.mk 1 "Ivan Engineer" "ivan.engineer@example.com" UserRole.engineer
              (Some "@ivan"%string);
            User.mk 2 "Olga Engineer" "olga.engineer@example.com" UserRole.engineer
              (Some "@olga"%string);
            User.mk 3 "Max TechLead" "max.techlead@example.com" UserRole.tech_lead
              (Some "@max"%string) ] w)).

(* ===================================================================== *)
(** ** The unique constraints as an invariant *)

(** The primary key of [interviews], [uq_ats_interview] and
    [uq_feedback_interview_user]. *)
Definition constraints (w : Store) : Prop :=
  interviews_pk w /\ ats_unique w /\ feedback_unique w.

(** [w'] satisfies the constraints if [w] does. *)
Definition keeps (P : Store -> Prop) (w w' : Store) : Prop := P w -> P w'.

(* ===================================================================== *)
(** ** One tick, row by row *)

(** The calls of a feedback request for interview [id] whose query returned
    the users [us]: an email and a Slack message for each, user after
    user. *)
Definition feedback_request_calls_to (id : Z) (us : list User.t) : list Effect :=
  flat_map (fun u =>
    [ {| about := id; call := send_email (User.email u) (FeedbackRequested (User.id u)) |};
      {| about := id; call := send_slack (FeedbackRequested (User.id u)) |} ]) us.

(** The calls of a feedback request for interview [id]: an email and a
    Slack message for each participant. *)
Definition feedback_request_calls (id : Z) (w : Store) : list Effect :=
  flat_map (fun u =>
    [ {| about := id; call := send_email (User.email u) (FeedbackRequested (User.id u)) |};
      {| about := id; call := send_slack (FeedbackRequested (User.id u)) |} ])
    (participants_of id w).

(** The gate of [maybe_consolidate]:
    [required_user_ids.issubset(got_user_ids)]. *)
Definition gate_open (id : Z) (w : Store) : bool :=
  issubset (map User.id (participants_of id w))
           (map Feedback.user_id (feedback_of id w)).

(** An interview row after the first two scans of a tick at [t]: the
    reminder if it is due, then the feedback request if it is due, each
    marked with the time of its action. *)
Definition after_requests (env : Env) (t : datetime) (clock : ActionClock)
    (i : Interview.t) : Interview.t :=
  let i1 := if reminder_due env t i
            then reminded (reminder_at clock (Interview.id i)) i else i in
  if feedback_request_due env t i1
  then feedback_asked (request_at clock (Interview.id i)) i1 else i1.

(** What one tick at [t] does to an interview row: the reminder and the
    feedback request as they are due, then the consolidation if the row is
    then due for it and the gate of the interview is open. *)
Definition tick_row (env : Env) (t : datetime) (clock : ActionClock) (w : Store)
    (i : Interview.t) : Interview.t :=
  let i2 := after_requests env t clock i in
  if consolidation_due i2 && gate_open (Interview.id i) w
  then consolidated_row (consolidation_at clock (Interview.id i)) i2 else i2.

(** The calls of the consolidation of interview [id], if its gate is
    open. *)
Definition consolidation_calls_of (env : Env) (w : Store) (id : Z) : list Effect :=
  match find (fun i => Interview.id i =? id) (interviews w) with
  | Some iv =>
    match find (fun c => Candidate.id c =? Interview.candidate_id iv) (candidates w) with
    | Some cand => if gate_open id w then consolidation_calls env w iv cand else []
    | None => []
    end
  | None => []
  end.

(* ===================================================================== *)
(** ** A sample installation (seed.py and the smoke tests) *)

(** 2026-01-01T00:00 on the wall clock. *)
Definition new_year_2026 : datetime := 1767225600 * MICROSECOND.

(** [base] of seed.py for a first start shortly after 08:00. *)
Definition base : datetime := new_year_2026 + minutes 600.

Definition ivan : User.t :=
  User.mk 1 "Ivan Engineer" "ivan.engineer@example.com" UserRole.engineer (Some "@ivan"%string).
Definition olga : User.t :=
  User.mk 2 "Olga Engineer" "olga.engineer@example.com" UserRole.engineer (Some "@olga"%string).
Definition max : User.t :=
  User.mk 3 "Max TechLead" "max.techlead@example.com" UserRole.tech_lead (Some "@max"%string).

Definition test_candidate : Candidate.t :=
  Candidate.mk 1 "Test Candidate" "candidate@example.com" "Synthetic demo resume.".

(** The store that [seed_if_empty] leaves. *)
Definition seed_store : Store :=
  {| users := [ivan; olga; max];
     candidates := [test_candidate];
     interviews := [];
     interview_participants := [];
     feedback := [];
     ats_records := [];
     calendar_blocks :=
       [ CalendarBlock.mk 1 (base + minutes 60) (base + minutes 120) "Focus";
         CalendarBlock.mk 2 (base + minutes 120) (base + minutes 180) "Meeting";
         CalendarBlock.mk 3 (base + minutes 90) (base + minutes 150) "1:1" ];
     scheduling_requests := [];
     scheduling_options := [];
     outbox := [] |}.

(** The window of the smoke tests: six hours from [base]. *)
Definition demo_window : TimeWindow :=
  {| tw_start := base; tw_end := base + minutes 360 |}.

(** A window that starts half a second after midnight. *)
Definition half_second_window : TimeWindow :=
  {| tw_start := new_year_2026 + 500000; tw_end := new_year_2026 + minutes 120 |}.

Definition demo_settings : Settings :=
  {| mock_llm := true;
     llm_provider := "mock";
     reminder_lead_minutes := 60;
     feedback_request_delay_minutes := 1 |}.

(** A stand-in for the signed tokens of the three users for interview 1. *)
Definition demo_parse_token (token : string) : option (Z * Z) :=
  if String.eqb token "token-1-1" then Some (1, 1)
  else if String.eqb token "token-1-2" then Some (1, 2)
  else if String.eqb token "token-1-3" then Some (1, 3)
  else None.

Definition demo_env : Env :=
  {| settings := demo_settings;
     _watsonx_summary := fun _ _ items => _mock_summary items;
     _openai_summary := fun _ _ items => _mock_summary items;
     parse_token := demo_parse_token |}.

(** The direct booking of smoke_test.py at 08:05, and the store after it. *)
Definition demo_start (interviewer_user_ids : list Z) : M Interview.t :=
  start_interview "Recruiter" "recruiter@example.com" 1 "Backend Engineer"
    interviewer_user_ids demo_window 60 (base - minutes 115) "0a1b2c3d".

Definition booked_store : Store := fst (demo_start [1; 2; 3] seed_store).

(** Six interviewers who pass, each with a one-letter comment. *)
Definition six_passes : list FeedbackItem :=
  map (fun c => {| interviewer_name := "Interviewer";
                   item_decision := FeedbackDecision.pass_;
                   item_comment := c |})
      ["a"; "b"; "c"; "d"; "e"; "f"]%string.

(** The interview that the direct booking creates. *)
Definition demo_interview : Interview.t :=
  Interview.mk 1 1 "Backend Engineer" "Recruiter" "recruiter@example.com"
    (base - minutes 115) base (base + minutes 60)
    "https://meet.jit.si/ibm-dev-day-1-0a1b2c3d"
    InterviewStatus.scheduled None None None.

(** The three interviewers submit, as in smoke_test.py, five minutes after
    the end of the interview. *)
Definition after_interview : datetime := base + minutes 65.

Definition feedback_store : Store :=
  run demo_env
    [ OpSubmit "token-1-1" "pass" "Comment from Ivan Engineer: demo evaluation." after_interview;
      OpSubmit "token-1-2" "need_more_info" "Comment from Olga Engineer: demo evaluation."
        after_interview;
      OpSubmit "token-1-3" "pass" "Comment from Max TechLead: demo evaluation." after_interview ]
    booked_store.

(** Only the first two have submitted. *)
Definition partial_feedback_store : Store :=
  run demo_env
    [ OpSubmit "token-1-1" "pass" "Comment from Ivan Engineer: demo evaluation." after_interview;
      OpSubmit "token-1-2" "need_more_info" "Comment from Olga Engineer: demo evaluation."
        after_interview ]
    booked_store.

(** The proposal of smoke_test_hitl.py, on the seeded store. *)
Definition proposed_store : Store :=
  fst (propose_schedule "Recruiter" "recruiter@example.com" 1 "Backend Engineer"
         [1; 2; 3] demo_window 60 3 (base - minutes 115) seed_store).

Definition demo_request : SchedulingRequest.t :=
  SchedulingRequest.mk 1 (base - minutes 115) "Recruiter" "recruiter@example.com" 1
    "Backend Engineer" 60 SchedulingRequestStatus.proposed None None.

Definition demo_option : SchedulingOption.t :=
  SchedulingOption.mk 1 1 base (base + minutes 60).

(** The consolidation of smoke_test.py, seventy minutes after [base]. *)
Definition consolidated_store : Store :=
  fst (maybe_consolidate demo_env 1 (base + minutes 70) feedback_store).



(** The proposal of smoke_test_hitl.py followed by the direct booking of
    smoke_test.py: the first hour of the window is taken while the first
    option of the proposal still offers it. *)
Definition overtaken_store : Store := fst (demo_start [1; 2; 3] proposed_store).

(** The clock during a tick that starts at [t]: it has advanced by one,
    two and three seconds when the reminders, the feedback requests and the
    consolidations run. *)
Definition ticking (t : datetime) : ActionClock :=
  {| reminder_at := fun _ => t + MICROSECOND;
     request_at := fun _ => t + 2 * MICROSECOND;
     consolidation_at := fun _ => t + 3 * MICROSECOND |}.

(* ===================================================================== *)
(** * Properties *)

(** ** Snapping to the step grid *)

Section Snap.

Lemma total_seconds_inject (td : timedelta) :
  (total_seconds td == inject_Z td / inject_Z MICROSECOND)%Q.
Proof.
  unfold total_seconds, MICROSECOND. rewrite Qmake_Qdiv. reflexivity.
Qed.

(** The rational computation of [ceil_to_minutes] in integers. *)
Lemma ceil_to_minutes_Z (dt mins : Z) :
  0 < mins ->
  ceil_to_minutes dt mins
  = (dt + (mins * 60 - 1) * MICROSECOND) / minutes mins * minutes mins.
Proof.
  intros Hm. unfold ceil_to_minutes, ensure_aware.
  assert (Hstep : (total_seconds (minutes mins) == inject_Z (mins * 60))%Q).
  { unfold total_seconds, minutes, MICROSECOND, Qeq. simpl. lia. }
  assert (Hq : ((total_seconds dt + total_seconds (minutes mins) - 1)
                / total_seconds (minutes mins)
                == inject_Z (dt + (mins * 60 - 1) * MICROSECOND)
                   / inject_Z (minutes mins))%Q).
  { rewrite Hstep, total_seconds_inject.
    unfold minutes. rewrite !inject_Z_plus, !inject_Z_mult.
    unfold Z.sub. rewrite !inject_Z_plus, !inject_Z_mult.
    change (inject_Z (- (1))) with (- (1))%Q.
    assert (~ inject_Z mins == 0)%Q.
    { unfold Qeq. simpl. lia. }
    unfold MICROSECOND. field. assumption. }
  rewrite Hq, <- Zdiv_Qdiv, Hstep.
  set (k := (dt + (mins * 60 - 1) * MICROSECOND) / minutes mins).
  rewrite <- !inject_Z_mult, Qfloor_Z.
  unfold minutes. lia.
Qed.

Lemma minutes_pos (m : Z) : 0 < m -> 0 < minutes m.
Proof. unfold minutes, MICROSECOND. lia. Qed.

(** The result is on the grid of the step. *)
Lemma ceil_to_minutes_on_grid (dt mins : Z) :
  0 < mins -> (minutes mins | ceil_to_minutes dt mins).
Proof.
  intros Hm. rewrite ceil_to_minutes_Z by assumption.
  apply Z.divide_factor_r.
Qed.

(** It is never a full second before [dt], and less than a step after. *)
Lemma ceil_to_minutes_bounds (dt mins : Z) :
  0 < mins ->
  dt - MICROSECOND < ceil_to_minutes dt mins < dt + minutes mins.
Proof.
  intros Hm. rewrite ceil_to_minutes_Z by assumption.
  pose proof (minutes_pos mins Hm) as Hp.
  pose proof (Z.mul_div_le (dt + (mins * 60 - 1) * MICROSECOND) (minutes mins) Hp).
  pose proof (Z.mul_succ_div_gt (dt + (mins * 60 - 1) * MICROSECOND) (minutes mins) Hp).
  unfold minutes, MICROSECOND in *. lia.
Qed.

(** On a whole number of seconds it is the ceiling. *)
Lemma ceil_to_minutes_whole_second (dt mins : Z) :
  0 < mins -> (MICROSECOND | dt) ->
  dt <= ceil_to_minutes dt mins.
Proof.
  intros Hm [s Hs].
  pose proof (ceil_to_minutes_bounds dt mins Hm) as [Hlo _].
  destruct (ceil_to_minutes_on_grid dt mins Hm) as [k Hk].
  rewrite Hk in *. unfold minutes, MICROSECOND in *. subst dt.
  nia.
Qed.

End Snap.

(** ** The availability search *)

Section Availability.

Variable blocks : list CalendarBlock.t.

Lemma is_user_free_spec (uid : Z) (s e : datetime) :
  is_user_free blocks uid s e = true <-> free_for blocks uid s e.
Proof.
  unfold is_user_free, ensure_aware, free_for, conflicts.
  destruct (find (blocks_user uid s e) blocks) as [b|] eqn:Hf; split.
  - discriminate.
  - intros Hfree. exfalso.
    apply find_some in Hf. destruct Hf as [Hin Hb].
    unfold blocks_user in Hb.
    apply andb_prop in Hb. destruct Hb as [Hu Hb].
    apply andb_prop in Hb. destruct Hb as [Hs He].
    apply (Hfree b Hin). lia.
  - intros _ b Hin [Hu [Hs He]].
    pose proof (find_none _ _ Hf b Hin) as Hb.
    unfold blocks_user in Hb.
    apply andb_false_iff in Hb. destruct Hb as [Hb | Hb]; [lia |].
    apply andb_false_iff in Hb. destruct Hb as [Hb | Hb]; lia.
  - reflexivity.
Qed.

Lemma all_free_spec (user_ids : list Z) (s e : datetime) :
  all_free blocks user_ids s e = true <-> feasible blocks user_ids s e.
Proof.
  unfold all_free, feasible. rewrite forallb_forall.
  split; intros H uid Hin; apply is_user_free_spec; auto.
Qed.

Lemma all_free_false (user_ids : list Z) (s e : datetime) :
  all_free blocks user_ids s e = false <-> ~ feasible blocks user_ids s e.
Proof.
  rewrite <- all_free_spec. destruct (all_free blocks user_ids s e); split;
    congruence.
Qed.

Variables (user_ids : list Z) (end_ duration step : timedelta).
Hypothesis step_pos : 0 < step.

(** The fuel of [find_common_slot] is enough: the loop ends. *)
Lemma scan_slot_terminates (fuel : nat) (cursor : datetime) :
  (Z.to_nat ((end_ - duration - cursor) / step + 1) < fuel)%nat ->
  exists r, scan_slot fuel blocks user_ids end_ duration step cursor = Some r.
Proof.
  revert cursor. induction fuel as [|n IH]; intros cursor Hfuel; [lia |].
  simpl. destruct (cursor + duration <=? end_) eqn:Hc; [| eauto].
  destruct (all_free blocks user_ids cursor (cursor + duration)); [eauto |].
  apply Z.leb_le in Hc.
  assert (Hge : 0 <= (end_ - duration - cursor) / step)
    by (apply Z.div_pos; lia).
  apply IH.
  replace (end_ - duration - (cursor + step))
    with ((end_ - duration - cursor) + (-1) * step) by ring.
  rewrite Z.div_add by lia. lia.
Qed.

(** What the loop returns when it returns a slot: the first feasible
    candidate among [cursor], [cursor + step], ... *)
Lemma scan_slot_some (fuel : nat) (cursor s e : datetime) :
  scan_slot fuel blocks user_ids end_ duration step cursor = Some (Some (s, e)) ->
  exists k, 0 <= k /\ s = cursor + k * step /\ e = s + duration /\ e <= end_
    /\ feasible blocks user_ids s e
    /\ forall j, 0 <= j < k ->
         ~ feasible blocks user_ids (cursor + j * step) (cursor + j * step + duration).
Proof.
  revert cursor. induction fuel as [|n IH]; intros cursor H; [discriminate |].
  simpl in H. destruct (cursor + duration <=? end_) eqn:Hc; [| discriminate].
  apply Z.leb_le in Hc.
  destruct (all_free blocks user_ids cursor (cursor + duration)) eqn:Hfree.
  - injection H as <- <-. exists 0.
    repeat split; try lia. now apply all_free_spec.
  - destruct (IH _ H) as (k & Hk & Hs & He & Hend & Hfeas & Hmin).
    exists (k + 1). repeat split; try lia; auto.
    intros j Hj. destruct (Z.eq_dec j 0) as [-> | Hj0].
    + rewrite Z.mul_0_l, Z.add_0_r. now apply all_free_false.
    + replace (cursor + j * step) with (cursor + step + (j - 1) * step) by ring.
      apply Hmin. lia.
Qed.

(** What the loop has seen when it returns none: no candidate fits. *)
Lemma scan_slot_none (fuel : nat) (cursor : datetime) :
  scan_slot fuel blocks user_ids end_ duration step cursor = Some None ->
  forall j, 0 <= j -> cursor + j * step + duration <= end_ ->
    ~ feasible blocks user_ids (cursor + j * step) (cursor + j * step + duration).
Proof.
  revert cursor. induction fuel as [|n IH]; intros cursor H; [discriminate |].
  simpl in H. destruct (cursor + duration <=? end_) eqn:Hc.
  - destruct (all_free blocks user_ids cursor (cursor + duration)) eqn:Hfree;
      [discriminate |].
    intros j Hj Hfit. destruct (Z.eq_dec j 0) as [-> | Hj0].
    + rewrite Z.mul_0_l, Z.add_0_r. now apply all_free_false.
    + replace (cursor + j * step) with (cursor + step + (j - 1) * step) by ring.
      apply (IH _ H); [lia |].
      replace (cursor + step + (j - 1) * step) with (cursor + j * step) by ring.
      exact Hfit.
  - intros j Hj Hfit. apply Z.leb_gt in Hc. nia.
Qed.

End Availability.

Section FindCommonSlot.

Variables (blocks : list CalendarBlock.t) (user_ids : list Z) (w : TimeWindow).
Variables (duration_minutes step_minutes : Z).
Hypothesis step_pos : 0 < step_minutes.
Hypothesis some_user : user_ids <> [].

Local Abbreviation cursor := (ceil_to_minutes (tw_start w) step_minutes).

(** With a positive step the function returns: it is the value of its
    loop, which ends within the fuel. *)
Lemma find_common_slot_returns :
  exists r,
    scan_slot (scan_fuel (tw_end w) (minutes duration_minutes) (minutes step_minutes) cursor)
      blocks user_ids (tw_end w) (minutes duration_minutes) (minutes step_minutes) cursor
    = Some r
    /\ find_common_slot blocks user_ids w duration_minutes step_minutes = r.
Proof.
  destruct (scan_slot_terminates blocks user_ids (tw_end w) (minutes duration_minutes)
              (minutes step_minutes) (minutes_pos _ step_pos)
              (scan_fuel (tw_end w) (minutes duration_minutes) (minutes step_minutes) cursor)
              cursor) as [r Hr].
  { unfold scan_fuel. lia. }
  exists r. split; [exact Hr |].
  unfold find_common_slot, ensure_aware. fold cursor.
  destruct user_ids; [congruence |]. now rewrite Hr.
Qed.

Lemma grid_offset (t : datetime) :
  on_grid step_minutes t -> cursor <= t ->
  exists j, 0 <= j /\ t = cursor + j * minutes step_minutes.
Proof.
  intros [a Ha] Hle.
  destruct (ceil_to_minutes_on_grid (tw_start w) step_minutes step_pos) as [c Hc].
  fold cursor in Hc. pose proof (minutes_pos _ step_pos).
  exists (a - c). split; [nia | lia].
Qed.

(** A returned slot has the requested length, ends inside the window,
    starts on the grid less than a second before the window at worst, is
    free for every participant, and no earlier scanned start is. *)
Lemma find_common_slot_some (s e : datetime) :
  find_common_slot blocks user_ids w duration_minutes step_minutes = Some (s, e) ->
  e = s + minutes duration_minutes
  /\ e <= tw_end w
  /\ tw_start w - MICROSECOND < cursor <= s
  /\ on_grid step_minutes s
  /\ feasible blocks user_ids s e
  /\ forall t, on_grid step_minutes t -> cursor <= t < s ->
       ~ feasible blocks user_ids t (t + minutes duration_minutes).
Proof.
  intros H. destruct find_common_slot_returns as (r & Hscan & Hr).
  rewrite H in Hr. subst r.
  apply scan_slot_some in Hscan.
  destruct Hscan as (k & Hk & Hs & He & Hend & Hfeas & Hmin).
  pose proof (minutes_pos _ step_pos) as Hp.
  pose proof (ceil_to_minutes_bounds (tw_start w) step_minutes step_pos) as [Hlo _].
  fold cursor in Hlo.
  repeat split; auto.
  - nia.
  - destruct (ceil_to_minutes_on_grid (tw_start w) step_minutes step_pos) as [c Hc].
    fold cursor in Hc. exists (c + k). lia.
  - intros t Hg [Hle Hlt].
    destruct (grid_offset t Hg Hle) as (j & Hj & ->).
    apply Hmin. nia.
Qed.

Lemma find_common_slot_none :
  find_common_slot blocks user_ids w duration_minutes step_minutes = None ->
  forall t, on_grid step_minutes t -> cursor <= t ->
    t + minutes duration_minutes <= tw_end w ->
    ~ feasible blocks user_ids t (t + minutes duration_minutes).
Proof.
  intros H t Hg Hle Hfit. destruct find_common_slot_returns as (r & Hscan & Hr).
  rewrite H in Hr. subst r.
  destruct (grid_offset t Hg Hle) as (j & Hj & ->).
  eapply scan_slot_none; eauto. apply minutes_pos, step_pos.
Qed.

(** When the window starts on a whole second, the first scanned start is
    the first grid point of the window, and the function is a first-fit
    search of the grid points of the window. *)
Theorem find_common_slot_first_fit :
  (MICROSECOND | tw_start w) ->
  match find_common_slot blocks user_ids w duration_minutes step_minutes with
  | Some (s, e) =>
      e = s + minutes duration_minutes
      /\ inside w s e
      /\ on_grid step_minutes s
      /\ feasible blocks user_ids s e
      /\ forall t, on_grid step_minutes t -> tw_start w <= t < s ->
           ~ feasible blocks user_ids t (t + minutes duration_minutes)
  | None =>
      forall t, on_grid step_minutes t ->
        inside w t (t + minutes duration_minutes) ->
        ~ feasible blocks user_ids t (t + minutes duration_minutes)
  end.
Proof.
  intros Hsec.
  pose proof (ceil_to_minutes_whole_second _ _ step_pos Hsec) as Hceil.
  pose proof (ceil_to_minutes_bounds (tw_start w) step_minutes step_pos) as [_ Hhi].
  fold cursor in Hceil, Hhi.
  assert (Hfirst : forall t, on_grid step_minutes t -> tw_start w <= t -> cursor <= t).
  { intros t [a Ha] Ht.
    destruct (ceil_to_minutes_on_grid (tw_start w) step_minutes step_pos) as [c Hc].
    fold cursor in Hc. pose proof (minutes_pos _ step_pos) as Hp.
    rewrite Ha, Hc in *.
    assert (c < a + 1) by (apply (Z.mul_lt_mono_pos_r (minutes step_minutes)); lia).
    apply Z.mul_le_mono_nonneg_r; lia. }
  destruct (find_common_slot blocks user_ids w duration_minutes step_minutes)
    as [[s e]|] eqn:H.
  - destruct (find_common_slot_some s e H) as (He & Hend & Hlo & Hg & Hfeas & Hmin).
    repeat split; auto.
    + simpl. lia.
    + intros t Hgt [Hle Hlt]. apply Hmin; auto.
  - intros t Hg [Hle Hfit]. apply (find_common_slot_none H); auto.
Qed.

End FindCommonSlot.

(** C1. [find_common_slot] on a window that starts half a second after a
    grid point, for one participant with an empty calendar: the returned
    interval starts at the grid point, before the window, so it is not
    inside the window. [ceil_to_minutes] rounds a start that is less than a
    second past a grid point down. *)
Theorem find_common_slot_starts_before_window :
  find_common_slot [] [1] half_second_window 60 15
  = Some (new_year_2026, new_year_2026 + minutes 60)
  /\ new_year_2026 < tw_start half_second_window
  /\ ~ inside half_second_window new_year_2026 (new_year_2026 + minutes 60).
Proof.
  split; [vm_compute; reflexivity |].
  split; [vm_compute; reflexivity |].
  unfold inside. vm_compute. intros [H _]. apply H. reflexivity.
Qed.

(* ===================================================================== *)
(** ** The mock summarizer *)

Section MockSummary.

Lemma collect_comments_spec (items : list FeedbackItem) (ss rs : list string) :
  collect_comments items ss rs
  = (ss ++ kept_comments is_pass items, rs ++ kept_comments (fun d => negb (is_pass d)) items).
Proof.
  revert ss rs. induction items as [|it rest IH]; intros ss rs.
  - simpl. now rewrite !app_nil_r.
  - unfold kept_comments in *. simpl.
    destruct (is_empty (strip (item_comment it))) eqn:Hc;
      destruct (item_decision it); simpl; rewrite ?Hc; simpl;
      rewrite IH, <- ?app_assoc; reflexivity.
Qed.

Lemma counts_zero_iff_nil (items : list FeedbackItem) :
  (count_decision FeedbackDecision.pass_ items =? 0)
  && (count_decision FeedbackDecision.fail items =? 0)
  && (count_decision FeedbackDecision.need_more_info items =? 0)
  = is_nil items.
Proof.
  destruct items as [|it rest]; [reflexivity |].
  unfold count_decision. simpl.
  destruct (item_decision it); simpl;
    repeat match goal with
           | |- context [Z.of_nat (S ?n) =? 0] =>
             replace (Z.of_nat (S n) =? 0) with false by (symmetry; apply Z.eqb_neq; lia)
           end;
    rewrite ?andb_false_r; reflexivity.
Qed.

End MockSummary.

(** C9, as amended. The recommendation of [_mock_summary] follows the
    table of decision counts; [strengths] is the first five of the stripped
    comments of pass decisions that are not empty after stripping, in the
    order of the items, and [risks] the first five of those of the fail and
    need_more_info decisions. *)
Theorem mock_summary_spec (items : list FeedbackItem) :
  sr_recommendation (_mock_summary items) = recommendation_by_counts items
  /\ strengths (_mock_summary items) = firstn 5 (kept_comments is_pass items)
  /\ risks (_mock_summary items)
     = firstn 5 (kept_comments (fun d => negb (is_pass d)) items).
Proof.
  unfold _mock_summary. rewrite collect_comments_spec. simpl.
  split; [| split; reflexivity].
  unfold recommendation_by_counts. rewrite counts_zero_iff_nil.
  destruct items as [|it rest]; [reflexivity |].
  cbn [is_nil].
  set (f := count_decision FeedbackDecision.fail (it :: rest)).
  set (p := count_decision FeedbackDecision.pass_ (it :: rest)).
  rewrite !Z.geb_leb.
  destruct (2 <=? f); [reflexivity |].
  destruct ((2 <=? p) && (f =? 0)); [reflexivity |].
  destruct ((f =? 0) && _); reflexivity.
Qed.

(** C9 as stated fails: of six pass decisions with a comment each, the
    sixth comment is not among the strengths. *)
Lemma mock_summary_drops_sixth_strength :
  In {| interviewer_name := "Interviewer";
        item_decision := FeedbackDecision.pass_;
        item_comment := "f" |} six_passes
  /\ ~ In "f"%string (strengths (_mock_summary six_passes)).
Proof.
  split.
  - unfold six_passes. simpl. tauto.
  - vm_compute. intros H.
    repeat (destruct H as [H | H]; [discriminate H |]). exact H.
Qed.

(* ===================================================================== *)
(** ** Reasoning about session computations *)

Local Open Scope session_scope.

Section Combinators.

Context {A B : Type}.
Variable P : exn -> Prop.

Lemma raises_only_bind (m : M A) (k : A -> M B) :
  raises_only P m -> (forall a, raises_only P (k a)) -> raises_only P (bind m k).
Proof.
  intros Hm Hk w w' e. unfold bind.
  destruct (m w) as [w1 [a | e1]] eqn:Hrun.
  - apply Hk.
  - intros [= <- <-]. eapply Hm; eauto.
Qed.

Lemma raises_only_ret (a : A) : raises_only P (ret a).
Proof. intros w w' e [=]. Qed.

Lemma raises_only_gets (f : Store -> A) : raises_only P (gets f).
Proof. intros w w' e [=]. Qed.

Lemma raises_only_raise (e : exn) : P e -> raises_only P (@raise A e).
Proof. intros H w w' e' [= <- <-]. exact H. Qed.

Lemma raises_only_for_each (l : list A) (f : A -> M unit) :
  (forall x, raises_only P (f x)) -> raises_only P (for_each l f).
Proof.
  intros H. induction l as [|x l IH]; simpl.
  - intros w w' e [=].
  - intros w w' e. unfold bind.
    destruct (f x w) as [w1 [[] | e1]] eqn:Hrun.
    + apply IH.
    + intros [= <- <-]. eapply H; eauto.
Qed.

Lemma raises_only_transactional (m : M A) :
  raises_only P m -> raises_only P (transactional m).
Proof.
  intros H w w' e. unfold transactional.
  destruct (m w) as [w1 [a | e1]] eqn:Hrun; [discriminate |].
  pose proof (H _ _ _ Hrun). destruct e1; intros [= <- <-]; assumption.
Qed.

Lemma raises_only_discard (m : M A) :
  raises_only P m -> raises_only P (discard_uncommitted m).
Proof.
  intros H w w' e. unfold discard_uncommitted.
  destruct (m w) as [w1 [a | e1]] eqn:Hrun; [discriminate |].
  pose proof (H _ _ _ Hrun). intros [= <- <-]; assumption.
Qed.

Lemma raises_only_scalar (rows : list A) :
  P MultipleResultsFound -> raises_only P (scalar_one_or_none rows).
Proof.
  intros H w w' e. unfold scalar_one_or_none.
  destruct rows as [|x [|y rows]]; intros [=]; subst; assumption.
Qed.

End Combinators.

Lemma raises_only_modify P (f : Store -> Store) : raises_only P (modify f).
Proof. intros w w' e [=]. Qed.

Lemma store_error_not_domain (msg : string) : ~ store_error (ValueError msg).
Proof. intros [H | H]; discriminate. Qed.

Section Inserts.

Lemma raises_only_add_interview P f : raises_only P (add_interview f).
Proof. intros w w' e [=]. Qed.

Lemma raises_only_add_request P f : raises_only P (add_request f).
Proof. intros w w' e [=]. Qed.

Lemma raises_only_add_participant p : raises_only store_error (add_participant p).
Proof.
  intros w w' e. unfold add_participant.
  destruct existsb; intros [=]; subst. now left.
Qed.

Lemma raises_only_add_ats a : raises_only store_error (add_ats a).
Proof.
  intros w w' e. unfold add_ats.
  destruct existsb; intros [=]; subst. now left.
Qed.

Lemma raises_only_add_feedback f : raises_only store_error (add_feedback f).
Proof.
  intros w w' e. unfold add_feedback.
  destruct existsb; intros [=]; subst. now left.
Qed.

Lemma raises_only_add_option r s e : raises_only store_error (add_option r s e).
Proof.
  intros w w' x. unfold add_option.
  destruct existsb; intros [=]; subst. now left.
Qed.

Lemma raises_only_add_options r slots : raises_only store_error (add_options r slots).
Proof.
  induction slots as [|[s e] rest IH]; simpl.
  - apply raises_only_ret.
  - apply raises_only_bind; [apply raises_only_add_option | intros opt].
    apply raises_only_bind; [exact IH | intros opts]. apply raises_only_ret.
Qed.

End Inserts.

(** Discharges [raises_only store_error m] for the straight-line tails of
    the service functions. *)
Ltac store_errors_only :=
  unfold notify_scheduled, update_interview, update_request, update_ats,
         update_feedback, do_block_time, emit;
  repeat first
    [ apply raises_only_ret | apply raises_only_gets | apply raises_only_modify
    | apply raises_only_add_participant | apply raises_only_add_ats
    | apply raises_only_add_feedback | apply raises_only_add_options
    | apply raises_only_add_interview | apply raises_only_add_request
    | apply raises_only_scalar; [now right]
    | apply raises_only_for_each; intros ?
    | apply raises_only_bind; [| intros ?]
    | match goal with
      | |- raises_only _ (match ?x with _ => _ end) => destruct x
      end ].

(** Peels [transactional] off a run that ended in a [ValueError]. *)
Lemma transactional_domain_error {A} (m : M A) w w' msg :
  transactional m w = (w', Raise (ValueError msg)) ->
  m w = (w', Raise (ValueError msg)).
Proof.
  unfold transactional. destruct (m w) as [w1 [a | e]]; [auto |].
  destruct e; auto; discriminate.
Qed.

Section DomainErrors.

Lemma start_interview_domain_error rn re c j ids tw d now hex w w' msg :
  start_interview rn re c j ids tw d now hex w = (w', Raise (ValueError msg)) ->
  w' = w.
Proof.
  intros H. apply transactional_domain_error in H. revert H.
  unfold bind at 1, get_candidate, gets at 1.
  destruct (find _ (candidates w)) as [cand|]; [| now intros [= ->]].
  destruct (is_nil ids); [now intros [= ->] |].
  unfold bind at 1, gets at 1.
  destruct (negb _); [now intros [= ->] |].
  unfold bind at 1, gets at 1.
  destruct (find_common_slot _ _ _ _ _) as [[s e]|]; [| now intros [= ->]].
  intros Hrun. exfalso. apply (store_error_not_domain msg).
  revert Hrun.
  match goal with
  | |- ?m w = _ -> _ => assert (raises_only store_error m) as Hr by store_errors_only
  end.
  apply Hr.
Qed.

Lemma propose_schedule_domain_error rn re c j ids tw d lim now w w' msg :
  propose_schedule rn re c j ids tw d lim now w = (w', Raise (ValueError msg)) ->
  w' = w.
Proof.
  intros H. apply transactional_domain_error in H. revert H.
  unfold bind at 1, get_candidate, gets at 1.
  destruct (find _ (candidates w)) as [cand|]; [| now intros [= ->]].
  destruct (is_nil ids); [now intros [= ->] |].
  unfold bind at 1, gets at 1.
  destruct (negb _); [now intros [= ->] |].
  unfold bind at 1, gets at 1.
  destruct (is_nil (find_common_slots _ _ _ _ _ _)); [now intros [= ->] |].
  intros Hrun. exfalso. apply (store_error_not_domain msg).
  revert Hrun.
  match goal with
  | |- ?m w = _ -> _ => assert (raises_only store_error m) as Hr by store_errors_only
  end.
  apply Hr.
Qed.

Lemma approve_domain_error rid oid ids now hex w w' msg :
  approve_schedule_and_create_interview rid oid ids now hex w
    = (w', Raise (ValueError msg)) ->
  w' = w.
Proof.
  intros H. apply transactional_domain_error in H. revert H.
  unfold bind at 1, get_request, gets at 1.
  destruct (find _ (scheduling_requests w)) as [req|]; [| now intros [= ->]].
  destruct (negb _); [now intros [= ->] |].
  unfold bind at 1, get_option, gets at 1.
  destruct (find _ (scheduling_options w)) as [opt|]; [| now intros [= ->]].
  destruct (negb _); [now intros [= ->] |].
  unfold bind at 1, get_candidate, gets at 1.
  destruct (find _ (candidates w)) as [cand|]; [| now intros [= ->]].
  unfold bind at 1, gets at 1.
  destruct (negb _); [now intros [= ->] |].
  intros Hrun. exfalso. apply (store_error_not_domain msg).
  revert Hrun.
  match goal with
  | |- ?m w = _ -> _ => assert (raises_only store_error m) as Hr by store_errors_only
  end.
  apply Hr.
Qed.

Lemma submit_feedback_domain_error env tok dec com now w w' msg :
  submit_feedback env tok dec com now w = (w', Raise (ValueError msg)) ->
  w' = w.
Proof.
  intros H. apply transactional_domain_error in H. revert H.
  destruct (parse_token env tok) as [[iid uid]|]; [| now intros [= ->]].
  unfold bind at 1, get_interview, gets at 1.
  destruct (find _ (interviews w)) as [iv|]; [| now intros [= ->]].
  destruct (dec_map dec) as [d|]; [| now intros [= ->]].
  intros Hrun. exfalso. apply (store_error_not_domain msg).
  revert Hrun.
  match goal with
  | |- ?m w = _ -> _ => assert (raises_only store_error m) as Hr by store_errors_only
  end.
  apply Hr.
Qed.

End DomainErrors.

(** C8. A run of [start_interview], [propose_schedule],
    [approve_schedule_and_create_interview] or [submit_feedback] that ends
    in a domain error ([ValueError]) leaves the store as it found it: no
    row of any table is created or modified, and nothing is sent. *)
Theorem domain_errors_leave_store_unchanged (env : Env) :
  (forall rn re c j ids tw d now hex w w' msg,
      start_interview rn re c j ids tw d now hex w = (w', Raise (ValueError msg)) ->
      w' = w)
  /\ (forall rn re c j ids tw d lim now w w' msg,
      propose_schedule rn re c j ids tw d lim now w = (w', Raise (ValueError msg)) ->
      w' = w)
  /\ (forall rid oid ids now hex w w' msg,
      approve_schedule_and_create_interview rid oid ids now hex w
        = (w', Raise (ValueError msg)) ->
      w' = w)
  /\ (forall tok dec com now w w' msg,
      submit_feedback env tok dec com now w = (w', Raise (ValueError msg)) ->
      w' = w).
Proof.
  repeat split; intros.
  - eapply start_interview_domain_error; eauto.
  - eapply propose_schedule_domain_error; eauto.
  - eapply approve_domain_error; eauto.
  - eapply submit_feedback_domain_error; eauto.
Qed.

(* ===================================================================== *)
(** ** Validation of the interviewer list *)

Section Interviewers.

Variable w : Store.
Hypothesis users_pk : NoDup (map User.id (users w)).

Lemma mem_In (x : Z) (l : list Z) : mem x l = true <-> In x l.
Proof.
  unfold mem. rewrite existsb_exists. split.
  - intros (y & Hin & Heq). apply Z.eqb_eq in Heq. now subst.
  - intros Hin. exists x. split; [assumption | apply Z.eqb_refl].
Qed.

Lemma users_in_ids (ids : list Z) (id : Z) :
  In id (map User.id (users_in ids w)) <-> In id (map User.id (users w)) /\ In id ids.
Proof.
  unfold users_in. rewrite !in_map_iff. split.
  - intros (u & <- & Hin). apply filter_In in Hin. destruct Hin as [Hin Hm].
    split; [eauto | now apply mem_In].
  - intros [(u & <- & Hin) Hids]. exists u. split; [reflexivity |].
    apply filter_In. split; [assumption | now apply mem_In].
Qed.

Lemma NoDup_map_filter {X} (f : X -> Z) (p : X -> bool) (l : list X) :
  NoDup (map f l) -> NoDup (map f (filter p l)).
Proof.
  induction l as [|x l IH]; simpl; intros Hnd; [constructor |].
  inversion Hnd as [|? ? Hnotin Hrest]; subst.
  destruct (p x); simpl; auto.
  constructor; auto.
  intros Hin. apply Hnotin.
  apply in_map_iff in Hin. destruct Hin as (y & Hy & Hin).
  apply filter_In in Hin. apply in_map_iff. exists y. tauto.
Qed.

(** The test [len(users) != len(set(ids))] passes exactly when every listed
    id is the id of a user; a repeated id does not make it fail. *)
Lemma users_resolve_iff (ids : list Z) :
  List.length (users_in ids w) = len_set ids
  <-> forall id, In id ids -> In id (map User.id (users w)).
Proof.
  unfold len_set.
  assert (Hnd : NoDup (map User.id (users_in ids w)))
    by (apply NoDup_map_filter, users_pk).
  assert (Hincl : incl (map User.id (users_in ids w)) (nodup Z.eq_dec ids)).
  { intros id Hin. apply nodup_In. now apply users_in_ids in Hin. }
  rewrite <- (length_map User.id). split.
  - intros Hlen id Hin.
    assert (Hback : incl (nodup Z.eq_dec ids) (map User.id (users_in ids w))).
    { apply NoDup_length_incl; [assumption | lia | assumption]. }
    apply (nodup_In Z.eq_dec) in Hin. apply Hback in Hin.
    now apply users_in_ids in Hin.
  - intros Hall. apply Nat.le_antisymm.
    + apply NoDup_incl_length; assumption.
    + apply NoDup_incl_length; [apply NoDup_nodup |].
      intros id Hin. apply nodup_In in Hin. apply users_in_ids. auto.
Qed.

End Interviewers.

Section StartValidation.

Variables (rn re : string) (c : Z) (j : string) (ids : list Z) (tw : TimeWindow).
Variables (d : Z) (now : datetime) (hex : string) (w : Store).
Hypothesis users_pk : NoDup (map User.id (users w)).

Local Abbreviation run := (start_interview rn re c j ids tw d now hex w).
Local Abbreviation cand := (find (fun x => Candidate.id x =? c) (candidates w)).

Lemma start_interview_no_candidate :
  cand = None -> run = (w, Raise (ValueError "candidate not found")).
Proof.
  intros Hc. unfold start_interview, transactional.
  unfold bind at 1, get_candidate, gets at 1. now rewrite Hc.
Qed.

Lemma start_interview_no_interviewers :
  cand <> None -> ids = [] ->
  run = (w, Raise (ValueError "no interviewers specified")).
Proof.
  intros Hc ->. unfold start_interview, transactional.
  unfold bind at 1, get_candidate, gets at 1.
  destruct cand; [reflexivity | congruence].
Qed.

Lemma start_interview_unknown_interviewer :
  cand <> None -> ids <> [] ->
  (exists id, In id ids /\ ~ In id (map User.id (users w))) ->
  run = (w, Raise (ValueError "some interviewers not found")).
Proof.
  intros Hc Hids (id & Hin & Hnot). unfold start_interview, transactional.
  unfold bind at 1, get_candidate, gets at 1.
  destruct cand; [| congruence].
  destruct ids as [|id0 ids']; [congruence |]. cbn [is_nil].
  unfold bind at 1, gets at 1.
  destruct (Nat.eqb_spec (List.length (users_in (id0 :: ids') w))
                         (len_set (id0 :: ids'))) as [Hlen | Hlen]; [| reflexivity].
  exfalso. apply Hnot. now apply (users_resolve_iff w users_pk (id0 :: ids')).
Qed.

Lemma start_interview_reaches_search :
  cand <> None -> ids <> [] ->
  (forall id, In id ids -> In id (map User.id (users w))) ->
  match find_common_slot (calendar_blocks w) ids tw d 15 with
  | None => run = (w, Raise (ValueError "no common slot found in preferred window"))
  | Some _ => forall msg, snd run <> Raise (ValueError msg)
  end.
Proof.
  intros Hc Hids Hall.
  apply (users_resolve_iff w users_pk ids) in Hall.
  destruct (find_common_slot _ _ _ _ _) as [[s e]|] eqn:Hslot.
  - intros msg Hrun.
    destruct run as [w' r] eqn:Hr. simpl in Hrun. subst r.
    pose proof (start_interview_domain_error _ _ _ _ _ _ _ _ _ _ _ _ Hr) as ->.
    apply transactional_domain_error in Hr. revert Hr.
    unfold bind at 1, get_candidate, gets at 1.
    destruct cand; [| congruence].
    destruct ids as [|id0 ids']; [congruence |]. cbn [is_nil].
    unfold bind at 1, gets at 1.
    rewrite Hall, Nat.eqb_refl. cbn [negb].
    unfold bind at 1, gets at 1. rewrite Hslot.
    match goal with
    | |- ?m w = _ -> _ => assert (raises_only store_error m) as Hr by store_errors_only
    end.
    intros Hrun. apply Hr in Hrun. now apply store_error_not_domain in Hrun.
  - unfold start_interview, transactional.
    unfold bind at 1, get_candidate, gets at 1.
    destruct cand; [| congruence].
    destruct ids as [|id0 ids']; [congruence |]. cbn [is_nil].
    unfold bind at 1, gets at 1.
    rewrite Hall, Nat.eqb_refl. cbn [negb].
    unfold bind at 1, gets at 1. now rewrite Hslot.
Qed.

End StartValidation.

(** C6, as amended. In a store whose users have distinct ids,
    [start_interview] raises a domain error and leaves the store unchanged
    when the candidate does not exist, when the interviewer list is empty and
    when some interviewer id is the id of no user; every other input, with or
    without repeated ids, reaches the slot search: the call raises the
    domain error of the search when it finds no slot, and no domain error at
    all when it finds one. *)
Theorem start_interview_validation rn re c j ids tw d now hex (w : Store) :
  NoDup (map User.id (users w)) ->
  let run := start_interview rn re c j ids tw d now hex w in
  let cand := find (fun x => Candidate.id x =? c) (candidates w) in
  (cand = None -> run = (w, Raise (ValueError "candidate not found")))
  /\ (cand <> None -> ids = [] ->
      run = (w, Raise (ValueError "no interviewers specified")))
  /\ (cand <> None -> ids <> [] ->
      (exists id, In id ids /\ ~ In id (map User.id (users w))) ->
      run = (w, Raise (ValueError "some interviewers not found")))
  /\ (cand <> None -> ids <> [] ->
      (forall id, In id ids -> In id (map User.id (users w))) ->
      match find_common_slot (calendar_blocks w) ids tw d 15 with
      | None => run = (w, Raise (ValueError "no common slot found in preferred window"))
      | Some _ => forall msg, snd run <> Raise (ValueError msg)
      end).
Proof.
  intros Hpk run cand. subst run cand. repeat split.
  - apply start_interview_no_candidate.
  - apply start_interview_no_interviewers.
  - now apply start_interview_unknown_interviewer.
  - now apply start_interview_reaches_search.
Qed.

(** C6 as stated fails: with interviewer 1 listed twice, the validation
    passes, a slot is found, and the call ends in the store's
    [IntegrityError], not in a domain error. *)
Lemma start_interview_accepts_duplicates :
  ~ NoDup [1; 1]
  /\ snd (demo_start [1; 1] seed_store) = Raise IntegrityError
  /\ forall msg, snd (demo_start [1; 1] seed_store) <> Raise (ValueError msg).
Proof.
  split; [| split].
  - intros H. inversion H as [|? ? Hnotin _]. apply Hnotin. now left.
  - vm_compute. reflexivity.
  - intros msg. vm_compute. discriminate.
Qed.

(* ===================================================================== *)
(** ** Successful runs, step by step *)

(** Projections of a store built by the setters. *)
Ltac store_simpl :=
  cbn [users candidates interviews interview_participants feedback ats_records
       calendar_blocks scheduling_requests scheduling_options outbox
       with_interviews with_interview_participants with_feedback with_ats_records
       with_calendar_blocks with_scheduling_requests with_scheduling_options
       with_outbox booked] in *.

Lemma store_ext (a b : Store) :
  users a = users b -> candidates a = candidates b -> interviews a = interviews b ->
  interview_participants a = interview_participants b -> feedback a = feedback b ->
  ats_records a = ats_records b -> calendar_blocks a = calendar_blocks b ->
  scheduling_requests a = scheduling_requests b ->
  scheduling_options a = scheduling_options b -> outbox a = outbox b ->
  a = b.
Proof. destruct a, b. simpl. intros. subst. reflexivity. Qed.

Section Runs.

Lemma bind_ok {A B} (m : M A) (k : A -> M B) w w' b :
  bind m k w = (w', Ok b) ->
  exists w1 a, m w = (w1, Ok a) /\ k a w1 = (w', Ok b).
Proof.
  unfold bind. destruct (m w) as [w1 [a | e]]; [eauto | discriminate].
Qed.

Lemma transactional_ok {A} (m : M A) w w' a :
  transactional m w = (w', Ok a) -> m w = (w', Ok a).
Proof.
  unfold transactional. destruct (m w) as [w1 [x | e]]; [auto |].
  destruct e; discriminate.
Qed.

Lemma next_id_fresh (ids : list Z) (x : Z) : In x ids -> x < next_id ids.
Proof.
  unfold next_id. induction ids as [|y ids IH]; cbn [fold_right In]; [tauto |].
  intros [-> | Hin]; [lia | specialize (IH Hin); lia].
Qed.

Lemma next_id_pos (ids : list Z) : 0 < next_id ids.
Proof.
  unfold next_id. induction ids as [|y ids IH]; cbn [fold_right]; lia.
Qed.

(** An update by a key that no row has changes nothing. *)
Lemma map_update_absent {X} (key : X -> Z) (k : Z) (f : X -> X) (l : list X) :
  ~ In k (map key l) ->
  map (fun x => if key x =? k then f x else x) l = l.
Proof.
  induction l as [|x l IH]; simpl; intros Hnot; [reflexivity |].
  destruct (Z.eqb_spec (key x) k) as [Heq | Hne]; [tauto |].
  rewrite IH; tauto.
Qed.

(** A search by key after an update that keeps the keys. *)
Lemma find_update {X} (key : X -> Z) (k k' : Z) (f : X -> X) (l : list X) :
  (forall x, key (f x) = key x) ->
  find (fun x => key x =? k') (map (fun x => if key x =? k then f x else x) l)
  = option_map (fun x => if key x =? k then f x else x)
      (find (fun x => key x =? k') l).
Proof.
  intros Hkey. induction l as [|x l IH]; simpl; [reflexivity |].
  assert (Hsame : key (if key x =? k then f x else x) = key x)
    by (destruct (key x =? k); auto).
  rewrite Hsame. destruct (key x =? k'); [reflexivity | exact IH].
Qed.

Lemma update_new_interview (l : list Interview.t) (row : Interview.t)
    (f : Interview.t -> Interview.t) :
  Interview.id row = next_id (map Interview.id l) ->
  map (fun i => if Interview.id i =? Interview.id row then f i else i) (l ++ [row])
  = l ++ [f row].
Proof.
  intros Hid. rewrite map_app. simpl. rewrite Z.eqb_refl.
  rewrite map_update_absent; [reflexivity |].
  intros Hin. apply next_id_fresh in Hin. lia.
Qed.

(** The participants of a booking, inserted one by one. *)
Lemma add_participants_ok (iid : Z) (ids : list Z) w w' :
  for_each ids (fun uid => add_participant (InterviewParticipant.mk iid uid)) w
    = (w', Ok tt) ->
  w' = with_interview_participants
         (interview_participants w ++ map (InterviewParticipant.mk iid) ids) w
  /\ NoDup ids
  /\ forall p, In p (interview_participants w) ->
       InterviewParticipant.interview_id p = iid ->
       ~ In (InterviewParticipant.user_id p) ids.
Proof.
  revert w. induction ids as [|uid ids IH]; intros w; simpl.
  - intros [= <-]. rewrite app_nil_r. destruct w; repeat split; auto. constructor.
  - intros H. apply bind_ok in H. destruct H as (w1 & [] & Hadd & Hrest).
    unfold add_participant in Hadd.
    destruct (existsb _ (interview_participants w)) eqn:Hex; [discriminate |].
    injection Hadd as <-.
    apply IH in Hrest. destruct Hrest as (-> & Hnd & Hfresh). simpl in *.
    split; [| split].
    + rewrite <- app_assoc. destruct w; reflexivity.
    + constructor; [| assumption].
      intros Hin. apply (Hfresh (InterviewParticipant.mk iid uid)); auto.
      apply in_or_app. right. now left.
    + intros p Hp Hiid [Heq | Hin].
      * assert (Hc : existsb
                       (fun q => (InterviewParticipant.interview_id q =? iid)
                                 && (InterviewParticipant.user_id q =? uid))
                       (interview_participants w) = true).
        { apply existsb_exists. exists p. split; [assumption |].
          rewrite Hiid, Heq, !Z.eqb_refl. reflexivity. }
        simpl in Hex. congruence.
      * apply (Hfresh p); auto. apply in_or_app. now left.
Qed.

Lemma block_times_run {X} (l : list X) (uid : X -> Z) (s e : datetime) (t : string) w :
  for_each l (fun u => do_block_time (uid u) s e t) w
  = (with_calendar_blocks
       (calendar_blocks w ++ map (fun u => CalendarBlock.mk (uid u) s e t) l) w,
     Ok tt).
Proof.
  revert w. induction l as [|u l IH]; intros w; simpl.
  - unfold ret. rewrite app_nil_r. destruct w; reflexivity.
  - unfold bind, do_block_time, modify. rewrite IH. simpl.
    unfold block_time, ensure_aware. rewrite <- app_assoc.
    destruct w; reflexivity.
Qed.

Lemma emails_run {X} (l : list X) (iid : Z) (c : X -> Call) w :
  for_each l (fun u => emit iid (c u)) w
  = (with_outbox (outbox w ++ map (fun u => {| about := iid; call := c u |}) l) w,
     Ok tt).
Proof.
  revert w. induction l as [|u l IH]; intros w; simpl.
  - unfold ret. rewrite app_nil_r. destruct w; reflexivity.
  - unfold bind, emit, modify. rewrite IH. simpl.
    rewrite <- app_assoc. destruct w; reflexivity.
Qed.

Lemma notify_scheduled_run iid cand us w :
  notify_scheduled iid cand us w
  = (with_outbox (outbox w ++ scheduled_notices iid cand us) w, Ok tt).
Proof.
  unfold notify_scheduled, scheduled_notices.
  unfold bind at 1. unfold emit at 1, modify.
  unfold bind at 1. rewrite emails_run.
  unfold emit, modify. simpl. rewrite <- !app_assoc. simpl.
  destruct w; reflexivity.
Qed.

End Runs.

Section Bookings.

(** The common tail of the two booking functions, from the insertion of the
    interview to the calendar blocks. *)
Lemma booking_steps (mk_row : Z -> Interview.t) (hex : string) (ids : list Z)
    (us : list User.t) (title : string) (now : datetime) w w1 w2 w3 w4 iv :
  add_interview mk_row w = (w1, Ok iv) ->
  Interview.id (mk_row (next_id (map Interview.id (interviews w))))
    = next_id (map Interview.id (interviews w)) ->
  update_interview (Interview.id iv)
    (Interview.set_video_link (_video_link (Interview.id iv) hex)) w1 = (w2, Ok tt) ->
  for_each ids (fun uid => add_participant (InterviewParticipant.mk (Interview.id iv) uid)) w2
    = (w3, Ok tt) ->
  add_ats (ATSRecord.mk (Interview.id iv) ATSStatus.interview_scheduled None None now) w3
    = (w4, Ok tt) ->
  let iv' := Interview.set_video_link (_video_link (Interview.id iv) hex) iv in
  iv = mk_row (next_id (map Interview.id (interviews w)))
  /\ NoDup ids
  /\ interviews w4 = interviews w ++ [iv']
  /\ interview_participants w4
     = interview_participants w ++ map (InterviewParticipant.mk (Interview.id iv)) ids
  /\ ats_records w4
     = ats_records w
       ++ [ATSRecord.mk (Interview.id iv) ATSStatus.interview_scheduled None None now]
  /\ users w4 = users w /\ candidates w4 = candidates w /\ feedback w4 = feedback w
  /\ calendar_blocks w4 = calendar_blocks w
  /\ scheduling_requests w4 = scheduling_requests w
  /\ scheduling_options w4 = scheduling_options w
  /\ outbox w4 = outbox w.
Proof.
  intros Hadd Hid Hupd Hpart Hats iv'.
  unfold add_interview in Hadd. injection Hadd as <- <-.
  unfold update_interview, modify in Hupd. injection Hupd as <-.
  apply add_participants_ok in Hpart. destruct Hpart as (-> & Hnd & _).
  unfold add_ats in Hats.
  match type of Hats with
  | (if ?b then _ else _) = _ => destruct b; [discriminate |]
  end.
  injection Hats as <-. store_simpl.
  rewrite Hid in *.
  pose proof (update_new_interview (interviews w)
                (mk_row (next_id (map Interview.id (interviews w))))
                (Interview.set_video_link
                   (_video_link (next_id (map Interview.id (interviews w))) hex)) Hid)
    as Hmap.
  rewrite Hid in Hmap. rewrite Hmap.
  subst iv'. rewrite Hid. repeat split; auto.
Qed.

Lemma start_interview_ok rn re c j ids tw d now hex w w' iv :
  start_interview rn re c j ids tw d now hex w = (w', Ok iv) ->
  exists cand s e,
    find (fun x => Candidate.id x =? c) (candidates w) = Some cand
    /\ ids <> [] /\ NoDup ids
    /\ List.length (users_in ids w) = len_set ids
    /\ find_common_slot (calendar_blocks w) ids tw d 15 = Some (s, e)
    /\ iv = Interview.mk (next_id (map Interview.id (interviews w))) c j rn re now s e
              (_video_link (next_id (map Interview.id (interviews w))) hex)
              InterviewStatus.scheduled None None None
    /\ w' = booked w iv ids (users_in ids w) cand (block_title cand j) now.
Proof.
  intros H. apply transactional_ok in H. revert H.
  unfold bind at 1, get_candidate, gets at 1.
  destruct (find _ (candidates w)) as [cand|]; [| discriminate].
  destruct ids as [|id0 ids'] eqn:Hids; [discriminate |]. rewrite <- Hids. cbn [is_nil].
  assert (Hne : ids <> []) by congruence.
  replace (is_nil ids) with false by (rewrite Hids; reflexivity).
  unfold bind at 1, gets at 1.
  destruct (Nat.eqb_spec (List.length (users_in ids w)) (len_set ids)) as [Hlen | Hlen];
    [| discriminate]. cbn [negb].
  unfold bind at 1, gets at 1.
  destruct (find_common_slot _ _ _ _ _) as [[s e]|] eqn:Hslot; [| discriminate].
  intros H.
  apply bind_ok in H. destruct H as (w1 & iv0 & Hadd & H).
  apply bind_ok in H. destruct H as (w2 & [] & Hupd & H).
  apply bind_ok in H. destruct H as (w3 & [] & Hpart & H).
  apply bind_ok in H. destruct H as (w4 & [] & Hats & H).
  apply bind_ok in H. destruct H as (w5 & [] & Hblk & H).
  apply bind_ok in H. destruct H as (w6 & [] & Hnote & H).
  injection H as <- <-.
  destruct (booking_steps _ _ _ (users_in ids w) (block_title cand j) _ _ _ _ _ _ _
              Hadd eq_refl Hupd Hpart Hats)
    as (-> & Hnd & Hi & Hp & Ha & Hu & Hc & Hf & Hb & Hr & Ho & Hout).
  rewrite block_times_run in Hblk. injection Hblk as <-.
  rewrite notify_scheduled_run in Hnote. injection Hnote as <-.
  exists cand, s, e. repeat split; auto.
  apply store_ext; store_simpl;
    cbn [Interview.id Interview.set_video_link Interview.scheduled_start
         Interview.scheduled_end] in *; congruence.
Qed.

End Bookings.

(** C5. After a successful [start_interview] with a positive duration, the
    booked interval is blocked: [find_common_slot] for the same participant
    list, window and duration, on the calendar that the booking left or on
    any calendar that still holds its blocks, does not return that interval. *)
Theorem booking_is_monotonic rn re c j ids tw d now hex w w' iv
    (step_minutes : Z) (later : list CalendarBlock.t) :
  0 < d -> 0 < step_minutes ->
  start_interview rn re c j ids tw d now hex w = (w', Ok iv) ->
  incl (calendar_blocks w') later ->
  find_common_slot later ids tw d step_minutes
  <> Some (Interview.scheduled_start iv, Interview.scheduled_end iv).
Proof.
  intros Hd Hstep Hrun Hincl Hfind.
  apply start_interview_ok in Hrun.
  destruct Hrun as (cand & s & e & _ & Hne & _ & Hlen & Hslot & -> & ->).
  cbn [Interview.scheduled_start Interview.scheduled_end] in *.
  (* the booked interval has the requested, positive length *)
  assert (Hse : e = s + minutes d).
  { apply (find_common_slot_some _ _ _ _ 15 eq_refl Hne) in Hslot. tauto. }
  pose proof (minutes_pos d Hd) as Hpos.
  (* some listed id is the id of a user, who got a block *)
  assert (Hu : exists u, In u (users_in ids w)).
  { destruct (users_in ids w) as [|u us] eqn:Hus; [| exists u; now left].
    exfalso. unfold len_set in Hlen. simpl in Hlen.
    destruct ids as [|id0 ids']; [congruence |].
    assert (Hin : In id0 (nodup Z.eq_dec (id0 :: ids'))) by (apply nodup_In; now left).
    destruct (nodup Z.eq_dec (id0 :: ids')); [contradiction | discriminate]. }
  destruct Hu as [u Hu].
  assert (Hid : In (User.id u) ids).
  { unfold users_in in Hu. apply filter_In in Hu. now apply mem_In. }
  apply (find_common_slot_some _ _ _ _ _ Hstep Hne) in Hfind.
  destruct Hfind as (_ & _ & _ & _ & Hfeas & _).
  apply (Hfeas (User.id u) Hid
           (CalendarBlock.mk (User.id u) s e (block_title cand j))).
  - apply Hincl. store_simpl. apply in_or_app. right.
    apply in_map_iff. exists u. split; [reflexivity | assumption].
  - unfold conflicts. simpl. lia.
Qed.

Section Approval.

Variables (rid oid : Z) (ids : list Z) (now : datetime) (hex : string) (w : Store).

Local Abbreviation run := (approve_schedule_and_create_interview rid oid ids now hex w).
Local Abbreviation req := (find (fun r => SchedulingRequest.id r =? rid) (scheduling_requests w)).
Local Abbreviation opt := (find (fun o => SchedulingOption.id o =? oid) (scheduling_options w)).

Lemma status_eqb_spec (a b : SchedulingRequestStatus.t) :
  SchedulingRequestStatus.eqb a b = true <-> a = b.
Proof. destruct a, b; simpl; split; congruence. Qed.

Lemma approve_no_request :
  req = None -> run = (w, Raise (ValueError "request not found")).
Proof.
  intros Hr. unfold approve_schedule_and_create_interview, transactional.
  unfold bind at 1, get_request, gets at 1. now rewrite Hr.
Qed.

Lemma approve_not_proposed (r : SchedulingRequest.t) :
  req = Some r -> SchedulingRequest.status r <> SchedulingRequestStatus.proposed ->
  run = (w, Raise (ValueError "request not in proposed state")).
Proof.
  intros Hr Hst. unfold approve_schedule_and_create_interview, transactional.
  unfold bind at 1, get_request, gets at 1. rewrite Hr.
  destruct (SchedulingRequestStatus.eqb _ _) eqn:He; [| reflexivity].
  apply status_eqb_spec in He. contradiction.
Qed.

Lemma approve_bad_option (r : SchedulingRequest.t) :
  req = Some r -> SchedulingRequest.status r = SchedulingRequestStatus.proposed ->
  (opt = None
   \/ exists o, opt = Some o /\ SchedulingOption.request_id o <> SchedulingRequest.id r) ->
  run = (w, Raise (ValueError "invalid option_id for request")).
Proof.
  intros Hr Hst Hopt. unfold approve_schedule_and_create_interview, transactional.
  unfold bind at 1, get_request, gets at 1. rewrite Hr, Hst. cbn [SchedulingRequestStatus.eqb negb].
  unfold bind at 1, get_option, gets at 1.
  destruct Hopt as [-> | (o & -> & Hne)]; [reflexivity |].
  destruct (Z.eqb_spec (SchedulingOption.request_id o) (SchedulingRequest.id r));
    [contradiction | reflexivity].
Qed.

(** A successful approval: what it found and the store it leaves. *)
Lemma approve_ok w' iv :
  run = (w', Ok iv) ->
  exists r o cand,
    req = Some r /\ SchedulingRequest.status r = SchedulingRequestStatus.proposed
    /\ opt = Some o /\ SchedulingOption.request_id o = SchedulingRequest.id r
    /\ find (fun x => Candidate.id x =? SchedulingRequest.candidate_id r) (candidates w)
       = Some cand
    /\ List.length (users_in ids w) = len_set ids /\ NoDup ids
    /\ iv = Interview.mk (next_id (map Interview.id (interviews w)))
              (SchedulingRequest.candidate_id r) (SchedulingRequest.job_title r)
              (SchedulingRequest.recruiter_name r) (SchedulingRequest.recruiter_email r)
              now (SchedulingOption.start o) (SchedulingOption.end_ o)
              (_video_link (next_id (map Interview.id (interviews w))) hex)
              InterviewStatus.scheduled None None None
    /\ w' = with_scheduling_requests
              (map (fun x => if SchedulingRequest.id x =? SchedulingRequest.id r
                             then SchedulingRequest.approve (SchedulingOption.id o)
                                    (Interview.id iv) x
                             else x) (scheduling_requests w))
              (booked w iv ids (users_in ids w) cand
                 (block_title cand (SchedulingRequest.job_title r)) now).
Proof.
  intros H. apply transactional_ok in H. revert H.
  unfold bind at 1, get_request, gets at 1.
  destruct (find _ (scheduling_requests w)) as [r|] eqn:Hr; [| discriminate].
  destruct (SchedulingRequestStatus.eqb _ _) eqn:Hst; [| discriminate]. cbn [negb].
  apply status_eqb_spec in Hst.
  unfold bind at 1, get_option, gets at 1.
  destruct (find _ (scheduling_options w)) as [o|] eqn:Ho; [| discriminate].
  destruct (Z.eqb_spec (SchedulingOption.request_id o) (SchedulingRequest.id r)) as [Hown|];
    [| discriminate]. cbn [negb].
  unfold bind at 1, get_candidate, gets at 1.
  destruct (find _ (candidates w)) as [cand|] eqn:Hc; [| discriminate].
  unfold bind at 1, gets at 1.
  destruct (Nat.eqb_spec (List.length (users_in ids w)) (len_set ids)) as [Hlen | Hlen];
    [| discriminate]. cbn [negb].
  intros H.
  apply bind_ok in H. destruct H as (w1 & iv0 & Hadd & H).
  apply bind_ok in H. destruct H as (w2 & [] & Hupd & H).
  apply bind_ok in H. destruct H as (w3 & [] & Hpart & H).
  apply bind_ok in H. destruct H as (w4 & [] & Hats & H).
  apply bind_ok in H. destruct H as (w5 & [] & Hblk & H).
  apply bind_ok in H. destruct H as (w6 & [] & Hreq & H).
  apply bind_ok in H. destruct H as (w7 & [] & Hnote & H).
  injection H as <- <-.
  destruct (booking_steps _ _ _ (users_in ids w)
              (block_title cand (SchedulingRequest.job_title r)) _ _ _ _ _ _ _
              Hadd eq_refl Hupd Hpart Hats)
    as (-> & Hnd & Hi & Hp & Ha & Hu & Hcs & Hf & Hb & Hrq & Hop & Hout).
  rewrite block_times_run in Hblk. injection Hblk as <-.
  unfold update_request, modify in Hreq. injection Hreq as <-.
  rewrite notify_scheduled_run in Hnote. injection Hnote as <-.
  exists r, o, cand. repeat split; auto.
  apply store_ext; store_simpl;
    cbn [Interview.id Interview.set_video_link Interview.scheduled_start
         Interview.scheduled_end] in *; congruence.
Qed.

(** After a successful approval the request is approved, so the next call
    for it is rejected, whatever the option and the interviewers. *)
Lemma approve_twice w' iv oid' ids' now' hex' :
  run = (w', Ok iv) ->
  approve_schedule_and_create_interview rid oid' ids' now' hex' w'
  = (w', Raise (ValueError "request not in proposed state")).
Proof.
  intros H. apply approve_ok in H.
  destruct H as (r & o & cand & Hr & Hst & _ & _ & _ & _ & _ & _ & ->).
  pose proof (find_some _ _ Hr) as [_ Hid]. apply Z.eqb_eq in Hid.
  unfold approve_schedule_and_create_interview, transactional.
  unfold bind at 1, get_request, gets at 1. store_simpl.
  rewrite find_update by reflexivity. rewrite Hr. simpl.
  now rewrite Z.eqb_refl.
Qed.

End Approval.

(** After a successful approval the request is in the store with status
    approved, the chosen option and the new interview. *)
Lemma approve_marks_request rid oid ids now hex (w w' : Store) (iv : Interview.t) :
  approve_schedule_and_create_interview rid oid ids now hex w = (w', Ok iv) ->
  exists r',
    find (fun r => SchedulingRequest.id r =? rid) (scheduling_requests w') = Some r'
    /\ SchedulingRequest.status r' = SchedulingRequestStatus.approved
    /\ SchedulingRequest.approved_option_id r' = Some oid
    /\ SchedulingRequest.interview_id r' = Some (Interview.id iv).
Proof.
  intros H. apply approve_ok in H.
  destruct H as (r & o & cand & Hr & _ & Ho & _ & _ & _ & _ & _ & ->).
  pose proof (find_some _ _ Hr) as [_ Hid]. apply Z.eqb_eq in Hid.
  pose proof (find_some _ _ Ho) as [_ Hoid]. apply Z.eqb_eq in Hoid.
  store_simpl. rewrite find_update by reflexivity. rewrite Hr. cbn [option_map].
  rewrite Hid, Z.eqb_refl. eexists. split; [reflexivity |].
  cbn [SchedulingRequest.approve SchedulingRequest.status
       SchedulingRequest.approved_option_id SchedulingRequest.interview_id].
  rewrite Hoid. repeat split.
Qed.

(** C7. [approve_schedule_and_create_interview] raises a domain error and
    leaves the store unchanged when the request does not exist, when its
    status is not proposed, and when the option does not exist or belongs to
    another request; a successful call leaves the request in status
    approved, with the chosen option and the new interview recorded, and
    every further call for the same request raises the domain error of a
    request that is not proposed. *)
Theorem approve_rejects_and_is_one_shot rid oid ids now hex (w : Store) :
  let run := approve_schedule_and_create_interview rid oid ids now hex w in
  let req := find (fun r => SchedulingRequest.id r =? rid) (scheduling_requests w) in
  let opt := find (fun o => SchedulingOption.id o =? oid) (scheduling_options w) in
  (req = None -> run = (w, Raise (ValueError "request not found")))
  /\ (forall r, req = Some r ->
        SchedulingRequest.status r <> SchedulingRequestStatus.proposed ->
        run = (w, Raise (ValueError "request not in proposed state")))
  /\ (forall r, req = Some r ->
        SchedulingRequest.status r = SchedulingRequestStatus.proposed ->
        (opt = None
         \/ exists o, opt = Some o
                      /\ SchedulingOption.request_id o <> SchedulingRequest.id r) ->
        run = (w, Raise (ValueError "invalid option_id for request")))
  /\ (forall w' iv, run = (w', Ok iv) ->
        (exists r',
           find (fun r => SchedulingRequest.id r =? rid) (scheduling_requests w') = Some r'
           /\ SchedulingRequest.status r' = SchedulingRequestStatus.approved
           /\ SchedulingRequest.approved_option_id r' = Some oid
           /\ SchedulingRequest.interview_id r' = Some (Interview.id iv))
        /\ forall oid' ids' now' hex',
             approve_schedule_and_create_interview rid oid' ids' now' hex' w'
             = (w', Raise (ValueError "request not in proposed state"))).
Proof.
  intros run req opt. subst run req opt.
  split; [apply approve_no_request |].
  split; [apply approve_not_proposed |].
  split; [apply approve_bad_option |].
  intros w' iv H. split.
  - eapply approve_marks_request; eauto.
  - intros oid' ids' now' hex'. eapply approve_twice; eauto.
Qed.

(** The booking of the smoke test, and the search repeated after it. *)
Lemma booking_is_monotonic_witness :
  find_common_slot (calendar_blocks booked_store) [1; 2; 3] demo_window 60 15
  <> Some (Interview.scheduled_start demo_interview,
           Interview.scheduled_end demo_interview).
Proof.
  apply (booking_is_monotonic "Recruiter" "recruiter@example.com" 1 "Backend Engineer"
           [1; 2; 3] demo_window 60 (base - minutes 115) "0a1b2c3d"
           seed_store booked_store demo_interview 15 (calendar_blocks booked_store)).
  - reflexivity.
  - reflexivity.
  - vm_compute. reflexivity.
  - intros b Hb. exact Hb.
Defined.

(** An interviewer list with an id of no user, on the seeded store. *)
Lemma start_interview_validation_witness :
  demo_start [1; 7] seed_store
  = (seed_store, Raise (ValueError "some interviewers not found")).
Proof.
  refine (proj1 (proj2 (proj2
            (start_interview_validation "Recruiter" "recruiter@example.com" 1
               "Backend Engineer" [1; 7] demo_window 60 (base - minutes 115)
               "0a1b2c3d" seed_store _))) _ _ _).
  - vm_compute. repeat constructor; simpl; intuition discriminate.
  - vm_compute. discriminate.
  - discriminate.
  - exists 7. split; [simpl; tauto |]. vm_compute. intuition discriminate.
Defined.

(* ===================================================================== *)
(** ** The consolidation gate *)

Section OrderByKey.

Context {A : Type}.
Variable key : A -> Z.

Lemma insert_by_key_perm (x : A) (l : list A) :
  Permutation (insert_by_key key x l) (x :: l).
Proof.
  induction l as [|y l IH]; cbn [insert_by_key]; [reflexivity |].
  destruct (key x <=? key y); [reflexivity |].
  rewrite IH. apply perm_swap.
Qed.

(** The query returns the rows it selects, each once. *)
Lemma order_by_key_perm (l : list A) : Permutation (order_by_key key l) l.
Proof.
  induction l as [|x l IH]; cbn [order_by_key fold_right]; [reflexivity |].
  fold (order_by_key key l). rewrite insert_by_key_perm. now constructor.
Qed.

Lemma order_by_key_In (x : A) (l : list A) : In x (order_by_key key l) <-> In x l.
Proof.
  split; apply Permutation_in; [| symmetry]; apply order_by_key_perm.
Qed.

Lemma order_by_key_nil (l : list A) : l = [] -> order_by_key key l = [].
Proof. intros ->. reflexivity. Qed.

Lemma order_by_key_length (l : list A) :
  List.length (order_by_key key l) = List.length l.
Proof. apply Permutation_length, order_by_key_perm. Qed.

End OrderByKey.

Section Gate.

Variables (env : Env) (w : Store).


Lemma got_ids (iid uid : Z) :
  In uid (map Feedback.user_id (feedback_of iid w)) <-> has_feedback iid uid w.
Proof.
  unfold feedback_of, has_feedback. rewrite in_map_iff. split.
  - intros (f & <- & Hin). apply order_by_key_In, filter_In in Hin.
    destruct Hin as [Hin Heq]. apply Z.eqb_eq in Heq. eauto.
  - intros (f & Hin & Hi & Hu). exists f. split; [assumption |].
    apply order_by_key_In, filter_In. split; [assumption | now apply Z.eqb_eq].
Qed.


Lemma filter_key_unique {X} (key : X -> Z) (k : Z) (l : list X) :
  NoDup (map key l) ->
  filter (fun x => key x =? k) l = []
  \/ exists x, filter (fun x => key x =? k) l = [x] /\ key x = k.
Proof.
  induction l as [|x l IH]; simpl; intros Hnd; [now left |].
  inversion Hnd as [|? ? Hnotin Hrest]; subst.
  destruct (Z.eqb_spec (key x) k) as [Heq | Hne]; [| auto].
  right. exists x. split; [| assumption].
  f_equal. destruct (filter (fun y => key y =? k) l) as [|y ys] eqn:Hf; [reflexivity |].
  exfalso. apply Hnotin.
  assert (Hy : In y (filter (fun y => key y =? k) l)) by (rewrite Hf; now left).
  apply filter_In in Hy. destruct Hy as [Hy Hk]. apply Z.eqb_eq in Hk.
  apply in_map_iff. exists y. split; [congruence | assumption].
Qed.

Variables (iid : Z) (now : datetime) (iv : Interview.t) (cand : Candidate.t).
Hypothesis found : find (fun i => Interview.id i =? iid) (interviews w) = Some iv.
Hypothesis candidate_found :
  find (fun c => Candidate.id c =? Interview.candidate_id iv) (candidates w) = Some cand.

Lemma found_id : Interview.id iv = iid.
Proof. apply find_some in found. now apply Z.eqb_eq. Qed.

(** The gate closed: [false], and the store as it was. *)
Lemma maybe_consolidate_not_yet :
  issubset (map User.id (participants_of iid w))
           (map Feedback.user_id (feedback_of iid w)) = false ->
  maybe_consolidate env iid now w = (w, Ok false).
Proof.
  intros Hgate. unfold maybe_consolidate.
  unfold bind at 1, get_interview, gets at 1. rewrite found.
  unfold bind at 1, get_candidate, gets at 1. rewrite candidate_found.
  unfold bind at 1, gets at 1. unfold bind at 1, gets at 1.
  now rewrite Hgate.
Qed.

(** The gate open and at most one ATS record: [true], and the store
    consolidated. *)
Lemma maybe_consolidate_one_ats :
  (ats_of iid w = [] \/ exists a, ats_of iid w = [a]) ->
  issubset (map User.id (participants_of iid w))
           (map Feedback.user_id (feedback_of iid w)) = true ->
  maybe_consolidate env iid now w = (consolidated env w iv cand now, Ok true).
Proof.
  intros Hrows Hgate. unfold maybe_consolidate.
  unfold bind at 1, get_interview, gets at 1. rewrite found.
  unfold bind at 1, get_candidate, gets at 1. rewrite candidate_found.
  unfold bind at 1, gets at 1. unfold bind at 1, gets at 1.
  rewrite Hgate. cbn [negb].
  unfold consolidated, consolidation_calls. rewrite found_id.
  unfold bind at 1, emit at 1, modify.
  unfold bind at 1, gets at 1.
  replace (ats_of iid (with_outbox _ w)) with (ats_of iid w) by reflexivity.
  destruct Hrows as [Hnone | (a & Hone)]; rewrite ?Hnone, ?Hone;
    unfold bind, scalar_one_or_none, ret, add_ats, update_ats, update_interview,
           emit, modify; store_simpl.
  - assert (Hex : existsb (fun b => ATSRecord.interview_id b =? iid) (ats_records w) = false).
    { destruct (existsb _ _) eqn:Hex; [| reflexivity].
      apply existsb_exists in Hex. destruct Hex as (b & Hb & Hk).
      assert (Hin : In b (ats_of iid w)) by (apply filter_In; auto).
      rewrite Hnone in Hin. contradiction. }
    cbn [ATSRecord.interview_id]. rewrite Hex.
    f_equal. apply store_ext; store_simpl; try reflexivity.
    rewrite <- !app_assoc. reflexivity.
  - f_equal. apply store_ext; store_simpl; try reflexivity.
    rewrite <- !app_assoc. reflexivity.
Qed.

Lemma maybe_consolidate_done :
  ats_unique w ->
  issubset (map User.id (participants_of iid w))
           (map Feedback.user_id (feedback_of iid w)) = true ->
  maybe_consolidate env iid now w = (consolidated env w iv cand now, Ok true).
Proof.
  intros Huq. apply maybe_consolidate_one_ats.
  destruct (filter_key_unique ATSRecord.interview_id iid (ats_records w) Huq)
    as [Hnone | (a & Hone & _)]; [now left | right; now exists a].
Qed.

End Gate.

Lemma filter_update {X} (key : X -> Z) (k : Z) (f : X -> X) (l : list X) :
  (forall x, key (f x) = key x) ->
  filter (fun x => key x =? k) (map (fun x => if key x =? k then f x else x) l)
  = map f (filter (fun x => key x =? k) l).
Proof.
  intros Hkey. induction l as [|x l IH]; simpl; [reflexivity |].
  destruct (Z.eqb_spec (key x) k) as [Heq | Hne].
  - rewrite Hkey. destruct (Z.eqb_spec (key x) k); [| contradiction].
    simpl. now rewrite IH.
  - destruct (Z.eqb_spec (key x) k); [contradiction | exact IH].
Qed.



(* ===================================================================== *)
(** ** Approval without interviewers *)

Section EmptyApproval.

Lemma filter_fresh {X} (key : X -> Z) (ids : list Z) (l : list X) :
  (forall x, In x l -> In (key x) ids) ->
  filter (fun x => key x =? next_id ids) l = [].
Proof.
  intros Hfk. induction l as [|x l IH]; simpl; [reflexivity |].
  destruct (Z.eqb_spec (key x) (next_id ids)) as [Heq | Hne].
  - exfalso. assert (Hin : In (key x) ids) by (apply Hfk; now left).
    apply next_id_fresh in Hin. lia.
  - apply IH. intros y Hy. apply Hfk. now right.
Qed.

Lemma existsb_fresh {X} (key : X -> Z) (ids : list Z) (l : list X) :
  (forall x, In x l -> In (key x) ids) ->
  existsb (fun x => key x =? next_id ids) l = false.
Proof.
  intros Hfk. destruct (existsb _ l) eqn:Hex; [| reflexivity].
  apply existsb_exists in Hex. destruct Hex as (x & Hx & Hk).
  apply Z.eqb_eq in Hk. apply Hfk, next_id_fresh in Hx. lia.
Qed.

Lemma find_candidate_by_id (c : Z) (l : list Candidate.t) :
  In c (map Candidate.id l) ->
  exists cand, find (fun x => Candidate.id x =? c) l = Some cand.
Proof.
  intros Hin. destruct (find _ l) as [cand|] eqn:Hf; [eauto |].
  exfalso. apply in_map_iff in Hin. destruct Hin as (x & Hid & Hx).
  pose proof (find_none _ _ Hf x Hx) as Hno. simpl in Hno.
  rewrite Hid, Z.eqb_refl in Hno. discriminate.
Qed.

Lemma find_app_absent {X} (key : X -> Z) (k : Z) (l : list X) (row : X) :
  ~ In k (map key l) -> key row = k ->
  find (fun x => key x =? k) (l ++ [row]) = Some row.
Proof.
  intros Hnot Hrow. induction l as [|x l IH]; simpl.
  - now rewrite Hrow, Z.eqb_refl.
  - destruct (Z.eqb_spec (key x) k) as [Heq | Hne].
    + exfalso. apply Hnot. now left.
    + apply IH. intros Hin. apply Hnot. now right.
Qed.

Variables (env : Env) (rid oid : Z) (now : datetime) (hex : string) (w : Store).
Variables (r : SchedulingRequest.t) (o : SchedulingOption.t).
Hypothesis candidates_fk : requests_have_candidates w.
Hypothesis interviews_fk : rows_reference_interviews w.
Hypothesis request_found :
  find (fun x => SchedulingRequest.id x =? rid) (scheduling_requests w) = Some r.
Hypothesis request_proposed :
  SchedulingRequest.status r = SchedulingRequestStatus.proposed.
Hypothesis option_found :
  find (fun x => SchedulingOption.id x =? oid) (scheduling_options w) = Some o.
Hypothesis option_owned : SchedulingOption.request_id o = SchedulingRequest.id r.

Local Abbreviation new_id := (next_id (map Interview.id (interviews w))).

(** The interview that the approval creates. *)
Local Abbreviation created :=
  (Interview.mk new_id
     (SchedulingRequest.candidate_id r) (SchedulingRequest.job_title r)
     (SchedulingRequest.recruiter_name r) (SchedulingRequest.recruiter_email r)
     now (SchedulingOption.start o) (SchedulingOption.end_ o)
     (_video_link new_id hex) InterviewStatus.scheduled None None None).

Lemma approve_empty_run :
  exists cand,
    find (fun x => Candidate.id x =? SchedulingRequest.candidate_id r) (candidates w)
      = Some cand
    /\ approve_schedule_and_create_interview rid oid [] now hex w
       = (with_scheduling_requests
            (map (fun x => if SchedulingRequest.id x =? SchedulingRequest.id r
                           then SchedulingRequest.approve (SchedulingOption.id o) new_id x
                           else x) (scheduling_requests w))
            (booked w created [] [] cand
               (block_title cand (SchedulingRequest.job_title r)) now),
          Ok created).
Proof.
  destruct (find_candidate_by_id (SchedulingRequest.candidate_id r) (candidates w))
    as [cand Hcand].
  { apply candidates_fk. apply find_some in request_found. tauto. }
  exists cand. split; [assumption |].
  unfold approve_schedule_and_create_interview, transactional.
  unfold bind at 1, get_request, gets at 1. rewrite request_found, request_proposed.
  cbn [SchedulingRequestStatus.eqb negb].
  unfold bind at 1, get_option, gets at 1. rewrite option_found, option_owned, Z.eqb_refl.
  cbn [negb].
  unfold bind at 1, get_candidate, gets at 1. rewrite Hcand.
  unfold bind at 1, gets at 1.
  assert (Hus : users_in [] w = []).
  { unfold users_in. induction (users w) as [|u us IH]; simpl; auto. }
  rewrite Hus. cbn [List.length len_set nodup Nat.eqb negb for_each].
  unfold bind at 1, add_interview.
  unfold bind at 1, update_interview, modify. store_simpl. cbn [Interview.id].
  unfold bind at 1, ret at 1.
  unfold bind at 1, add_ats. store_simpl. cbn [ATSRecord.interview_id].
  destruct interviews_fk as (_ & _ & Hats).
  rewrite (existsb_fresh ATSRecord.interview_id _ _ Hats).
  unfold bind at 1, ret at 1.
  unfold bind at 1, update_request, modify.
  unfold bind at 1. rewrite notify_scheduled_run. unfold ret.
  pose proof (update_new_interview (interviews w)
                (Interview.mk new_id
                   (SchedulingRequest.candidate_id r) (SchedulingRequest.job_title r)
                   (SchedulingRequest.recruiter_name r)
                   (SchedulingRequest.recruiter_email r)
                   now (SchedulingOption.start o) (SchedulingOption.end_ o)
                   "pending" InterviewStatus.scheduled None None None)
                (Interview.set_video_link (_video_link new_id hex)) eq_refl) as Hmap.
  cbn [Interview.id] in Hmap.
  f_equal. apply store_ext; store_simpl; cbn [Interview.id map]; rewrite ?app_nil_r;
    solve [reflexivity | exact Hmap].
Qed.

(** The store that the approval leaves. *)
Local Abbreviation approved cand :=
  (with_scheduling_requests
     (map (fun x => if SchedulingRequest.id x =? SchedulingRequest.id r
                    then SchedulingRequest.approve (SchedulingOption.id o) new_id x
                    else x) (scheduling_requests w))
     (booked w created [] [] cand
        (block_title cand (SchedulingRequest.job_title r)) now)).

Lemma approve_empty_no_participants cand :
  participant_ids new_id (approved cand) = []
  /\ participants_of new_id (approved cand) = []
  /\ feedback_of new_id (approved cand) = [].
Proof.
  destruct interviews_fk as (Hp & Hf & _).
  unfold participant_ids, participants_of, feedback_of. store_simpl.
  cbn [Interview.id map]. rewrite app_nil_r.
  rewrite (filter_fresh InterviewParticipant.interview_id _ _ Hp).
  rewrite (filter_fresh Feedback.interview_id _ _ Hf).
  repeat split; reflexivity.
Qed.

Lemma approve_empty_consolidates cand now' :
  find (fun x => Candidate.id x =? SchedulingRequest.candidate_id r) (candidates w)
    = Some cand ->
  maybe_consolidate env new_id now' (approved cand)
  = (consolidated env (approved cand) created cand now', Ok true).
Proof.
  intros Hcand.
  destruct (approve_empty_no_participants cand) as (_ & Hnone & _).
  apply maybe_consolidate_one_ats.
  - store_simpl. apply find_app_absent; [| reflexivity].
    intros Hin. apply next_id_fresh in Hin. lia.
  - exact Hcand.
  - right. unfold ats_of. store_simpl. cbn [Interview.id].
    destruct interviews_fk as (_ & _ & Hats).
    rewrite filter_app, (filter_fresh ATSRecord.interview_id _ _ Hats).
    simpl. rewrite Z.eqb_refl. eauto.
  - rewrite Hnone. reflexivity.
Qed.

End EmptyApproval.

(** X10 (claim C10). In a store whose requests name existing candidates and whose
    participant, feedback and ATS rows name existing interviews, approving a
    proposed request with an option it owns and an empty interviewer list
    raises nothing: it creates an interview with no participant row and no
    calendar block; the required-feedback set of that interview is empty, it
    has no feedback, and [maybe_consolidate] on it returns true. *)
Theorem approve_without_interviewers (env : Env) (rid oid : Z) (now : datetime)
    (hex : string) (w : Store) (r : SchedulingRequest.t) (o : SchedulingOption.t) :
  requests_have_candidates w -> rows_reference_interviews w ->
  find (fun x => SchedulingRequest.id x =? rid) (scheduling_requests w) = Some r ->
  SchedulingRequest.status r = SchedulingRequestStatus.proposed ->
  find (fun x => SchedulingOption.id x =? oid) (scheduling_options w) = Some o ->
  SchedulingOption.request_id o = SchedulingRequest.id r ->
  exists w' iv,
    approve_schedule_and_create_interview rid oid [] now hex w = (w', Ok iv)
    /\ participant_ids (Interview.id iv) w' = []
    /\ calendar_blocks w' = calendar_blocks w
    /\ participants_of (Interview.id iv) w' = []
    /\ feedback_of (Interview.id iv) w' = []
    /\ forall now', exists w'',
         maybe_consolidate env (Interview.id iv) now' w' = (w'', Ok true).
Proof.
  intros Hc Hi Hr Hst Ho Hown.
  destruct (approve_empty_run rid oid now hex w r o Hc Hi Hr Hst Ho Hown)
    as (cand & Hcand & Hrun).
  destruct (approve_empty_no_participants now hex w r o Hi cand) as (Hp & Hu & Hf).
  eexists. eexists. split; [exact Hrun |].
  cbn [Interview.id]. repeat split; try assumption.
  - store_simpl. cbn [map]. now rewrite app_nil_r.
  - intros now'. eexists.
    apply (approve_empty_consolidates env now hex w r o Hi cand now' Hcand).
Qed.

(** The proposal of the second smoke test, approved with no interviewer. *)
Lemma approve_without_interviewers_witness :
  exists w' iv,
    approve_schedule_and_create_interview 1 1 [] (base - minutes 100) "0a1b2c3d"
      proposed_store = (w', Ok iv)
    /\ participant_ids (Interview.id iv) w' = []
    /\ exists w'', maybe_consolidate demo_env (Interview.id iv) base w' = (w'', Ok true).
Proof.
  destruct (approve_without_interviewers demo_env 1 1 (base - minutes 100) "0a1b2c3d"
              proposed_store demo_request demo_option)
    as (w' & iv & Hrun & Hnone & _ & _ & _ & Hdone).
  - intros r Hr. vm_compute in Hr. destruct Hr as [<- | []]. vm_compute. tauto.
  - split; [| split]; intros x Hx; vm_compute in Hx; contradiction.
  - vm_compute. reflexivity.
  - reflexivity.
  - vm_compute. reflexivity.
  - reflexivity.
  - exists w', iv. repeat split; auto.
Defined.

(* ===================================================================== *)
(** ** Write-once markers *)

Section Markers.

Lemma marker_le_refl a : marker_le a a.
Proof. intros v H. exact H. Qed.

Lemma marker_le_trans a b c : marker_le a b -> marker_le b c -> marker_le a c.
Proof. intros Hab Hbc v H. auto. Qed.

Lemma row_le_refl i : row_le i i.
Proof. repeat split; apply marker_le_refl. Qed.

Lemma row_le_trans i j k : row_le i j -> row_le j k -> row_le i k.
Proof.
  intros (Hi & Hr & Hf & Hc) (Hi' & Hr' & Hf' & Hc').
  repeat split; [congruence | | |]; eapply marker_le_trans; eauto.
Qed.

Lemma markers_kept_refl w : markers_kept w w.
Proof. intros i Hi. exists i. split; [assumption | apply row_le_refl]. Qed.

Lemma markers_kept_same w w' : interviews w' = interviews w -> markers_kept w w'.
Proof.
  intros H i Hi. exists i. split; [now rewrite H | apply row_le_refl].
Qed.

Lemma markers_kept_trans w1 w2 w3 :
  markers_kept w1 w2 -> markers_kept w2 w3 -> markers_kept w1 w3.
Proof.
  intros H12 H23 i Hi.
  destruct (H12 i Hi) as (j & Hj & Hij). destruct (H23 j Hj) as (k & Hk & Hjk).
  exists k. split; [assumption | eapply row_le_trans; eauto].
Qed.

End Markers.

(** The combinators, for any relation between the store before and the
    store after that is a [Frame]. *)
Section Frames.

Variable R : Store -> Store -> Prop.
Context {frame : Frame R}.

Lemma preserves_ret {A} (a : A) : preserves R (ret a).
Proof. intros w w' r [= <- _]. apply frame_refl. Qed.

Lemma preserves_raise {A} e : preserves R (@raise A e).
Proof. intros w w' r [= <- _]. apply frame_refl. Qed.

Lemma preserves_gets {A} (f : Store -> A) : preserves R (gets f).
Proof. intros w w' r [= <- _]. apply frame_refl. Qed.

Lemma preserves_bind {A B} (m : M A) (k : A -> M B) :
  preserves R m -> (forall a, preserves R (k a)) -> preserves R (bind m k).
Proof.
  intros Hm Hk w w' r. unfold bind.
  destruct (m w) as [w1 [a | e]] eqn:Hrun.
  - intros H. eapply frame_trans; [eapply Hm | eapply Hk]; eauto.
  - intros [= <- _]. eapply Hm; eauto.
Qed.

Lemma preserves_for_each {A} (l : list A) (f : A -> M unit) :
  (forall x, preserves R (f x)) -> preserves R (for_each l f).
Proof.
  intros H. induction l as [|x l IH]; simpl.
  - apply preserves_ret.
  - apply preserves_bind; auto.
Qed.

Lemma preserves_scalar {A} (rows : list A) : preserves R (scalar_one_or_none rows).
Proof.
  unfold scalar_one_or_none. destruct rows as [|x [|y rows]];
    first [apply preserves_ret | apply preserves_raise].
Qed.

(** After a rollback the tables are those of [w]; what was sent stays sent. *)
Lemma preserves_transactional {A} (m : M A) :
  preserves R m -> preserves R (transactional m).
Proof.
  intros Hm w w' r. unfold transactional.
  destruct (m w) as [w1 [a | e]] eqn:Hrun.
  - intros [= <- _]. eapply Hm; eauto.
  - destruct e; intros [= <- _]; try (eapply Hm; eassumption).
    eapply frame_rollback, Hm; eassumption.
Qed.

Lemma preserves_discard {A} (m : M A) :
  preserves R m -> preserves R (discard_uncommitted m).
Proof.
  intros Hm w w' r. unfold discard_uncommitted.
  destruct (m w) as [w1 [a | e]] eqn:Hrun.
  - intros [= <- _]. eapply Hm; eauto.
  - intros [= <- _]. eapply frame_rollback, Hm; eassumption.
Qed.

(** The writes that leave [interviews] and the outbox alone. *)
Lemma preserves_other_tables (f : Store -> Store) :
  (forall w, interviews (f w) = interviews w) ->
  (forall w, candidates (f w) = candidates w) ->
  (forall w, outbox (f w) = outbox w) ->
  preserves R (modify f).
Proof. intros Hi Hc Ho w w' r [= <- _]. now apply frame_same. Qed.

Lemma preserves_add_participant p : preserves R (add_participant p).
Proof.
  intros w w' r. unfold add_participant.
  destruct existsb; intros [= <- _]; now apply frame_same.
Qed.

Lemma preserves_add_ats a : preserves R (add_ats a).
Proof.
  intros w w' r. unfold add_ats.
  destruct existsb; intros [= <- _]; now apply frame_same.
Qed.

Lemma preserves_add_feedback f : preserves R (add_feedback f).
Proof.
  intros w w' r. unfold add_feedback.
  destruct existsb; intros [= <- _]; now apply frame_same.
Qed.

Lemma preserves_add_request f : preserves R (add_request f).
Proof. intros w w' r [= <- _]. now apply frame_same. Qed.

Lemma preserves_add_option rid s e : preserves R (add_option rid s e).
Proof.
  intros w w' r. unfold add_option.
  destruct existsb; intros [= <- _]; now apply frame_same.
Qed.

Lemma preserves_add_options rid slots : preserves R (add_options rid slots).
Proof.
  induction slots as [|[s e] rest IH]; simpl.
  - apply preserves_ret.
  - apply preserves_bind; [apply preserves_add_option | intros opt].
    apply preserves_bind; [exact IH | intros opts]. apply preserves_ret.
Qed.

End Frames.

Section Extends.

Variable Q : Effect -> Prop.

Lemma extends_refl w : extends Q w w.
Proof.
  repeat split; [auto | apply markers_kept_refl |].
  exists []. split; [now rewrite app_nil_r | constructor].
Qed.

Lemma extends_trans w1 w2 w3 : extends Q w1 w2 -> extends Q w2 w3 -> extends Q w1 w3.
Proof.
  intros (Hpk & Hm & s & Hs & Hq) (Hpk' & Hm' & s' & Hs' & Hq').
  repeat split; [auto | eapply markers_kept_trans; eauto |].
  exists (s ++ s'). split; [rewrite Hs', Hs; symmetry; apply app_assoc |].
  apply Forall_app. auto.
Qed.

(** A store that differs from [w] in other tables only. *)
Lemma extends_same w w' :
  interviews w' = interviews w -> candidates w' = candidates w ->
  outbox w' = outbox w -> extends Q w w'.
Proof.
  intros Hi _ Ho. unfold extends, interviews_pk, markers_kept. rewrite Hi, Ho.
  repeat split; [auto | |].
  - intros i Hin. exists i. split; [assumption | apply row_le_refl].
  - exists []. split; [now rewrite app_nil_r | constructor].
Qed.

#[export] Instance extends_frame : Frame (extends Q).
Proof.
  constructor.
  - apply extends_refl.
  - apply extends_trans.
  - apply extends_same.
  - intros w w1 (_ & _ & sent & Hs & Hq).
    split; [auto |]. split.
    + intros i Hi. exists i. split; [exact Hi | apply row_le_refl].
    + exists sent. split; [exact Hs | exact Hq].
Qed.

Lemma preserves_emit iid c :
  Q {| about := iid; call := c |} -> preserves (extends Q) (emit iid c).
Proof.
  intros Hq w w' r [= <- _]. split; [auto |].
  split; [now apply markers_kept_same |].
  eexists. split; [reflexivity | repeat constructor; exact Hq].
Qed.

(** A new interview takes a fresh id. *)
Lemma preserves_add_interview (mk_row : Z -> Interview.t) :
  (forall id, Interview.id (mk_row id) = id) ->
  preserves (extends Q) (add_interview mk_row).
Proof.
  intros Hid w w' r [= <- _]. unfold extends, interviews_pk, markers_kept. store_simpl.
  split; [| split].
  - intros Hpk. rewrite map_app. simpl. rewrite Hid.
    apply NoDup_app; [assumption | repeat constructor; auto |].
    intros x Hx [<- | []]. apply next_id_fresh in Hx. lia.
  - intros i Hi. exists i. split; [apply in_or_app; now left | apply row_le_refl].
  - exists []. split; [now rewrite app_nil_r | constructor].
Qed.

(** An update that keeps the id and the markers of a row. *)
Lemma preserves_update_interview (id : Z) (f : Interview.t -> Interview.t) :
  (forall i, row_le i (f i)) ->
  preserves (extends Q) (update_interview id f).
Proof.
  intros Hf w w' r [= <- _]. unfold extends, interviews_pk, markers_kept. store_simpl.
  split; [| split].
  - intros Hpk. rewrite map_map.
    erewrite map_ext; [exact Hpk |].
    intros i. simpl. destruct (Interview.id i =? id); [apply Hf | reflexivity].
  - intros i Hi. exists (if Interview.id i =? id then f i else i).
    split; [apply in_map_iff; eauto |].
    destruct (Interview.id i =? id); [apply Hf | apply row_le_refl].
  - exists []. split; [now rewrite app_nil_r | constructor].
Qed.

End Extends.

Lemma row_le_set_video_link v i : row_le i (Interview.set_video_link v i).
Proof. repeat split; apply marker_le_refl. Qed.

(** Discharges [preserves (extends Q) m] for the bodies of the entry points
    that only book, propose and record feedback. *)
Ltac frame_goal :=
  match goal with |- Frame _ => solve [typeclasses eauto] end.

Ltac extends_tac :=
  unfold notify_scheduled, get_candidate, get_interview, get_request, get_option;
  repeat first
    [ frame_goal
    | match goal with |- forall _, _ => intros ? end
    | apply preserves_ret | apply preserves_gets | apply preserves_raise
    | apply preserves_scalar
    | apply preserves_add_participant | apply preserves_add_ats
    | apply preserves_add_feedback | apply preserves_add_options
    | apply preserves_add_request
    | apply preserves_add_interview; intros ?; reflexivity
    | apply preserves_update_interview; intros ?; apply row_le_set_video_link
    | apply preserves_emit; split; reflexivity
    | apply preserves_other_tables; [frame_goal | intros ?; reflexivity ..]
    | apply preserves_transactional
    | apply preserves_for_each
    | apply preserves_bind
    | match goal with
      | |- preserves _ (match ?x with _ => _ end) => destruct x
      | |- preserves _ (if ?b then _ else _) => destruct b
      end ].

Section EntryPoints.

Lemma start_interview_extends rn re c j ids tw d now hex :
  preserves (extends booking_call) (start_interview rn re c j ids tw d now hex).
Proof. unfold start_interview. extends_tac. Qed.

Lemma propose_schedule_extends rn re c j ids tw d lim now :
  preserves (extends booking_call) (propose_schedule rn re c j ids tw d lim now).
Proof. unfold propose_schedule. extends_tac. Qed.

Lemma approve_extends rid oid ids now hex :
  preserves (extends booking_call)
    (approve_schedule_and_create_interview rid oid ids now hex).
Proof. unfold approve_schedule_and_create_interview. extends_tac. Qed.

Lemma submit_feedback_extends env tok dec com now :
  preserves (extends booking_call) (submit_feedback env tok dec com now).
Proof. unfold submit_feedback. extends_tac. Qed.

End EntryPoints.

(* ===================================================================== *)
(** ** The actions of the ticker *)

Section Touches.

Variables (f : Interview.t -> Interview.t) (allowed : Call -> bool) (id : Z).
Hypothesis f_id : forall i, Interview.id (f i) = Interview.id i.
Hypothesis f_idem : forall i, f (f i) = f i.

Lemma upd_id i : Interview.id (upd id f i) = Interview.id i.
Proof. unfold upd. destruct (Interview.id i =? id); auto. Qed.

Lemma upd_idem i : upd id f (upd id f i) = upd id f i.
Proof.
  unfold upd. destruct (Interview.id i =? id) eqn:He.
  - now rewrite f_id, He, f_idem.
  - now rewrite He.
Qed.

Lemma touches_frame : Frame (touches f allowed id).
Proof.
  constructor.
  - intros w. repeat split; [now left |].
    exists []. split; [now rewrite app_nil_r | constructor].
  - intros w1 w2 w3 (Hi & Hc & s & Hs & Hq) (Hi' & Hc' & s' & Hs' & Hq').
    split; [| split; [congruence |]].
    + destruct Hi as [Hi | Hi], Hi' as [Hi' | Hi']; rewrite Hi', Hi; auto.
      right. rewrite map_map. apply map_ext. intros i. apply upd_idem.
    + exists (s ++ s'). split; [rewrite Hs', Hs; symmetry; apply app_assoc |].
      apply Forall_app. auto.
  - intros w w' Hi Hc Ho. repeat split; [now left | assumption |].
    exists []. split; [now rewrite app_nil_r | constructor].
  - intros w w1 (_ & _ & sent & Hs & Hq). repeat split; [now left |].
    exists sent. split; [exact Hs | exact Hq].
Qed.

Lemma touches_emit c :
  allowed c = true -> preserves (touches f allowed id) (emit id c).
Proof.
  intros Hc w w' r [= <- _]. repeat split; [now left |].
  eexists. split; [reflexivity |]. repeat constructor. exact Hc.
Qed.

Lemma touches_update : preserves (touches f allowed id) (update_interview id f).
Proof.
  intros w w' r [= <- _]. repeat split; [now right |].
  exists []. split; [now rewrite app_nil_r | constructor].
Qed.

End Touches.

#[export] Instance reminder_frame t allowed id : Frame (touches (reminded t) allowed id).
Proof. apply touches_frame; reflexivity. Qed.

#[export] Instance feedback_request_frame t allowed id :
  Frame (touches (feedback_asked t) allowed id).
Proof. apply touches_frame; reflexivity. Qed.

#[export] Instance consolidation_frame t allowed id :
  Frame (touches (consolidated_row t) allowed id).
Proof. apply touches_frame; reflexivity. Qed.

(** Discharges [preserves (touches f allowed id) m] for what follows the
    two lookups of a ticker action. *)
Ltac touches_tac :=
  repeat first
    [ frame_goal
    | match goal with |- forall _, _ => intros ? end
    | apply preserves_ret | apply preserves_gets | apply preserves_raise
    | apply preserves_scalar | apply preserves_add_ats
    | apply touches_update
    | apply touches_emit; reflexivity
    | apply preserves_other_tables; [frame_goal | intros ?; reflexivity ..]
    | apply preserves_for_each
    | apply preserves_bind
    | match goal with
      | |- preserves _ (match ?x with _ => _ end) => destruct x
      | |- preserves _ (if ?b then _ else _) => destruct b
      end ].

Section Actions.

Variables (env : Env) (id : Z) (t : datetime).

Lemma send_reminder_touches :
  preserves (touches (reminded t) is_reminder id)
    (discard_uncommitted (send_reminder id t)).
Proof.
  apply preserves_discard; [frame_goal |]. intros w w' r. unfold send_reminder.
  unfold bind at 1, get_interview, gets at 1.
  destruct (find _ (interviews w)) as [iv|] eqn:Hiv;
    [| intros [= <- _]; apply frame_refl].
  rewrite (found_id w id iv Hiv).
  unfold bind at 1, get_candidate, gets at 1.
  destruct (find _ (candidates w)) as [cand|];
    [| intros [= <- _]; apply frame_refl].
  revert w' r.
  match goal with
  | |- forall w' r, ?m w = _ -> _ =>
    assert (Hp : preserves (touches (reminded t) is_reminder id) m) by touches_tac
  end.
  intros w' r. apply Hp.
Qed.

Lemma request_feedback_touches :
  preserves (touches (feedback_asked t) is_feedback_request id)
    (discard_uncommitted (request_feedback id t)).
Proof.
  apply preserves_discard; [frame_goal |]. intros w w' r. unfold request_feedback.
  unfold bind at 1, get_interview, gets at 1.
  destruct (find _ (interviews w)) as [iv|] eqn:Hiv;
    [| intros [= <- _]; apply frame_refl].
  rewrite (found_id w id iv Hiv).
  unfold bind at 1, get_candidate, gets at 1.
  destruct (find _ (candidates w)) as [cand|];
    [| intros [= <- _]; apply frame_refl].
  revert w' r.
  match goal with
  | |- forall w' r, ?m w = _ -> _ =>
    assert (Hp : preserves (touches (feedback_asked t) is_feedback_request id) m)
      by (unfold update_ats; touches_tac)
  end.
  intros w' r. apply Hp.
Qed.

Lemma maybe_consolidate_touches :
  preserves (touches (consolidated_row t) is_consolidation id)
    (discard_uncommitted (maybe_consolidate env id t)).
Proof.
  apply preserves_discard; [frame_goal |]. intros w w' r. unfold maybe_consolidate.
  unfold bind at 1, get_interview, gets at 1.
  destruct (find _ (interviews w)) as [iv|] eqn:Hiv;
    [| intros [= <- _]; apply frame_refl].
  rewrite (found_id w id iv Hiv).
  unfold bind at 1, get_candidate, gets at 1.
  destruct (find _ (candidates w)) as [cand|];
    [| intros [= <- _]; apply frame_refl].
  revert w' r.
  match goal with
  | |- forall w' r, ?m w = _ -> _ =>
    assert (Hp : preserves (touches (consolidated_row t) is_consolidation id) m)
      by (unfold update_ats; touches_tac)
  end.
  intros w' r. apply Hp.
Qed.

End Actions.

(* ===================================================================== *)
(** ** The scans of the ticker *)

Section Scan.

Variables (f : Z -> Interview.t -> Interview.t) (allowed : Call -> bool).
Variables (ready : Interview.t -> Prop) (act : Z -> M unit).
Hypothesis f_id : forall id i, Interview.id (f id i) = Interview.id i.
Hypothesis f_ready : forall id i, ready i -> row_le i (f id i).
Hypothesis act_touches : forall id, preserves (touches (f id) allowed id) (act id).

Lemma scanned_nil w : scanned allowed [] w w.
Proof.
  repeat split; auto using markers_kept_refl.
  exists []. split; [now rewrite app_nil_r | constructor].
Qed.

(** One action, on an interview whose rows are ready for it. *)
Lemma touches_scanned id w w' :
  (forall i, In i (interviews w) -> Interview.id i = id -> ready i) ->
  touches (f id) allowed id w w' -> scanned allowed [id] w w'.
Proof.
  intros Hready (Hi & Hc & sent & Hs & Hq).
  assert (Hsent : Forall (fun e => In (about e) [id] /\ allowed (call e) = true) sent).
  { eapply Forall_impl; [| exact Hq]. intros e [Ha Hk]. split; [now left | exact Hk]. }
  destruct Hi as [Hi | Hi]; unfold scanned, markers_kept; rewrite Hi.
  - repeat split; auto.
    + intros i Hin. exists i. split; [assumption | apply row_le_refl].
    + eauto.
  - repeat split; auto.
    + rewrite map_map. apply map_ext. intros i. now apply upd_id.
    + intros i Hin. exists (upd id (f id) i). split; [now apply in_map |].
      unfold upd. destruct (Z.eqb_spec (Interview.id i) id) as [Heq | Hne];
        [apply f_ready; auto | apply row_le_refl].
    + intros i' Hin Hnot. apply in_map_iff in Hin. destruct Hin as (i & <- & Hin).
      unfold upd in *. destruct (Z.eqb_spec (Interview.id i) id) as [Heq | Hne];
        [| assumption].
      exfalso. apply Hnot. left. now rewrite f_id.
    + eauto.
Qed.

Lemma scanned_cons id ids w w1 w' :
  scanned allowed [id] w w1 -> scanned allowed ids w1 w' ->
  scanned allowed (id :: ids) w w'.
Proof.
  intros (Hm & Hc & Hk & Hu & s & Hs & Hq) (Hm' & Hc' & Hk' & Hu' & s' & Hs' & Hq').
  split; [congruence |]. split; [congruence |].
  split; [eapply markers_kept_trans; eauto |]. split.
  - intros i' Hin Hnot. apply Hu.
    + apply Hu'; [assumption |]. intros H. apply Hnot. now right.
    + intros [H | []]. apply Hnot. now left.
  - exists (s ++ s'). split; [rewrite Hs', Hs; symmetry; apply app_assoc |].
    apply Forall_app. split; (eapply Forall_impl; [| eassumption]);
      intros e [Ha Hb]; (split; [| exact Hb]).
    + destruct Ha as [<- | []]. now left.
    + now right.
Qed.

Lemma scanned_weaken id ids w w' :
  scanned allowed [id] w w' -> scanned allowed (id :: ids) w w'.
Proof.
  intros H. eapply scanned_cons; [exact H | ].
  destruct (scanned_nil w') as (Hm & Hc & Hk & Hu & s & Hs & Hq).
  repeat split; auto. exists s. split; [exact Hs |].
  apply Forall_forall. intros e He. rewrite Forall_forall in Hq.
  destruct (Hq e He) as [[] _].
Qed.

(** The loop of a scan, over distinct ids whose rows are all ready. *)
Lemma scan_frame ids w w' r :
  NoDup ids ->
  (forall i, In i (interviews w) -> In (Interview.id i) ids -> ready i) ->
  for_each ids act w = (w', r) -> scanned allowed ids w w'.
Proof.
  revert w. induction ids as [|id ids IH]; intros w Hnd Hready; simpl.
  - intros [= <- _]. apply scanned_nil.
  - inversion Hnd as [|? ? Hnotin Hnd']; subst.
    unfold bind. destruct (act id w) as [w1 [[] | e]] eqn:Hact.
    + assert (H1 : scanned allowed [id] w w1).
      { apply touches_scanned; [| eapply act_touches; eauto].
        intros i Hin Heq. apply Hready; [assumption | now left]. }
      intros Hrest. eapply scanned_cons; [exact H1 |].
      apply IH; [assumption | | exact Hrest].
      intros i1 Hin1 Hid1. destruct H1 as (_ & _ & _ & Hu & _).
      apply Hready; [| now right]. apply Hu; [assumption |].
      intros [Heq | []]. apply Hnotin. now rewrite Heq.
    + intros [= <- _]. apply scanned_weaken. apply touches_scanned.
      * intros i Hin Heq. apply Hready; [assumption | now left].
      * eapply act_touches; eauto.
Qed.

End Scan.

Section Tick.

Lemma pk_unique (l : list Interview.t) (i j : Interview.t) :
  NoDup (map Interview.id l) -> In i l -> In j l ->
  Interview.id i = Interview.id j -> i = j.
Proof.
  induction l as [|x l IH]; simpl; intros Hnd Hi Hj Heq; [contradiction |].
  inversion Hnd as [|? ? Hnotin Hnd']; subst.
  destruct Hi as [-> | Hi], Hj as [-> | Hj]; auto.
  - exfalso. apply Hnotin. rewrite Heq. now apply in_map.
  - exfalso. apply Hnotin. rewrite <- Heq. now apply in_map.
Qed.

Lemma select_ids_NoDup (p : Interview.t -> bool) (w : Store) :
  interviews_pk w -> NoDup (select_ids p w).
Proof. intros Hpk. unfold select_ids. now apply NoDup_map_filter. Qed.

(** With distinct ids, a selected id is the id of a row that passes. *)
Lemma select_ids_row (p : Interview.t -> bool) (w : Store) (i : Interview.t) :
  interviews_pk w -> In i (interviews w) -> In (Interview.id i) (select_ids p w) ->
  p i = true.
Proof.
  intros Hpk Hi Hsel. unfold select_ids in Hsel. apply in_map_iff in Hsel.
  destruct Hsel as (j & Hid & Hj). apply filter_In in Hj. destruct Hj as [Hj Hp].
  now rewrite (pk_unique _ i j Hpk Hi Hj (eq_sym Hid)).
Qed.

Lemma select_ids_In (p : Interview.t -> bool) (w : Store) (id : Z) :
  In id (select_ids p w)
  <-> exists i, In i (interviews w) /\ Interview.id i = id /\ p i = true.
Proof.
  unfold select_ids. rewrite in_map_iff. split.
  - intros (i & Hid & Hi). apply filter_In in Hi. exists i. tauto.
  - intros (i & Hi & Hid & Hp). exists i. split; [assumption |].
    apply filter_In. tauto.
Qed.

Lemma is_none_spec {A} (o : option A) : is_none o = true <-> o = None.
Proof. destruct o; simpl; split; congruence. Qed.

Lemma reminded_ready t i :
  Interview.reminder_sent_at i = None -> row_le i (reminded t i).
Proof.
  intros H. repeat split; try apply marker_le_refl.
  intros v Hv. congruence.
Qed.

Lemma feedback_asked_ready t i :
  Interview.feedback_requested_at i = None -> row_le i (feedback_asked t i).
Proof.
  intros H. repeat split; try apply marker_le_refl.
  intros v Hv. simpl in *. congruence.
Qed.

Lemma consolidated_row_ready t i :
  Interview.consolidated_at i = None -> row_le i (consolidated_row t i).
Proof.
  intros H. repeat split; try apply marker_le_refl.
  intros v Hv. simpl in *. congruence.
Qed.

Variables (env : Env) (t : datetime) (clock : ActionClock).

Lemma reminder_scan w w' r :
  interviews_pk w ->
  for_each (select_ids (reminder_due env t) w)
    (fun id => discard_uncommitted (send_reminder id (reminder_at clock id))) w
  = (w', r) ->
  scanned is_reminder (select_ids (reminder_due env t) w) w w'.
Proof.
  intros Hpk. apply (scan_frame (fun id => reminded (reminder_at clock id)) is_reminder
                       (fun i => Interview.reminder_sent_at i = None)).
  - reflexivity.
  - intros id. apply reminded_ready.
  - intros id. apply send_reminder_touches.
  - now apply select_ids_NoDup.
  - intros i Hi Hsel. apply (select_ids_row _ _ _ Hpk Hi) in Hsel.
    unfold reminder_due in Hsel. rewrite !andb_true_iff in Hsel.
    now apply is_none_spec.
Qed.

Lemma feedback_request_scan w w' r :
  interviews_pk w ->
  for_each (select_ids (feedback_request_due env t) w)
    (fun id => discard_uncommitted (request_feedback id (request_at clock id))) w
  = (w', r) ->
  scanned is_feedback_request (select_ids (feedback_request_due env t) w) w w'.
Proof.
  intros Hpk. apply (scan_frame (fun id => feedback_asked (request_at clock id))
                       is_feedback_request
                       (fun i => Interview.feedback_requested_at i = None)).
  - reflexivity.
  - intros id. apply feedback_asked_ready.
  - intros id. apply request_feedback_touches.
  - now apply select_ids_NoDup.
  - intros i Hi Hsel. apply (select_ids_row _ _ _ Hpk Hi) in Hsel.
    unfold feedback_request_due in Hsel. rewrite !andb_true_iff in Hsel.
    now apply is_none_spec.
Qed.

Lemma consolidation_scan w w' r :
  interviews_pk w ->
  for_each (select_ids consolidation_due w)
    (fun id => discard_uncommitted (maybe_consolidate env id (consolidation_at clock id)) ;;
               ret tt) w = (w', r) ->
  scanned is_consolidation (select_ids consolidation_due w) w w'.
Proof.
  intros Hpk. apply (scan_frame (fun id => consolidated_row (consolidation_at clock id))
                       is_consolidation
                       (fun i => Interview.consolidated_at i = None)).
  - reflexivity.
  - intros id. apply consolidated_row_ready.
  - intros id. apply preserves_bind;
      [frame_goal | apply maybe_consolidate_touches | intros ?].
    apply preserves_ret; frame_goal.
  - now apply select_ids_NoDup.
  - intros i Hi Hsel. apply (select_ids_row _ _ _ Hpk Hi) in Hsel.
    unfold consolidation_due in Hsel. rewrite !andb_true_iff in Hsel.
    now apply is_none_spec.
Qed.

Lemma scanned_pk allowed ids w w' :
  scanned allowed ids w w' -> interviews_pk w -> interviews_pk w'.
Proof. intros (Hm & _) Hpk. unfold interviews_pk. now rewrite Hm. Qed.

End Tick.

Section TickScans.

Variables (env : Env) (t : datetime) (clock : ActionClock).

Lemma scanned_refl allowed ids w : scanned allowed ids w w.
Proof.
  repeat split; auto using markers_kept_refl.
  exists []. split; [now rewrite app_nil_r | constructor].
Qed.

(** A tick is its three scans, each on the store the one before left; a
    scan that is not reached leaves the store as it is. *)
Lemma tick_scans w w' r :
  interviews_pk w -> tick env t clock w = (w', r) ->
  exists w1 w2,
    scanned is_reminder (select_ids (reminder_due env t) w) w w1
    /\ scanned is_feedback_request (select_ids (feedback_request_due env t) w1) w1 w2
    /\ scanned is_consolidation (select_ids consolidation_due w2) w2 w'.
Proof.
  intros Hpk. unfold tick.
  unfold bind at 1, gets at 1. unfold bind at 1.
  destruct (for_each (select_ids (reminder_due env t) w) _ w) as [w1 [[] | e]] eqn:H1.
  2: { intros [= <- _]. exists w1, w1. split; [| split; apply scanned_refl].
       eapply reminder_scan; eauto. }
  pose proof (reminder_scan env t clock w w1 _ Hpk H1) as S1.
  pose proof (scanned_pk _ _ _ _ S1 Hpk) as Hpk1.
  unfold bind at 1, gets at 1. unfold bind at 1.
  destruct (for_each (select_ids (feedback_request_due env t) w1) _ w1)
    as [w2 [[] | e]] eqn:H2.
  2: { intros [= <- _]. exists w1, w2. split; [exact S1 |].
       split; [| apply scanned_refl]. eapply feedback_request_scan; eauto. }
  pose proof (feedback_request_scan env t clock w1 w2 _ Hpk1 H2) as S2.
  pose proof (scanned_pk _ _ _ _ S2 Hpk1) as Hpk2.
  unfold bind at 1, gets at 1.
  intros H3. exists w1, w2. split; [exact S1 |]. split; [exact S2 |].
  eapply consolidation_scan; eauto.
Qed.

End TickScans.

Section Steps.

Variable env : Env.

Lemma extends_stepped w w' :
  interviews_pk w -> extends booking_call w w' -> stepped w w'.
Proof.
  intros Hpk (Hpk' & Hk & sent & Hs & Hq). split; [auto |]. split; [assumption |].
  exists sent. split; [assumption |].
  intros e He Hc. rewrite Forall_forall in Hq. destruct (Hq e He) as [Hno _].
  congruence.
Qed.

(** A row of a later store, traced back through a scan. *)
Lemma scanned_back allowed ids w w' i' :
  interviews_pk w -> scanned allowed ids w w' -> In i' (interviews w') ->
  exists i, In i (interviews w) /\ row_le i i'.
Proof.
  intros Hpk S Hin'. pose proof (scanned_pk _ _ _ _ S Hpk) as Hpk'.
  destruct S as (Hm & _ & Hk & _).
  assert (Hid : In (Interview.id i') (map Interview.id (interviews w)))
    by (rewrite <- Hm; now apply in_map).
  apply in_map_iff in Hid. destruct Hid as (i & Hid & Hin).
  destruct (Hk i Hin) as (j & Hj & Hle).
  assert (j = i').
  { apply (pk_unique _ j i' Hpk' Hj Hin'). destruct Hle as [Hjid _]. congruence. }
  subst j. eauto.
Qed.

Lemma tick_stepped t clock w w' r :
  interviews_pk w -> tick env t clock w = (w', r) -> stepped w w'.
Proof.
  intros Hpk Hrun.
  destruct (tick_scans env t clock w w' r Hpk Hrun) as (w1 & w2 & S1 & S2 & S3).
  pose proof (scanned_pk _ _ _ _ S1 Hpk) as Hpk1.
  pose proof (scanned_pk _ _ _ _ S2 Hpk1) as Hpk2.
  pose proof (scanned_pk _ _ _ _ S3 Hpk2) as Hpk3.
  split; [assumption |].
  assert (K1 : markers_kept w w1) by (destruct S1; tauto).
  assert (K2 : markers_kept w1 w2) by (destruct S2; tauto).
  assert (K3 : markers_kept w2 w') by (destruct S3; tauto).
  split; [eauto using markers_kept_trans |].
  pose proof S1 as S1'. destruct S1' as (_ & _ & _ & _ & s1 & Hs1 & Hq1).
  pose proof S2 as S2'. destruct S2' as (_ & _ & _ & _ & s2 & Hs2 & Hq2).
  destruct S3 as (_ & _ & _ & _ & s3 & Hs3 & Hq3).
  exists (s1 ++ s2 ++ s3). split.
  { rewrite Hs3, Hs2, Hs1. now rewrite <- !app_assoc. }
  intros e He Hc. rewrite Forall_forall in Hq1, Hq2, Hq3.
  apply in_app_or in He. destruct He as [He | He].
  { destruct (Hq1 e He) as [_ Hr]. destruct (call e) as [? []|[]|]; discriminate. }
  apply in_app_or in He. destruct He as [He | He].
  { destruct (Hq2 e He) as [_ Hr]. destruct (call e) as [? []|[]|]; discriminate. }
  destruct (Hq3 e He) as [Hsel _].
  apply select_ids_In in Hsel. destruct Hsel as (i2 & Hi2 & Hid2 & Hdue).
  unfold consolidation_due in Hdue. apply andb_true_iff in Hdue.
  destruct Hdue as [_ Hnone]. apply is_none_spec in Hnone.
  destruct (scanned_back _ _ _ _ i2 Hpk1 S2 Hi2) as (i1 & Hi1 & Hle1).
  destruct (scanned_back _ _ _ _ i1 Hpk S1 Hi1) as (i & Hi & Hle).
  exists i. split; [assumption |].
  destruct Hle as (Hid & _ & _ & Hc0), Hle1 as (Hid1 & _ & _ & Hc1).
  split; [congruence |].
  destruct (Interview.consolidated_at i) as [v|] eqn:Hv; [| reflexivity].
  specialize (Hc0 v eq_refl). specialize (Hc1 v Hc0). congruence.
Qed.

End Steps.

(* ===================================================================== *)
(** * Further properties of the code *)

(** ** timeutil.py and calendar.py *)

(** X1. For a window that starts on a whole second, a positive step and a
    non-empty participant list, [find_common_slot] is a first-fit search of
    the grid points of the window: a returned slot has the requested length,
    lies inside the window, starts on the grid and is free for every
    participant, and no grid point of the window before it is; when it
    returns none, no grid point of the window fits. *)
Theorem find_common_slot_is_first_fit (blocks : list CalendarBlock.t)
    (user_ids : list Z) (w : TimeWindow) (duration_minutes step_minutes : Z) :
  0 < step_minutes -> user_ids <> [] -> (MICROSECOND | tw_start w) ->
  match find_common_slot blocks user_ids w duration_minutes step_minutes with
  | Some (s, e) =>
      e = s + minutes duration_minutes
      /\ inside w s e
      /\ on_grid step_minutes s
      /\ feasible blocks user_ids s e
      /\ forall t, on_grid step_minutes t -> tw_start w <= t < s ->
           ~ feasible blocks user_ids t (t + minutes duration_minutes)
  | None =>
      forall t, on_grid step_minutes t ->
        inside w t (t + minutes duration_minutes) ->
        ~ feasible blocks user_ids t (t + minutes duration_minutes)
  end.
Proof. apply find_common_slot_first_fit. Qed.

(** The first scenario of the smoke test: all three users, six hours from
    [base], one hour. *)
Lemma find_common_slot_is_first_fit_witness :
  find_common_slot (calendar_blocks seed_store) [1; 2; 3] demo_window 60 15
  = Some (base, base + minutes 60)
  /\ inside demo_window base (base + minutes 60).
Proof.
  assert (E : find_common_slot (calendar_blocks seed_store) [1; 2; 3] demo_window 60 15
              = Some (base, base + minutes 60)) by (vm_compute; reflexivity).
  assert (Hne : [1; 2; 3] <> []) by discriminate.
  assert (Hsec : (MICROSECOND | tw_start demo_window)).
  { exists 1767261600. vm_compute. reflexivity. }
  pose proof (find_common_slot_is_first_fit (calendar_blocks seed_store) [1; 2; 3]
                demo_window 60 15 eq_refl Hne Hsec) as H.
  rewrite E in H. split; [exact E | apply H].
Defined.

(** X2. [ceil_to_minutes] with a positive step returns a multiple of the
    step that is less than one step after [dt] and less than one second
    before it; it is at most every multiple of the step that is not before
    [dt]; it is not before [dt] when [dt] is a whole number of seconds; and
    it is [dt] when [dt] is a multiple of the step. *)
Theorem ceil_to_minutes_snaps (dt mins : Z) :
  0 < mins ->
  (minutes mins | ceil_to_minutes dt mins)
  /\ dt - MICROSECOND < ceil_to_minutes dt mins < dt + minutes mins
  /\ (forall g, (minutes mins | g) -> dt <= g -> ceil_to_minutes dt mins <= g)
  /\ ((MICROSECOND | dt) -> dt <= ceil_to_minutes dt mins)
  /\ ((minutes mins | dt) -> ceil_to_minutes dt mins = dt).
Proof.
  intros Hm.
  pose proof (ceil_to_minutes_on_grid dt mins Hm) as Hgrid.
  pose proof (ceil_to_minutes_bounds dt mins Hm) as Hb.
  pose proof (minutes_pos mins Hm) as Hp.
  assert (Hleast : forall g, (minutes mins | g) -> dt <= g -> ceil_to_minutes dt mins <= g).
  { intros g [a Ha] Hg. destruct Hgrid as [c Hc]. rewrite Hc in *. subst g.
    assert (c < a + 1) by (apply (Z.mul_lt_mono_pos_r (minutes mins)); lia).
    apply Z.mul_le_mono_nonneg_r; lia. }
  repeat split; try tauto.
  - apply ceil_to_minutes_whole_second; assumption.
  - intros Hdt. apply Z.le_antisymm.
    + apply Hleast; [assumption | lia].
    + apply ceil_to_minutes_whole_second; [assumption |].
      destruct Hdt as [k Hk]. exists (k * (mins * 60)). subst dt.
      unfold minutes. ring.
Qed.

(** 10:07:30 snaps to 10:15 with a step of fifteen minutes. *)
Lemma ceil_to_minutes_snaps_witness :
  ceil_to_minutes (base + minutes 7 + 30 * MICROSECOND) 15 <= base + minutes 15.
Proof.
  refine (proj1 (proj2 (proj2 (ceil_to_minutes_snaps
            (base + minutes 7 + 30 * MICROSECOND) 15 _))) (base + minutes 15) _ _).
  - reflexivity.
  - exists 1963625. vm_compute. reflexivity.
  - vm_compute. discriminate.
Defined.

Section Slots.

Variables (blocks : list CalendarBlock.t) (user_ids : list Z).
Variables (end_ duration step : timedelta) (limit : Z).
Hypothesis step_pos : 0 < step.



Lemma scan_slots_terminates (fuel : nat) (acc : list (datetime * datetime))
    (cursor : datetime) :
  (Z.to_nat ((end_ - duration - cursor) / step + 1) < fuel)%nat ->
  exists r, scan_slots fuel blocks user_ids end_ duration step limit acc cursor = Some r.
Proof.
  revert acc cursor. induction fuel as [|n IH]; intros acc cursor Hfuel; [lia |].
  simpl. destruct (cursor + duration <=? end_) eqn:Hc; [| simpl; eauto].
  destruct (Z.of_nat (List.length acc) <? limit); simpl; [| eauto].
  apply Z.leb_le in Hc.
  assert (Hge : 0 <= (end_ - duration - cursor) / step) by (apply Z.div_pos; lia).
  apply IH.
  replace (end_ - duration - (cursor + step))
    with ((end_ - duration - cursor) + (-1) * step) by ring.
  rewrite Z.div_add by lia. lia.
Qed.

(** What the collecting loop adds to the slots it starts with. *)
Lemma scan_slots_spec (fuel : nat) (acc res : list (datetime * datetime))
    (cursor : datetime) :
  scan_slots fuel blocks user_ids end_ duration step limit acc cursor = Some res ->
  exists new,
    res = acc ++ new
    /\ (forall s e, In (s, e) new ->
          exists k, 0 <= k /\ s = cursor + k * step /\ e = s + duration
                    /\ e <= end_ /\ feasible blocks user_ids s e)
    /\ StronglySorted (fun a b => fst a < fst b) new
    /\ Z.of_nat (List.length res) <= Z.max (Z.of_nat (List.length acc)) limit
    /\ (forall j, 0 <= j -> cursor + j * step + duration <= end_ ->
          feasible blocks user_ids (cursor + j * step) (cursor + j * step + duration) ->
          In (cursor + j * step, cursor + j * step + duration) new
          \/ (limit <= Z.of_nat (List.length res)
              /\ forall s e, In (s, e) new -> s < cursor + j * step)).
Proof.
  revert acc res cursor. induction fuel as [|n IH]; intros acc res cursor H;
    [discriminate |].
  simpl in H.
  destruct (cursor + duration <=? end_) eqn:Hc;
    [destruct (Z.of_nat (List.length acc) <? limit) eqn:Hl |]; simpl in H.
  - apply Z.leb_le in Hc. apply Z.ltb_lt in Hl.
    destruct (all_free blocks user_ids cursor (cursor + duration)) eqn:Hfree.
    + destruct (IH _ _ _ H) as (new & -> & Hel & Hsort & Hlen & Hall).
      exists ((cursor, cursor + duration) :: new).
      rewrite <- app_assoc. split; [reflexivity |]. split; [| split; [| split]].
      * intros s e [[= <- <-] | Hin].
        -- exists 0. repeat split; try lia. now apply all_free_spec.
        -- destruct (Hel s e Hin) as (k & Hk & -> & He & Hend & Hf).
           exists (k + 1). repeat split; try lia. assumption.
      * constructor; [assumption |]. apply Forall_forall. intros [s e] Hin.
        destruct (Hel s e Hin) as (k & Hk & -> & _). simpl. nia.
      * rewrite !length_app in *. simpl in *. lia.
      * intros j Hj Hfit Hfeas. destruct (Z.eq_dec j 0) as [-> | Hj0].
        -- left. left. f_equal; lia.
        -- assert (E : cursor + step + (j - 1) * step = cursor + j * step) by ring.
           specialize (Hall (j - 1)). rewrite E in Hall.
           destruct Hall as [Hin | [Hfull Hlt]]; try assumption; try lia.
           ++ left. now right.
           ++ right. rewrite <- app_assoc in Hfull. split; [exact Hfull |].
              intros s e [[= <- <-] | Hin]; [nia | exact (Hlt s e Hin)].
    + destruct (IH _ _ _ H) as (new & -> & Hel & Hsort & Hlen & Hall).
      exists new. split; [reflexivity |]. split; [| split; [| split]]; auto.
      * intros s e Hin. destruct (Hel s e Hin) as (k & Hk & -> & He & Hend & Hf).
        exists (k + 1). repeat split; try lia. assumption.
      * intros j Hj Hfit Hfeas. destruct (Z.eq_dec j 0) as [-> | Hj0].
        -- exfalso. apply all_free_false in Hfree. apply Hfree.
           rewrite Z.mul_0_l, Z.add_0_r in Hfeas. exact Hfeas.
        -- assert (E : cursor + step + (j - 1) * step = cursor + j * step) by ring.
           specialize (Hall (j - 1)). rewrite E in Hall.
           destruct Hall as [Hin | [Hfull Hlt]]; try assumption; try lia.
           ++ now left.
           ++ right. split; [exact Hfull | exact Hlt].
  - injection H as <-. apply Z.ltb_ge in Hl.
    exists []. rewrite app_nil_r. split; [reflexivity |].
    split; [intros s e [] |]. split; [constructor |]. split; [lia |].
    intros j Hj Hfit Hfeas. right. split; [lia | intros s e []].
  - injection H as <-. apply Z.leb_gt in Hc.
    exists []. rewrite app_nil_r. split; [reflexivity |].
    split; [intros s e [] |]. split; [constructor |]. split; [lia |].
    intros j Hj Hfit Hfeas. exfalso. nia.
Qed.

(** With room for one slot at least, the collecting loop starts with the
    slot that the searching loop returns. *)
Lemma scan_slots_head (fuel : nat) (res : list (datetime * datetime)) (cursor : datetime) :
  0 < limit ->
  scan_slots fuel blocks user_ids end_ duration step limit [] cursor = Some res ->
  scan_slot fuel blocks user_ids end_ duration step cursor = Some (hd_error res).
Proof.
  intros Hlim. revert cursor. induction fuel as [|n IH]; intros cursor H; [discriminate |].
  simpl in H. simpl.
  destruct (cursor + duration <=? end_) eqn:Hc; simpl in H.
  - replace (0 <? limit) with true in H by (symmetry; apply Z.ltb_lt; lia).
    destruct (all_free blocks user_ids cursor (cursor + duration)) eqn:Hfree.
    + apply scan_slots_spec in H. destruct H as (new & -> & _). reflexivity.
    + apply IH. exact H.
  - injection H as <-. reflexivity.
Qed.

End Slots.

Section FindCommonSlots.

Variables (blocks : list CalendarBlock.t) (user_ids : list Z) (w : TimeWindow).
Variables (duration_minutes limit step_minutes : Z).
Hypothesis step_pos : 0 < step_minutes.

Local Abbreviation cursor := (ceil_to_minutes (tw_start w) step_minutes).

(** With a positive step the collecting loop ends within its fuel. *)
Lemma find_common_slots_returns :
  0 < limit -> user_ids <> [] ->
  scan_slots (scan_fuel (tw_end w) (minutes duration_minutes) (minutes step_minutes) cursor)
    blocks user_ids (tw_end w) (minutes duration_minutes) (minutes step_minutes)
    limit [] cursor
  = Some (find_common_slots blocks user_ids w duration_minutes limit step_minutes).
Proof.
  intros Hlim Hne.
  destruct (scan_slots_terminates blocks user_ids (tw_end w) (minutes duration_minutes)
              (minutes step_minutes) limit (minutes_pos _ step_pos)
              (scan_fuel (tw_end w) (minutes duration_minutes) (minutes step_minutes) cursor)
              [] cursor) as [r Hr].
  { unfold scan_fuel. lia. }
  unfold find_common_slots, ensure_aware.
  replace (limit <=? 0) with false by (symmetry; apply Z.leb_gt; lia).
  destruct user_ids; [congruence |]. now rewrite Hr.
Qed.

End FindCommonSlots.

(** X3. With a positive step and a non-empty participant list,
    [find_common_slots] returns at most [limit] slots, in strictly
    increasing order of start; each has the requested length, ends inside
    the window, starts on the grid at or after the snapped start of the
    window and is free for every participant; and no fitting grid point is
    passed over: one that is not returned lies after all returned slots, and
    then the limit is reached. *)
Theorem find_common_slots_lists_first_fits (blocks : list CalendarBlock.t)
    (user_ids : list Z) (w : TimeWindow) (duration_minutes limit step_minutes : Z) :
  0 < step_minutes -> user_ids <> [] ->
  let slots := find_common_slots blocks user_ids w duration_minutes limit step_minutes in
  let cursor := ceil_to_minutes (tw_start w) step_minutes in
  Z.of_nat (List.length slots) <= Z.max 0 limit
  /\ StronglySorted (fun a b => fst a < fst b) slots
  /\ (forall s e, In (s, e) slots ->
        e = s + minutes duration_minutes /\ e <= tw_end w
        /\ on_grid step_minutes s /\ cursor <= s
        /\ feasible blocks user_ids s e)
  /\ (forall t, on_grid step_minutes t -> cursor <= t ->
        t + minutes duration_minutes <= tw_end w ->
        feasible blocks user_ids t (t + minutes duration_minutes) ->
        In (t, t + minutes duration_minutes) slots
        \/ (limit <= Z.of_nat (List.length slots)
            /\ forall s e, In (s, e) slots -> s < t)).
Proof.
  intros Hstep Hne slots cursor.
  destruct (Z.le_gt_cases limit 0) as [Hlim | Hlim].
  - assert (Hnil : slots = []).
    { subst slots. unfold find_common_slots.
      now replace (limit <=? 0) with true by (symmetry; apply Z.leb_le; lia). }
    rewrite Hnil. simpl. split; [lia |]. split; [constructor |].
    split; [intros s e [] |].
    intros g _ _ _ _. right. split; [lia | intros s e []].
  - pose proof (find_common_slots_returns blocks user_ids w duration_minutes limit
                  step_minutes Hstep ltac:(lia) Hne) as Hrun.
    fold slots in Hrun. fold cursor in Hrun.
    apply scan_slots_spec in Hrun; [| now apply minutes_pos].
    destruct Hrun as (new & Hres & Hel & Hsort & Hlen & Hall).
    simpl in Hres. subst new. simpl in Hlen.
    destruct (ceil_to_minutes_on_grid (tw_start w) step_minutes Hstep) as [c Hc].
    fold cursor in Hc. pose proof (minutes_pos _ Hstep) as Hp.
    split; [lia |]. split; [assumption |]. split.
    + intros s e Hin. destruct (Hel s e Hin) as (k & Hk & Hs & He & Hend & Hf).
      repeat split; auto; [| nia]. exists (c + k). lia.
    + intros t [a Ha] Hle Hfit Hfeas.
      assert (Hj : exists j, 0 <= j /\ t = cursor + j * minutes step_minutes).
      { exists (a - c). split; [nia | lia]. }
      destruct Hj as (j & Hj & ->). now apply Hall.
Qed.

(** The options of the second smoke test: three slots at most. *)
Lemma find_common_slots_lists_first_fits_witness :
  Z.of_nat (List.length
              (find_common_slots (calendar_blocks seed_store) [1; 2; 3] demo_window 60 3 15))
  <= 3.
Proof.
  refine (proj1 (find_common_slots_lists_first_fits (calendar_blocks seed_store)
                   [1; 2; 3] demo_window 60 3 15 _ _)).
  - reflexivity.
  - discriminate.
Defined.

(** X4. With a positive step and a positive limit, the first slot of
    [find_common_slots] is the slot of [find_common_slot], and the list is
    empty exactly when [find_common_slot] returns none. *)
Theorem find_common_slots_starts_with_common_slot (blocks : list CalendarBlock.t)
    (user_ids : list Z) (w : TimeWindow) (duration_minutes limit step_minutes : Z) :
  0 < step_minutes -> 0 < limit ->
  hd_error (find_common_slots blocks user_ids w duration_minutes limit step_minutes)
  = find_common_slot blocks user_ids w duration_minutes step_minutes.
Proof.
  intros Hstep Hlim.
  destruct user_ids as [|u us] eqn:Hids.
  - unfold find_common_slots, find_common_slot. now destruct (limit <=? 0).
  - rewrite <- Hids. assert (Hne : user_ids <> []) by congruence.
    pose proof (find_common_slots_returns blocks user_ids w duration_minutes limit
                  step_minutes Hstep Hlim Hne) as Hrun.
    apply scan_slots_head in Hrun; try assumption; try (now apply minutes_pos).
    destruct (find_common_slot_returns blocks user_ids w duration_minutes step_minutes
                Hstep Hne) as (r & Hscan & Hr).
    rewrite Hscan in Hrun. injection Hrun as ->. now rewrite Hids in *.
Qed.

Lemma find_common_slots_starts_with_common_slot_witness :
  hd_error (find_common_slots (calendar_blocks seed_store) [1; 2; 3] demo_window 60 3 15)
  = Some (base, base + minutes 60).
Proof.
  rewrite (find_common_slots_starts_with_common_slot (calendar_blocks seed_store)
             [1; 2; 3] demo_window 60 3 15 eq_refl eq_refl).
  vm_compute. reflexivity.
Defined.

Section BusyBlocks.

Lemma insert_by_start_perm b l : Permutation (b :: l) (insert_by_start b l).
Proof.
  induction l as [|x l IH]; simpl; [reflexivity |].
  destruct (CalendarBlock.start b <=? CalendarBlock.start x); [reflexivity |].
  rewrite perm_swap. now apply perm_skip.
Qed.

Lemma order_by_start_perm l : Permutation l (order_by_start l).
Proof.
  induction l as [|x l IH]; simpl; [constructor |].
  rewrite <- insert_by_start_perm. now apply perm_skip.
Qed.

Lemma insert_by_start_sorted b l :
  Sorted (fun x y => CalendarBlock.start x <= CalendarBlock.start y) l ->
  Sorted (fun x y => CalendarBlock.start x <= CalendarBlock.start y)
    (insert_by_start b l).
Proof.
  induction l as [|x l IH]; simpl; intros Hs; [repeat constructor |].
  destruct (Z.leb_spec (CalendarBlock.start b) (CalendarBlock.start x)) as [Hle | Hgt].
  - constructor; [assumption | constructor; assumption].
  - inversion Hs as [|? ? Hs' Hhd]; subst. constructor; [now apply IH |].
    destruct l as [|y l]; simpl.
    + constructor. lia.
    + destruct (Z.leb_spec (CalendarBlock.start b) (CalendarBlock.start y));
        constructor; [lia |]. inversion Hhd; subst. assumption.
Qed.

Lemma order_by_start_sorted l :
  Sorted (fun x y => CalendarBlock.start x <= CalendarBlock.start y) (order_by_start l).
Proof.
  induction l as [|x l IH]; simpl; [constructor | now apply insert_by_start_sorted].
Qed.

End BusyBlocks.

(** X5. [get_busy_blocks] returns, in ascending order of start, exactly the
    calendar blocks of the user that meet the window (by the test of
    [overlaps]); and [is_user_free] holds of an interval exactly when
    [get_busy_blocks] finds nothing in it. *)
Theorem busy_blocks_and_freedom (blocks : list CalendarBlock.t) (uid : Z)
    (window : TimeWindow) :
  Sorted (fun x y => CalendarBlock.start x <= CalendarBlock.start y)
    (get_busy_blocks blocks uid window)
  /\ (forall b, In b (get_busy_blocks blocks uid window)
        <-> In b blocks /\ CalendarBlock.user_id b = uid
            /\ overlaps (CalendarBlock.start b) (CalendarBlock.end_ b)
                 (tw_start window) (tw_end window) = true)
  /\ (is_user_free blocks uid (tw_start window) (tw_end window) = true
      <-> get_busy_blocks blocks uid window = []).
Proof.
  unfold get_busy_blocks. split; [apply order_by_start_sorted |].
  assert (Hmem : forall b, In b (order_by_start (filter (busy_in uid window) blocks))
                           <-> In b (filter (busy_in uid window) blocks)).
  { intros b. split; apply Permutation_in;
      [symmetry |]; apply order_by_start_perm. }
  split.
  - intros b. rewrite Hmem, filter_In. unfold busy_in, overlaps.
    rewrite !andb_true_iff, Z.eqb_eq, !Z.ltb_lt, Z.gtb_lt. tauto.
  - unfold is_user_free, ensure_aware.
    destruct (find _ blocks) as [b|] eqn:Hf; split; intros H; try discriminate.
    + exfalso. apply find_some in Hf.
      assert (Hin : In b (order_by_start (filter (busy_in uid window) blocks))).
      { apply Hmem, filter_In. exact Hf. }
      rewrite H in Hin. contradiction.
    + destruct (order_by_start _) as [|b l] eqn:Ho; [reflexivity |].
      exfalso. assert (Hin : In b (filter (busy_in uid window) blocks)).
      { apply Hmem. now left. }
      apply filter_In in Hin. destruct Hin as [Hin Hb].
      pose proof (find_none _ _ Hf b Hin) as Hno.
      unfold blocks_user in Hno. unfold busy_in in Hb. congruence.
    + reflexivity.
Qed.

Lemma find_append {X} (p : X -> bool) (l l' : list X) :
  find p (l ++ l') = match find p l with Some x => Some x | None => find p l' end.
Proof.
  induction l as [|x l IH]; simpl; [reflexivity |].
  destruct (p x); [reflexivity | exact IH].
Qed.

(** X6. After [block_time] for a user, the user is not free in any interval
    that meets the blocked one; the user's freedom in intervals that do not
    meet it, and the freedom of every other user, are as before. *)
Theorem block_time_blocks_the_interval (blocks : list CalendarBlock.t) (uid : Z)
    (s e : datetime) (title : string) (uid' : Z) (s' e' : datetime) :
  let blocks' := block_time blocks uid s e title in
  (uid' = uid -> s < e' -> s' < e -> is_user_free blocks' uid' s' e' = false)
  /\ (uid' <> uid \/ e' <= s \/ e <= s' ->
      is_user_free blocks' uid' s' e' = is_user_free blocks uid' s' e').
Proof.
  intros blocks'. subst blocks'. unfold block_time, is_user_free, ensure_aware.
  rewrite find_append. unfold blocks_user at 2 4. simpl.
  split.
  - intros -> Hs He. destruct (find _ blocks); [reflexivity |].
    rewrite Z.eqb_refl.
    replace (s <? e') with true by (symmetry; apply Z.ltb_lt; lia).
    replace (e >? s') with true by (symmetry; rewrite Z.gtb_lt; lia).
    reflexivity.
  - intros H. destruct (find _ blocks); [reflexivity |].
    destruct (Z.eqb_spec uid uid') as [Heq | Hne]; [| reflexivity].
    destruct H as [H | [H | H]]; [congruence | |].
    + replace (s <? e') with false by (symmetry; apply Z.ltb_ge; lia). reflexivity.
    + replace (e >? s') with false
        by (symmetry; rewrite Z.gtb_ltb; apply Z.ltb_ge; lia).
      now rewrite andb_false_r.
Qed.

(** ** orchestrator.py *)








Section Upsert.

Context {X : Type}.
Variables (p : X -> bool) (f : X -> X).

Lemma filter_map_hit (l : list X) :
  (forall x, p x = true -> p (f x) = true) ->
  filter p (map (fun x => if p x then f x else x) l) = map f (filter p l).
Proof.
  intros Hp. induction l as [|x l IH]; simpl; [reflexivity |].
  destruct (p x) eqn:E; [rewrite (Hp x E) | rewrite E]; simpl; now rewrite IH.
Qed.

Lemma filter_map_miss (q : X -> bool) (l : list X) :
  (forall x, p x = true -> q x = false /\ q (f x) = false) ->
  filter q (map (fun x => if p x then f x else x) l) = filter q l.
Proof.
  intros Hq. induction l as [|x l IH]; simpl; [reflexivity |].
  destruct (p x) eqn:E.
  - destruct (Hq x E) as [-> ->]. exact IH.
  - destruct (q x); now rewrite IH.
Qed.

Lemma existsb_filter_nil (l : list X) :
  filter p l = [] -> existsb p l = false.
Proof.
  induction l as [|x l IH]; simpl; [reflexivity |].
  destruct (p x); [discriminate | exact IH].
Qed.

End Upsert.

Lemma submit_feedback_run (env : Env) (tok dec com : string) (now : datetime)
    (w : Store) (iid uid : Z) (iv : Interview.t) (d : FeedbackDecision.t) :
  parse_token env tok = Some (iid, uid) ->
  find (fun i => Interview.id i =? iid) (interviews w) = Some iv ->
  dec_map dec = Some d ->
  (List.length (feedback_by iid uid w) <= 1)%nat ->
  exists rows,
    submit_feedback env tok dec com now w = (with_feedback rows w, Ok tt)
    /\ feedback_by iid uid (with_feedback rows w) = [Feedback.mk iid uid d com now]
    /\ (forall i u, (i, u) <> (iid, uid) ->
          feedback_by i u (with_feedback rows w) = feedback_by i u w)
    /\ List.length rows
       = (List.length (feedback w) + (1 - List.length (feedback_by iid uid w)))%nat.
Proof.
  intros Htok Hiv Hdec Huq.
  unfold submit_feedback, transactional. rewrite Htok.
  unfold bind at 1, get_interview, gets at 1. rewrite Hiv, Hdec.
  unfold bind at 1, gets at 1.
  assert (Hother : forall i u, (i, u) <> (iid, uid) ->
            ((i =? iid) && (u =? uid)) = false).
  { intros i u Hne. destruct (Z.eqb_spec i iid), (Z.eqb_spec u uid); subst; try reflexivity.
    now contradiction Hne. }
  destruct (feedback_by iid uid w) as [|x [|y rest]] eqn:Hrows.
  - exists (feedback w ++ [Feedback.mk iid uid d com now]).
    unfold bind, scalar_one_or_none, ret, add_feedback.
    cbn [Feedback.interview_id Feedback.user_id].
    rewrite (existsb_filter_nil _ _ Hrows).
    split; [reflexivity |]. unfold feedback_by in *. store_simpl.
    split; [| split].
    + rewrite filter_app, Hrows. simpl. now rewrite !Z.eqb_refl.
    + intros i u Hne. rewrite filter_app. simpl.
      assert (E : ((iid =? i) && (uid =? u)) = false).
      { rewrite (Z.eqb_sym iid), (Z.eqb_sym uid). now apply Hother. }
      rewrite E. apply app_nil_r.
    + rewrite length_app. simpl. lia.
  - exists (map (fun g => if (Feedback.interview_id g =? iid) && (Feedback.user_id g =? uid)
                          then Feedback.mk iid uid d com now else g) (feedback w)).
    unfold bind, scalar_one_or_none, ret, update_feedback, modify.
    split; [reflexivity |]. unfold feedback_by in *. store_simpl.
    split; [| split].
    + rewrite (filter_map_hit _ (fun _ => Feedback.mk iid uid d com now)).
      * now rewrite Hrows.
      * intros g _. simpl. now rewrite !Z.eqb_refl.
    + intros i u Hne.
      apply (filter_map_miss _ (fun _ => Feedback.mk iid uid d com now)).
      intros g Hg. apply andb_true_iff in Hg. destruct Hg as [Hi Hu].
      apply Z.eqb_eq in Hi, Hu. simpl. rewrite Hi, Hu.
      rewrite (Z.eqb_sym iid), (Z.eqb_sym uid), (Hother i u Hne). now split.
    + rewrite length_map. simpl. lia.
  - simpl in Huq. lia.
Qed.

(** X12. [submit_feedback] with a token that parses to an existing interview
    and with a decision of the map, on a store with at most one Feedback row
    for that interview and user, succeeds; afterwards there is exactly one
    row for them, holding the decision, the comment and the time of this
    submission, so a second submission replaces the first; the rows of every
    other interview or user are as before, the table has grown by one row
    only if there was none, and no other table has changed. *)
Theorem submit_feedback_upserts (env : Env) (tok dec com : string) (now : datetime)
    (w : Store) (iid uid : Z) (iv : Interview.t) (d : FeedbackDecision.t) :
  parse_token env tok = Some (iid, uid) ->
  find (fun i => Interview.id i =? iid) (interviews w) = Some iv ->
  dec_map dec = Some d ->
  (List.length (feedback_by iid uid w) <= 1)%nat ->
  exists rows,
    submit_feedback env tok dec com now w = (with_feedback rows w, Ok tt)
    /\ feedback_by iid uid (with_feedback rows w) = [Feedback.mk iid uid d com now]
    /\ (forall i u, (i, u) <> (iid, uid) ->
          feedback_by i u (with_feedback rows w) = feedback_by i u w)
    /\ List.length rows
       = (List.length (feedback w) + (1 - List.length (feedback_by iid uid w)))%nat.
Proof. apply submit_feedback_run. Qed.

(** The first interviewer of the smoke test changes a vote. *)
Lemma submit_feedback_upserts_witness :
  exists rows,
    submit_feedback demo_env "token-1-1" "fail" "changed my mind" (base + minutes 75) feedback_store
    = (with_feedback rows feedback_store, Ok tt)
    /\ List.length rows = List.length (feedback feedback_store).
Proof.
  destruct (submit_feedback_upserts demo_env "token-1-1" "fail" "changed my mind" (base + minutes 75)
              feedback_store 1 1 demo_interview FeedbackDecision.fail)
    as (rows & Hrun & _ & _ & Hlen).
  - vm_compute. reflexivity.
  - vm_compute. reflexivity.
  - reflexivity.
  - vm_compute. lia.
  - exists rows. split; [exact Hrun |]. rewrite Hlen.
    replace (List.length (feedback_by 1 1 feedback_store)) with 1%nat by (vm_compute; reflexivity).
    lia.
Defined.

(** The options added for a request: one per slot, in the order of the
    slots, each owned by the request and with an id above those in use. *)
Lemma add_options_ok (rid : Z) (slots : list (datetime * datetime)) :
  forall w w' opts,
    add_options rid slots w = (w', Ok opts) ->
    w' = with_scheduling_options (scheduling_options w ++ opts) w
    /\ map (fun o => (SchedulingOption.start o, SchedulingOption.end_ o)) opts = slots
    /\ Forall (fun o => SchedulingOption.request_id o = rid) opts
    /\ Forall (fun o => forall x, In x (map SchedulingOption.id (scheduling_options w)) ->
                          x < SchedulingOption.id o) opts.
Proof.
  induction slots as [|[s e] rest IH]; intros w w' opts H; cbn [add_options] in H.
  - injection H as <- <-. rewrite app_nil_r. repeat split; try constructor.
    now destruct w.
  - apply bind_ok in H. destruct H as (w1 & o & Hadd & H).
    apply bind_ok in H. destruct H as (w2 & os & Hrest & H).
    injection H as <- <-.
    unfold add_option in Hadd. destruct (existsb _ _); [discriminate |].
    injection Hadd as <- <-.
    destruct (IH _ _ _ Hrest) as (-> & Hmap & Hown & Hfresh). store_simpl.
    split; [| split; [| split]].
    + apply store_ext; store_simpl; try reflexivity.
      now rewrite <- app_assoc.
    + cbn [map SchedulingOption.start SchedulingOption.end_]. now rewrite Hmap.
    + constructor; [reflexivity | assumption].
    + constructor.
      * cbn [SchedulingOption.id]. apply next_id_fresh.
      * eapply Forall_impl; [| exact Hfresh]. cbn beta. intros o Ho x Hx. apply Ho.
        rewrite map_app. apply in_or_app. now left.
Qed.

Lemma propose_schedule_ok rn re c j ids tw d lim now (w w' : Store)
    (res : ProposalResult) :
  propose_schedule rn re c j ids tw d lim now w = (w', Ok res) ->
  (exists cand, find (fun x => Candidate.id x =? c) (candidates w) = Some cand)
  /\ ids <> []
  /\ List.length (users_in ids w) = len_set ids
  /\ request res
     = SchedulingRequest.mk (next_id (map SchedulingRequest.id (scheduling_requests w)))
         now rn re c j d SchedulingRequestStatus.proposed None None
  /\ map (fun o => (SchedulingOption.start o, SchedulingOption.end_ o)) (options res)
     = find_common_slots (calendar_blocks w) ids tw d lim 15
  /\ options res <> []
  /\ Forall (fun o => SchedulingOption.request_id o = SchedulingRequest.id (request res))
       (options res)
  /\ Forall (fun o => forall x, In x (map SchedulingOption.id (scheduling_options w)) ->
                        x < SchedulingOption.id o) (options res)
  /\ w' = with_scheduling_options (scheduling_options w ++ options res)
            (with_scheduling_requests (scheduling_requests w ++ [request res]) w).
Proof.
  intros H. apply transactional_ok in H. revert H.
  unfold bind at 1, get_candidate, gets at 1.
  destruct (find _ (candidates w)) as [cand|]; [| discriminate].
  destruct ids as [|id0 ids'] eqn:Hids; [discriminate |]. rewrite <- Hids. cbn [is_nil].
  assert (Hne : ids <> []) by congruence.
  replace (is_nil ids) with false by (rewrite Hids; reflexivity).
  unfold bind at 1, gets at 1.
  destruct (Nat.eqb_spec (List.length (users_in ids w)) (len_set ids)) as [Hlen | Hlen];
    [| discriminate]. cbn [negb].
  unfold bind at 1, gets at 1.
  destruct (find_common_slots _ _ _ _ _ _) as [|slot slots] eqn:Hslots; [discriminate |].
  cbn [is_nil]. intros H.
  apply bind_ok in H. destruct H as (w1 & req & Hadd & H).
  apply bind_ok in H. destruct H as (w2 & opts & Hopts & H).
  injection H as <- <-. cbn [request options].
  unfold add_request in Hadd. injection Hadd as <- <-.
  destruct (add_options_ok _ _ _ _ _ Hopts) as (-> & Hmap & Hown & Hfresh).
  store_simpl.
  repeat split; eauto.
  - destruct opts; [discriminate | discriminate].
Qed.

(** X13. A successful [propose_schedule] found the candidate and all the
    listed users; its request is new, in status proposed, with no option
    chosen and no interview; its options are the slots of
    [find_common_slots] with a step of fifteen minutes, in that order, at
    least one, each owned by the request; and the store differs from the one
    before by that request and those options only: no interview is created,
    no time is blocked and nothing is sent. *)
Theorem propose_schedule_proposes rn re c j ids tw d lim now (w w' : Store)
    (res : ProposalResult) :
  propose_schedule rn re c j ids tw d lim now w = (w', Ok res) ->
  (exists cand, find (fun x => Candidate.id x =? c) (candidates w) = Some cand)
  /\ ids <> []
  /\ List.length (users_in ids w) = len_set ids
  /\ request res
     = SchedulingRequest.mk (next_id (map SchedulingRequest.id (scheduling_requests w)))
         now rn re c j d SchedulingRequestStatus.proposed None None
  /\ map (fun o => (SchedulingOption.start o, SchedulingOption.end_ o)) (options res)
     = find_common_slots (calendar_blocks w) ids tw d lim 15
  /\ options res <> []
  /\ Forall (fun o => SchedulingOption.request_id o = SchedulingRequest.id (request res))
       (options res)
  /\ w' = with_scheduling_options (scheduling_options w ++ options res)
            (with_scheduling_requests (scheduling_requests w ++ [request res]) w).
Proof.
  intros H. apply propose_schedule_ok in H.
  destruct H as (Hc & Hne & Hus & Hreq & Hslots & Hsome & Hown & _ & Hw).
  repeat split; assumption.
Qed.

(** The proposal of the second smoke test offers the slots that
    [find_common_slots] lists on the seeded store. *)
Lemma propose_schedule_proposes_witness :
  map (fun o => (SchedulingOption.start o, SchedulingOption.end_ o))
    (scheduling_options proposed_store)
  = find_common_slots (calendar_blocks seed_store) [1; 2; 3] demo_window 60 3 15.
Proof.
  destruct (propose_schedule "Recruiter" "recruiter@example.com" 1 "Backend Engineer"
              [1; 2; 3] demo_window 60 3 (base - minutes 115) seed_store)
    as [w' [res | e]] eqn:Hrun; [| vm_compute in Hrun; discriminate].
  assert (Hw : proposed_store = w') by (unfold proposed_store; now rewrite Hrun).
  destruct (propose_schedule_proposes _ _ _ _ _ _ _ _ _ _ _ _ Hrun)
    as (_ & _ & _ & _ & Hslots & _ & _ & Hstore).
  rewrite Hw, Hstore, <- Hslots. reflexivity.
Defined.

(** ** Approval, run forward *)

Lemma add_participants_run (iid : Z) (ids : list Z) :
  forall w,
    NoDup ids ->
    (forall p, In p (interview_participants w) ->
       InterviewParticipant.interview_id p = iid ->
       ~ In (InterviewParticipant.user_id p) ids) ->
    for_each ids (fun uid => add_participant (InterviewParticipant.mk iid uid)) w
    = (with_interview_participants
         (interview_participants w ++ map (InterviewParticipant.mk iid) ids) w, Ok tt).
Proof.
  induction ids as [|uid ids IH]; intros w Hnd Hfresh; cbn [for_each map].
  - unfold ret. rewrite app_nil_r. now destruct w.
  - inversion Hnd as [|? ? Hnotin Hnd']; subst.
    unfold bind at 1, add_participant at 1.
    cbn [InterviewParticipant.interview_id InterviewParticipant.user_id].
    assert (Hex : existsb (fun q => (InterviewParticipant.interview_id q =? iid)
                                    && (InterviewParticipant.user_id q =? uid))
                    (interview_participants w) = false).
    { destruct (existsb _ _) eqn:Hex; [| reflexivity].
      apply existsb_exists in Hex. destruct Hex as (q & Hq & Hk).
      apply andb_true_iff in Hk. destruct Hk as [Hi Hu]. apply Z.eqb_eq in Hi, Hu.
      exfalso. apply (Hfresh q Hq Hi). left. now symmetry. }
    rewrite Hex. rewrite IH; [| assumption |].
    + store_simpl. rewrite <- app_assoc. now destruct w.
    + store_simpl. intros p Hp Hi Hin. apply in_app_or in Hp. destruct Hp as [Hp | [<- | []]].
      * apply (Hfresh p Hp Hi). now right.
      * now apply Hnotin.
Qed.

Section ApprovalRun.

Variables (rid oid : Z) (ids : list Z) (now : datetime) (hex : string) (w : Store).
Variables (r : SchedulingRequest.t) (o : SchedulingOption.t) (cand : Candidate.t).
Hypothesis interviews_fk : rows_reference_interviews w.
Hypothesis distinct_ids : NoDup ids.
Hypothesis request_found :
  find (fun x => SchedulingRequest.id x =? rid) (scheduling_requests w) = Some r.
Hypothesis request_proposed :
  SchedulingRequest.status r = SchedulingRequestStatus.proposed.
Hypothesis option_found :
  find (fun x => SchedulingOption.id x =? oid) (scheduling_options w) = Some o.
Hypothesis option_owned : SchedulingOption.request_id o = SchedulingRequest.id r.
Hypothesis candidate_found :
  find (fun x => Candidate.id x =? SchedulingRequest.candidate_id r) (candidates w)
  = Some cand.
Hypothesis users_found : List.length (users_in ids w) = len_set ids.

Local Abbreviation new_id := (next_id (map Interview.id (interviews w))).

Local Abbreviation created :=
  (Interview.mk new_id
     (SchedulingRequest.candidate_id r) (SchedulingRequest.job_title r)
     (SchedulingRequest.recruiter_name r) (SchedulingRequest.recruiter_email r)
     now (SchedulingOption.start o) (SchedulingOption.end_ o)
     (_video_link new_id hex) InterviewStatus.scheduled None None None).

Lemma approve_run :
  approve_schedule_and_create_interview rid oid ids now hex w
  = (with_scheduling_requests
       (map (fun x => if SchedulingRequest.id x =? SchedulingRequest.id r
                      then SchedulingRequest.approve (SchedulingOption.id o) new_id x
                      else x) (scheduling_requests w))
       (booked w created ids (users_in ids w) cand
          (block_title cand (SchedulingRequest.job_title r)) now),
     Ok created).
Proof.
  unfold approve_schedule_and_create_interview, transactional.
  unfold bind at 1, get_request, gets at 1. rewrite request_found, request_proposed.
  cbn [SchedulingRequestStatus.eqb negb].
  unfold bind at 1, get_option, gets at 1. rewrite option_found, option_owned, Z.eqb_refl.
  cbn [negb].
  unfold bind at 1, get_candidate, gets at 1. rewrite candidate_found.
  unfold bind at 1, gets at 1.
  rewrite users_found, Nat.eqb_refl. cbn [negb].
  unfold bind at 1, add_interview.
  unfold bind at 1, update_interview, modify. store_simpl. cbn [Interview.id].
  destruct interviews_fk as (Hpart & _ & Hats).
  unfold bind at 1. rewrite add_participants_run; [| assumption |].
  2:{ store_simpl. intros p Hp Hi _. apply Hpart, next_id_fresh in Hp. lia. }
  unfold bind at 1, add_ats. store_simpl. cbn [ATSRecord.interview_id].
  rewrite (existsb_fresh ATSRecord.interview_id _ _ Hats).
  unfold bind at 1. rewrite block_times_run.
  unfold bind at 1, update_request, modify.
  unfold bind at 1. rewrite notify_scheduled_run. unfold ret.
  pose proof (update_new_interview (interviews w)
                (Interview.mk new_id
                   (SchedulingRequest.candidate_id r) (SchedulingRequest.job_title r)
                   (SchedulingRequest.recruiter_name r)
                   (SchedulingRequest.recruiter_email r)
                   now (SchedulingOption.start o) (SchedulingOption.end_ o)
                   "pending" InterviewStatus.scheduled None None None)
                (Interview.set_video_link (_video_link new_id hex)) eq_refl) as Hmap.
  cbn [Interview.id] in Hmap.
  f_equal. apply store_ext; store_simpl;
    cbn [Interview.id Interview.scheduled_start Interview.scheduled_end];
    solve [reflexivity | exact Hmap].
Qed.

End ApprovalRun.

(** X14. [approve_schedule_and_create_interview] does not look at the
    calendar. For a proposed request, an option it owns, its candidate, and
    a list of distinct ids of existing users, in a store whose participant
    and ATS rows name existing interviews, the approval succeeds whatever
    calendar blocks the store holds: the interview takes the interval of the
    option, and one block over that interval is added for each user, also
    when a listed user is busy then. *)
Theorem approve_ignores_the_calendar rid oid ids now hex (w : Store)
    (r : SchedulingRequest.t) (o : SchedulingOption.t) (cand : Candidate.t) :
  rows_reference_interviews w ->
  NoDup ids ->
  find (fun x => SchedulingRequest.id x =? rid) (scheduling_requests w) = Some r ->
  SchedulingRequest.status r = SchedulingRequestStatus.proposed ->
  find (fun x => SchedulingOption.id x =? oid) (scheduling_options w) = Some o ->
  SchedulingOption.request_id o = SchedulingRequest.id r ->
  find (fun x => Candidate.id x =? SchedulingRequest.candidate_id r) (candidates w)
    = Some cand ->
  List.length (users_in ids w) = len_set ids ->
  forall blocks, exists w' iv,
    approve_schedule_and_create_interview rid oid ids now hex
      (with_calendar_blocks blocks w) = (w', Ok iv)
    /\ Interview.scheduled_start iv = SchedulingOption.start o
    /\ Interview.scheduled_end iv = SchedulingOption.end_ o
    /\ calendar_blocks w'
       = blocks ++ map (fun u => CalendarBlock.mk (User.id u) (SchedulingOption.start o)
                                   (SchedulingOption.end_ o)
                                   (block_title cand (SchedulingRequest.job_title r)))
                     (users_in ids w).
Proof.
  intros Hfk Hnd Hr Hst Ho Hown Hcand Hus blocks.
  eexists. eexists. split.
  - apply (approve_run rid oid ids now hex (with_calendar_blocks blocks w) r o cand);
      assumption.
  - repeat split; reflexivity.
Qed.

(** The first option of the proposal is approved after a direct booking has
    taken its hour. *)
Lemma approve_ignores_the_calendar_witness :
  all_free (calendar_blocks overtaken_store) [1; 2; 3]
    (SchedulingOption.start demo_option) (SchedulingOption.end_ demo_option) = false
  /\ exists w' iv,
       approve_schedule_and_create_interview 1 1 [1; 2; 3] (base - minutes 100) "0a1b2c3d"
         (with_calendar_blocks (calendar_blocks overtaken_store) proposed_store)
       = (w', Ok iv)
       /\ Interview.scheduled_start iv = SchedulingOption.start demo_option.
Proof.
  split; [vm_compute; reflexivity |].
  destruct (approve_ignores_the_calendar 1 1 [1; 2; 3] (base - minutes 100) "0a1b2c3d"
              proposed_store demo_request demo_option test_candidate)
    with (blocks := calendar_blocks overtaken_store)
    as (w' & iv & Hrun & Hs & _).
  - split; [| split]; intros x Hx; vm_compute in Hx; contradiction.
  - repeat constructor; simpl; intuition lia.
  - vm_compute. reflexivity.
  - reflexivity.
  - vm_compute. reflexivity.
  - reflexivity.
  - vm_compute. reflexivity.
  - vm_compute. reflexivity.
  - exists w', iv. split; assumption.
Defined.

(** X15. Every option of a successful [propose_schedule] can be approved:
    in a store whose participant and ATS rows name existing interviews, and
    for distinct interviewer ids, the approval of an option of the result,
    for the request of the result and the same interviewers, succeeds on the
    store the proposal left, and the interview it creates is for the
    candidate and the job of the proposal, in one of the slots that
    [find_common_slots] listed when the proposal was made. *)
Theorem proposed_option_can_be_approved rn re c j ids tw d lim now now' hex
    (w w1 : Store) (res : ProposalResult) (o : SchedulingOption.t) :
  rows_reference_interviews w ->
  NoDup ids ->
  propose_schedule rn re c j ids tw d lim now w = (w1, Ok res) ->
  In o (options res) ->
  exists w2 iv,
    approve_schedule_and_create_interview (SchedulingRequest.id (request res))
      (SchedulingOption.id o) ids now' hex w1 = (w2, Ok iv)
    /\ In (Interview.scheduled_start iv, Interview.scheduled_end iv)
         (find_common_slots (calendar_blocks w) ids tw d lim 15)
    /\ Interview.candidate_id iv = c
    /\ Interview.job_title iv = j.
Proof.
  intros Hfk Hnd Hrun Ho. apply propose_schedule_ok in Hrun.
  destruct Hrun as ((cand & Hcand) & _ & Hus & Hreq & Hslots & _ & Hown & Hfresh & ->).
  assert (Hold : find (fun x => SchedulingOption.id x =? SchedulingOption.id o)
                   (scheduling_options w) = None).
  { destruct (find _ (scheduling_options w)) as [x|] eqn:Hf; [| reflexivity].
    apply find_some in Hf. destruct Hf as [Hx Hid]. apply Z.eqb_eq in Hid.
    rewrite Forall_forall in Hfresh. specialize (Hfresh o Ho (SchedulingOption.id x)).
    assert (Hin : In (SchedulingOption.id x) (map SchedulingOption.id (scheduling_options w)))
      by now apply in_map.
    specialize (Hfresh Hin). lia. }
  destruct (find (fun x => SchedulingOption.id x =? SchedulingOption.id o) (options res))
    as [o'|] eqn:Hnew.
  2:{ pose proof (find_none _ _ Hnew o Ho) as Hno. simpl in Hno.
      rewrite Z.eqb_refl in Hno. discriminate. }
  pose proof (find_some _ _ Hnew) as [Ho' _].
  rewrite Forall_forall in Hown.
  eexists. eexists. split.
  - apply (approve_run _ _ ids now' hex _ (request res) o' cand).
    + exact Hfk.
    + exact Hnd.
    + store_simpl. apply find_app_absent; [| reflexivity].
      rewrite Hreq. cbn [SchedulingRequest.id].
      intros Hin. apply next_id_fresh in Hin. lia.
    + now rewrite Hreq.
    + store_simpl. now rewrite find_append, Hold.
    + now apply Hown.
    + rewrite Hreq. exact Hcand.
    + exact Hus.
  - cbn [Interview.scheduled_start Interview.scheduled_end Interview.candidate_id
         Interview.job_title].
    rewrite Hreq. cbn [SchedulingRequest.candidate_id SchedulingRequest.job_title].
    split; [| split; reflexivity].
    rewrite <- Hslots.
    apply (in_map (fun x => (SchedulingOption.start x, SchedulingOption.end_ x))), Ho'.
Qed.

(** The first option of the proposal of the second smoke test. *)
Lemma proposed_option_can_be_approved_witness :
  exists w2 iv,
    approve_schedule_and_create_interview 1 1 [1; 2; 3] (base - minutes 100) "0a1b2c3d"
      proposed_store = (w2, Ok iv)
    /\ Interview.candidate_id iv = 1.
Proof.
  destruct (propose_schedule "Recruiter" "recruiter@example.com" 1 "Backend Engineer"
              [1; 2; 3] demo_window 60 3 (base - minutes 115) seed_store)
    as [w1 [res | e]] eqn:Hrun; [| vm_compute in Hrun; discriminate].
  assert (Hw : proposed_store = w1) by (unfold proposed_store; now rewrite Hrun).
  assert (Hres : res = {| request := demo_request;
                          options := scheduling_options proposed_store |}).
  { vm_compute in Hrun. injection Hrun as _ <-. vm_compute. reflexivity. }
  assert (Hfk : rows_reference_interviews seed_store)
    by (split; [| split]; intros x Hx; vm_compute in Hx; contradiction).
  assert (Hnd : NoDup [1; 2; 3]) by (repeat constructor; simpl; intuition lia).
  destruct (proposed_option_can_be_approved _ _ _ _ _ _ _ _ _ (base - minutes 100) "0a1b2c3d"
              _ _ _ demo_option Hfk Hnd Hrun)
    as (w2 & iv & Happ & _ & Hc & _).
  - rewrite Hres. vm_compute. left. reflexivity.
  - exists w2, iv. split; [| exact Hc].
    rewrite Hw. rewrite Hres in Happ. exact Happ.
Defined.

(* ===================================================================== *)
(** ** Markers over runs of the entry points *)

Section Guarded.

Variable env : Env.












End Guarded.



(* ===================================================================== *)
(** ** The actions of the ticker, run forward *)

Section ActionRuns.

Variables (env : Env) (id : Z) (t : datetime) (w : Store).
Variables (iv : Interview.t) (cand : Candidate.t).
Hypothesis found : find (fun i => Interview.id i =? id) (interviews w) = Some iv.
Hypothesis candidate_found :
  find (fun c => Candidate.id c =? Interview.candidate_id iv) (candidates w) = Some cand.

Lemma send_reminder_run :
  send_reminder id t w
  = (with_interviews (map (upd id (reminded t)) (interviews w))
       (with_outbox
          (outbox w
           ++ map (fun u => {| about := id; call := send_email (User.email u) ReminderNotice |})
                (participants_of id w)
           ++ [{| about := id; call := send_slack ReminderNotice |}]) w),
     Ok tt).
Proof.
  unfold send_reminder.
  unfold bind at 1, get_interview, gets at 1. rewrite found.
  unfold bind at 1, get_candidate, gets at 1. rewrite candidate_found.
  unfold bind at 1, gets at 1.
  unfold bind at 1. rewrite emails_run.
  unfold bind, emit, update_interview, modify. store_simpl.
  rewrite (found_id w id iv found).
  f_equal. apply store_ext; store_simpl; try reflexivity.
  now rewrite <- app_assoc.
Qed.

Lemma feedback_requests_run (us : list User.t) (w0 : Store) :
  for_each us (fun u =>
    bind (emit id (send_email (User.email u) (FeedbackRequested (User.id u))))
      (fun _ => emit id (send_slack (FeedbackRequested (User.id u))))) w0
  = (with_outbox
       (outbox w0
        ++ flat_map (fun u =>
             [ {| about := id;
                  call := send_email (User.email u) (FeedbackRequested (User.id u)) |};
               {| about := id; call := send_slack (FeedbackRequested (User.id u)) |} ]) us)
       w0, Ok tt).
Proof.
  revert w0. induction us as [|u us IH]; intros w0; cbn [for_each flat_map].
  - unfold ret. rewrite app_nil_r. now destruct w0.
  - unfold bind at 1. unfold bind at 1, emit, modify. rewrite IH. store_simpl.
    f_equal. apply store_ext; store_simpl; try reflexivity.
    rewrite <- !app_assoc. reflexivity.
Qed.

Lemma request_feedback_run :
  ats_unique w ->
  request_feedback id t w
  = (with_ats_records
       (map (fun a => if ATSRecord.interview_id a =? id
                      then ats_set_status ATSStatus.interview_completed t a else a)
            (ats_records w))
       (with_interviews (map (upd id (feedback_asked t)) (interviews w))
          (with_outbox
             (outbox w
              ++ flat_map (fun u =>
                   [ {| about := id;
                        call := send_email (User.email u) (FeedbackRequested (User.id u)) |};
                     {| about := id; call := send_slack (FeedbackRequested (User.id u)) |} ])
                   (participants_of id w)) w)),
     Ok tt).
Proof.
  intros Huq. unfold request_feedback.
  unfold bind at 1, get_interview, gets at 1. rewrite found.
  unfold bind at 1, get_candidate, gets at 1. rewrite candidate_found.
  unfold bind at 1, gets at 1.
  unfold bind at 1. rewrite feedback_requests_run.
  rewrite (found_id w id iv found).
  unfold bind at 1, update_interview, modify.
  unfold bind at 1, gets at 1.
  unfold ats_of. store_simpl.
  destruct (filter_key_unique ATSRecord.interview_id id (ats_records w) Huq)
    as [Hnone | (a & Hone & _)].
  - rewrite Hnone. unfold bind, scalar_one_or_none, ret.
    f_equal. apply store_ext; store_simpl; try reflexivity.
    symmetry. apply map_update_absent.
    intros Hin. apply in_map_iff in Hin. destruct Hin as (b & Hb & Hin).
    assert (Hf : In b (filter (fun x => ATSRecord.interview_id x =? id) (ats_records w)))
      by (apply filter_In; split; [assumption | now apply Z.eqb_eq]).
    rewrite Hnone in Hf. contradiction.
  - rewrite Hone. unfold bind, scalar_one_or_none, ret, update_ats, modify.
    f_equal.
Qed.

End ActionRuns.

(* ===================================================================== *)
(** ** The reminder scan of the ticker *)

Section ReminderScan.

Variables (env : Env) (t : datetime) (clock : ActionClock).

Lemma reminder_due_spec (i : Interview.t) :
  reminder_due env t i = true
  <-> Interview.status i = InterviewStatus.scheduled
      /\ Interview.reminder_sent_at i = None
      /\ t < Interview.scheduled_start i
            <= t + minutes (reminder_lead_minutes (settings env)).
Proof.
  unfold reminder_due. cbv zeta. rewrite !andb_true_iff, is_none_spec.
  rewrite Z.leb_le, Z.gtb_lt.
  assert (Hst : InterviewStatus.eqb (Interview.status i) InterviewStatus.scheduled = true
                <-> Interview.status i = InterviewStatus.scheduled)
    by (destruct (Interview.status i); simpl; split; congruence).
  rewrite Hst. tauto.
Qed.

Lemma present_selected (p : Interview.t -> bool) (w : Store) :
  interviews_have_candidates w -> present (select_ids p w) w.
Proof.
  intros Hfk id Hsel. apply select_ids_In in Hsel. destruct Hsel as (i & Hi & Hid & _).
  destruct (find (fun x => Interview.id x =? id) (interviews w)) as [iv|] eqn:Hf.
  - apply find_some in Hf as Hiv. destruct Hiv as [Hiv _].
    destruct (find_candidate_by_id _ _ (Hfk iv Hiv)) as (cand & Hcand).
    eauto.
  - pose proof (find_none _ _ Hf i Hi) as Hno. simpl in Hno.
    rewrite Hid, Z.eqb_refl in Hno. discriminate.
Qed.

(** The whole scan in closed form: every listed interview is reminded, in
    the order of the list, and its row is marked. *)
Lemma reminder_scan_run (ids : list Z) :
  forall w,
    present ids w ->
    for_each ids
      (fun id => discard_uncommitted (send_reminder id (reminder_at clock id))) w
    = (with_interviews
         (map (fun i => if mem (Interview.id i) ids
                        then reminded (reminder_at clock (Interview.id i)) i else i)
              (interviews w))
         (with_outbox (outbox w ++ flat_map (fun id => reminder_calls id w) ids) w),
       Ok tt).
Proof.
  induction ids as [|id ids IH]; intros w Hready; cbn [for_each flat_map].
  - unfold ret. f_equal. apply store_ext; store_simpl; try reflexivity.
    + now rewrite map_id.
    + now rewrite app_nil_r.
  - destruct (Hready id (or_introl eq_refl)) as (iv & cand & Hiv & Hcand).
    unfold bind at 1, discard_uncommitted at 1.
    rewrite (send_reminder_run id (reminder_at clock id) w iv cand Hiv Hcand).
    rewrite IH.
    + f_equal. apply store_ext; store_simpl; try reflexivity.
      * rewrite map_map. apply map_ext. intros i. unfold upd, mem. cbn [existsb].
        destruct (Z.eqb_spec (Interview.id i) id) as [Heq | Hne].
        -- cbn [orb Interview.id reminded Interview.set_reminder_sent_at].
           rewrite Heq. destruct (existsb _ ids); reflexivity.
        -- cbn [orb]. reflexivity.
      * unfold reminder_calls at 2. rewrite <- !app_assoc. reflexivity.
    + intros id' Hin. destruct (Hready id' (or_intror Hin)) as (iv' & cand' & Hiv' & Hcand').
      store_simpl. unfold upd. rewrite find_update by reflexivity. rewrite Hiv'.
      cbn [option_map]. eexists. exists cand'. split; [reflexivity |].
      destruct (Interview.id iv' =? id); exact Hcand'.
Qed.

(** What follows the reminders in a tick. *)
Lemma tick_after_reminders w w1 w' r :
  interviews_pk w ->
  for_each (select_ids (reminder_due env t) w)
    (fun id => discard_uncommitted (send_reminder id (reminder_at clock id))) w
  = (w1, Ok tt) ->
  tick env t clock w = (w', r) ->
  exists w2,
    scanned is_feedback_request (select_ids (feedback_request_due env t) w1) w1 w2
    /\ scanned is_consolidation (select_ids consolidation_due w2) w2 w'.
Proof.
  intros Hpk H1. unfold tick.
  unfold bind at 1, gets at 1. unfold bind at 1. rewrite H1.
  pose proof (reminder_scan env t clock w w1 _ Hpk H1) as S1.
  pose proof (scanned_pk _ _ _ _ S1 Hpk) as Hpk1.
  unfold bind at 1, gets at 1. unfold bind at 1.
  destruct (for_each (select_ids (feedback_request_due env t) w1) _ w1)
    as [w2 [[] | e]] eqn:H2.
  2: { intros [= <- _]. exists w2. split; [| apply scanned_refl].
       eapply feedback_request_scan; eauto. }
  pose proof (feedback_request_scan env t clock w1 w2 _ Hpk1 H2) as S2.
  pose proof (scanned_pk _ _ _ _ S2 Hpk1) as Hpk2.
  unfold bind at 1, gets at 1.
  intros H3. exists w2. split; [exact S2 |].
  eapply consolidation_scan; eauto.
Qed.

End ReminderScan.

(** X17. One [tick] that reads the time [t] for its queries, on a store
    with distinct interview ids whose interviews name existing candidates:
    the Slack reminder about an interview of the store is among the calls of
    the tick exactly when the interview has status scheduled, no
    [reminder_sent_at], and a [scheduled_start] after [t] and not after [t]
    plus the lead time, so an interview that starts at [t] itself is not
    reminded; and every interview reminded has, when the tick ends, the
    [reminder_sent_at] that [send_reminder] gave it: the time that
    [send_reminder] read for itself, not [t]. *)
Theorem tick_reminds_what_is_due (env : Env) (t : datetime) (clock : ActionClock)
    (w w' : Store) (r : outcome unit) :
  interviews_pk w -> interviews_have_candidates w ->
  tick env t clock w = (w', r) ->
  exists sent,
    outbox w' = outbox w ++ sent
    /\ forall i, In i (interviews w) ->
         let due := Interview.status i = InterviewStatus.scheduled
                    /\ Interview.reminder_sent_at i = None
                    /\ t < Interview.scheduled_start i
                          <= t + minutes (reminder_lead_minutes (settings env)) in
         (In {| about := Interview.id i; call := send_slack ReminderNotice |} sent <-> due)
         /\ (due -> exists i', In i' (interviews w')
                               /\ Interview.id i' = Interview.id i
                               /\ Interview.reminder_sent_at i'
                                  = Some (reminder_at clock (Interview.id i))).
Proof.
  intros Hpk Hfk Hrun.
  pose proof (reminder_scan_run clock (select_ids (reminder_due env t) w) w
                (present_selected _ w Hfk)) as H1.
  destruct (tick_after_reminders env t clock w _ w' r Hpk H1 Hrun) as (w2 & S2 & S3).
  pose proof S2 as S2'. destruct S2' as (_ & _ & K2 & _ & s2 & Hs2 & Hq2).
  pose proof S3 as S3'. destruct S3' as (_ & _ & K3 & _ & s3 & Hs3 & Hq3).
  store_simpl.
  exists (flat_map (fun id => reminder_calls id w) (select_ids (reminder_due env t) w)
          ++ s2 ++ s3).
  split; [rewrite Hs3, Hs2; now rewrite <- !app_assoc |].
  intros i Hi. cbv zeta. rewrite <- !reminder_due_spec.
  rewrite Forall_forall in Hq2, Hq3.
  split; [split |].
  - intros Hin. apply in_app_or in Hin. destruct Hin as [Hin | Hin].
    + apply in_flat_map in Hin. destruct Hin as (id & Hsel & Hcall).
      assert (Hid : id = Interview.id i).
      { unfold reminder_calls in Hcall. apply in_app_or in Hcall.
        destruct Hcall as [Hcall | [Hcall | []]].
        - apply in_map_iff in Hcall. destruct Hcall as (u & Hu & _). discriminate.
        - now injection Hcall. }
      subst id. exact (select_ids_row _ _ _ Hpk Hi Hsel).
    + apply in_app_or in Hin. destruct Hin as [Hin | Hin].
      * destruct (Hq2 _ Hin) as [_ Hk]. discriminate.
      * destruct (Hq3 _ Hin) as [_ Hk]. discriminate.
  - intros Hdue. apply in_or_app. left. apply in_flat_map.
    exists (Interview.id i). split.
    + apply select_ids_In. eauto.
    + unfold reminder_calls. apply in_or_app. right. now left.
  - intros Hdue.
    assert (Hi1 : In (reminded (reminder_at clock (Interview.id i)) i)
                    (map (fun x => if mem (Interview.id x)
                                        (select_ids (reminder_due env t) w)
                                   then reminded (reminder_at clock (Interview.id x)) x
                                   else x) (interviews w))).
    { apply in_map_iff. exists i. split; [| assumption].
      replace (mem (Interview.id i) (select_ids (reminder_due env t) w)) with true;
        [reflexivity |].
      symmetry. apply mem_In, select_ids_In. eauto. }
    destruct (K2 _ Hi1) as (i2 & Hi2 & Hle2).
    destruct (K3 _ Hi2) as (i3 & Hi3 & Hle3).
    exists i3. split; [assumption |].
    destruct Hle2 as (Hid2 & Hr2 & _), Hle3 as (Hid3 & Hr3 & _).
    split; [rewrite Hid3, Hid2; reflexivity |].
    apply Hr3, Hr2. reflexivity.
Qed.

(** At the start time of the booked interview of the smoke test no reminder
    goes out; half an hour before, one does. *)
Lemma tick_reminds_what_is_due_witness :
  (exists sent,
     outbox (fst (tick demo_env base (ticking base) booked_store))
     = outbox booked_store ++ sent
     /\ ~ In {| about := 1; call := send_slack ReminderNotice |} sent)
  /\ (exists sent,
        outbox (fst (tick demo_env (base - minutes 30) (ticking (base - minutes 30))
                       booked_store))
        = outbox booked_store ++ sent
        /\ In {| about := 1; call := send_slack ReminderNotice |} sent).
Proof.
  assert (Hpk : interviews_pk booked_store).
  { unfold interviews_pk. vm_compute. repeat constructor. simpl. tauto. }
  assert (Hfk : interviews_have_candidates booked_store).
  { intros i Hi. vm_compute in Hi. destruct Hi as [<- | []]. vm_compute. tauto. }
  assert (Hin : In demo_interview (interviews booked_store)) by (vm_compute; tauto).
  split.
  - destruct (tick_reminds_what_is_due demo_env base (ticking base) booked_store _ _
                Hpk Hfk (surjective_pairing _)) as (sent & Hout & Hsent).
    exists sent. split; [exact Hout |].
    destruct (Hsent demo_interview Hin) as [[Hto _] _].
    intros Hc. apply Hto in Hc. destruct Hc as (_ & _ & Hlt & _).
    vm_compute in Hlt. discriminate.
  - destruct (tick_reminds_what_is_due demo_env (base - minutes 30)
                (ticking (base - minutes 30)) booked_store _ _ Hpk Hfk
                (surjective_pairing _)) as (sent & Hout & Hsent).
    exists sent. split; [exact Hout |].
    destruct (Hsent demo_interview Hin) as [[_ Hfrom] _].
    apply Hfrom. split; [reflexivity |]. split; [reflexivity |].
    vm_compute. split; [reflexivity | discriminate].
Defined.

(* ===================================================================== *)
(** ** From the submissions to the consolidation *)

Section Submissions.

Variable env : Env.

Lemma find_by_id (id : Z) (l : list Interview.t) :
  In id (map Interview.id l) ->
  exists iv, find (fun x => Interview.id x =? id) l = Some iv.
Proof.
  intros Hin. destruct (find _ l) as [iv|] eqn:Hf; [eauto |].
  exfalso. apply in_map_iff in Hin. destruct Hin as (x & Hid & Hx).
  pose proof (find_none _ _ Hf x Hx) as Hno. simpl in Hno.
  rewrite Hid, Z.eqb_refl in Hno. discriminate.
Qed.

(** One valid submission: only the feedback table changes, it stays
    unique, no pair loses its row, and the submitted pair has one. *)
Lemma submission_step (op : Op) (w : Store) (iid uid : Z) :
  feedback_unique w ->
  submits env op iid uid ->
  In iid (map Interview.id (interviews w)) ->
  step env op w = with_feedback (feedback (step env op w)) w
  /\ feedback_unique (step env op w)
  /\ (forall i u, feedback_by i u w <> [] -> feedback_by i u (step env op w) <> [])
  /\ feedback_by iid uid (step env op w) <> [].
Proof.
  intros Huq Hsub Hin. destruct op as [| | | tok dec com now |]; try contradiction.
  destruct Hsub as [Htok Hdec].
  destruct (dec_map dec) as [d|] eqn:Hd; [| congruence].
  destruct (find_by_id _ _ Hin) as (iv & Hiv).
  destruct (submit_feedback_run env tok dec com now w iid uid iv d Htok Hiv Hd (Huq iid uid))
    as (rows & Hrun & Hone & Hother & _).
  cbn [step]. rewrite Hrun. cbn [fst]. store_simpl.
  split; [reflexivity |].
  assert (Hcase : forall i u, (i, u) = (iid, uid) \/ (i, u) <> (iid, uid)).
  { intros i u. destruct (Z.eq_dec i iid), (Z.eq_dec u uid); subst; auto;
      right; congruence. }
  split; [| split].
  - intros i u. destruct (Hcase i u) as [[= -> ->] | Hne].
    + rewrite Hone. auto.
    + rewrite (Hother i u Hne). apply Huq.
  - intros i u Hsome. destruct (Hcase i u) as [[= -> ->] | Hne].
    + rewrite Hone. discriminate.
    + now rewrite (Hother i u Hne).
  - rewrite Hone. discriminate.
Qed.

Lemma submissions_run (ops : list Op) :
  forall w,
    feedback_unique w ->
    (forall op, In op ops -> valid_submission env w op) ->
    run env ops w = with_feedback (feedback (run env ops w)) w
    /\ feedback_unique (run env ops w)
    /\ (forall i u, feedback_by i u w <> [] -> feedback_by i u (run env ops w) <> [])
    /\ (forall op i u, In op ops -> submits env op i u ->
          feedback_by i u (run env ops w) <> []).
Proof.
  induction ops as [|op ops IH]; intros w Huq Hvalid; unfold run; cbn [fold_left].
  - split; [now destruct w |]. split; [assumption |]. split; [auto |].
    intros ? ? ? [].
  - destruct (Hvalid op (or_introl eq_refl)) as (iid & uid & Hsub & Hin).
    destruct (submission_step op w iid uid Huq Hsub Hin) as (Hw1 & Huq1 & Hkeep1 & Hnew1).
    set (w1 := step env op w) in *.
    destruct (IH w1 Huq1) as (Hw2 & Huq2 & Hkeep2 & Hnew2).
    { intros op' Hop'. destruct (Hvalid op' (or_intror Hop')) as (i & u & Hs & Hi).
      exists i, u. split; [assumption |]. rewrite Hw1. exact Hi. }
    unfold run in *. set (w2 := fold_left _ ops w1) in *.
    split; [| split; [assumption | split]].
    + rewrite Hw2 at 1. rewrite Hw1. reflexivity.
    + intros i u Hsome. apply Hkeep2, Hkeep1, Hsome.
    + intros op' i u [<- | Hop'] Hs.
      * apply Hkeep2. destruct op; try contradiction.
        destruct Hsub as [Ht _], Hs as [Ht' _]. rewrite Ht in Ht'.
        injection Ht' as <- <-. exact Hnew1.
      * eapply Hnew2; eauto.
Qed.

End Submissions.

(** X18. Once every participant of an interview has submitted, the gate of
    [maybe_consolidate] is open. In a store with at most one ATS record per
    interview and at most one Feedback row per interview and user, run any
    sequence of [submit_feedback] calls whose tokens parse to interviews of
    the store and whose decisions are of the map; if for each user who
    participates in the interview one of the calls is for that interview and
    user, then [maybe_consolidate] on the store they leave returns true. *)
Theorem consolidation_after_all_feedback (env : Env) (iid : Z) (t : datetime)
    (w : Store) (iv : Interview.t) (cand : Candidate.t) (ops : list Op) :
  ats_unique w -> feedback_unique w ->
  find (fun i => Interview.id i =? iid) (interviews w) = Some iv ->
  find (fun c => Candidate.id c =? Interview.candidate_id iv) (candidates w) = Some cand ->
  (forall op, In op ops -> valid_submission env w op) ->
  (forall u, In u (participants_of iid w) ->
     exists op, In op ops /\ submits env op iid (User.id u)) ->
  exists w', maybe_consolidate env iid t (run env ops w) = (w', Ok true).
Proof.
  intros Hats Huq Hiv Hcand Hvalid Hall.
  destruct (submissions_run env ops w Huq Hvalid) as (Hw & _ & _ & Hnew).
  set (w1 := run env ops w) in *.
  eexists. apply (maybe_consolidate_done env w1 iid t iv cand).
  - rewrite Hw. exact Hiv.
  - rewrite Hw. exact Hcand.
  - rewrite Hw. exact Hats.
  - unfold issubset. apply forallb_forall. intros x Hx.
    apply in_map_iff in Hx. destruct Hx as (u & <- & Hu).
    assert (Hu0 : In u (participants_of iid w)) by (rewrite Hw in Hu; exact Hu).
    destruct (Hall u Hu0) as (op & Hop & Hsub).
    pose proof (Hnew op iid (User.id u) Hop Hsub) as Hsome.
    apply mem_In. apply in_map_iff.
    destruct (feedback_by iid (User.id u) w1) as [|f fs] eqn:Hf; [congruence |].
    assert (Hin : In f (feedback_by iid (User.id u) w1)) by (rewrite Hf; now left).
    unfold feedback_by in Hin. apply filter_In in Hin. destruct Hin as [Hin Hk].
    apply andb_true_iff in Hk. destruct Hk as [Hi Hk]. apply Z.eqb_eq in Hk.
    exists f. split; [assumption |].
    unfold feedback_of. apply order_by_key_In, filter_In. auto.
Qed.

(** The three submissions of the smoke test open the gate for its
    interview. *)
Lemma consolidation_after_all_feedback_witness :
  exists w', maybe_consolidate demo_env 1 (base + minutes 70) feedback_store = (w', Ok true).
Proof.
  apply (consolidation_after_all_feedback demo_env 1 (base + minutes 70) booked_store
           demo_interview test_candidate).
  - unfold ats_unique. vm_compute. repeat constructor. simpl. tauto.
  - intros i u. vm_compute. lia.
  - reflexivity.
  - reflexivity.
  - intros op [<- | [<- | [<- | []]]].
    + exists 1, 1. split; [split; [reflexivity | discriminate] | vm_compute; tauto].
    + exists 1, 2. split; [split; [reflexivity | discriminate] | vm_compute; tauto].
    + exists 1, 3. split; [split; [reflexivity | discriminate] | vm_compute; tauto].
  - intros u Hu. vm_compute in Hu. destruct Hu as [<- | [<- | [<- | []]]].
    + eexists. split; [left; reflexivity |]. split; [reflexivity | discriminate].
    + eexists. split; [right; left; reflexivity |]. split; [reflexivity | discriminate].
    + eexists. split; [right; right; left; reflexivity |].
      split; [reflexivity | discriminate].
Defined.

(* ===================================================================== *)
(** ** The actions of the ticker on their own *)

(** X19. [send_reminder] for an interview that exists with its candidate
    raises nothing and checks neither the status nor [reminder_sent_at]:
    it emails every participant once, in some order (the query names none),
    then sends one Slack message, and sets [reminder_sent_at] to the current
    time, replacing a value already there; the status and every other field
    of the interview, the other interviews and all other tables stay as they
    were. *)
Theorem send_reminder_reminds (id : Z) (t : datetime) (w : Store)
    (iv : Interview.t) (cand : Candidate.t) :
  find (fun i => Interview.id i =? id) (interviews w) = Some iv ->
  find (fun c => Candidate.id c =? Interview.candidate_id iv) (candidates w) = Some cand ->
  exists w' us,
    send_reminder id t w = (w', Ok tt)
    /\ find (fun i => Interview.id i =? id) (interviews w')
       = Some (Interview.set_reminder_sent_at t iv)
    /\ Interview.status (Interview.set_reminder_sent_at t iv) = Interview.status iv
    /\ (forall id', id' <> id ->
          find (fun i => Interview.id i =? id') (interviews w')
          = find (fun i => Interview.id i =? id') (interviews w))
    /\ Permutation us (participants_of id w)
    /\ outbox w' = outbox w ++ reminder_calls_to id us
    /\ w' = with_interviews (interviews w') (with_outbox (outbox w') w).
Proof.
  intros Hiv Hcand. pose proof (found_id w id iv Hiv) as Hid.
  eexists. exists (participants_of id w).
  split; [apply (send_reminder_run id t w iv cand Hiv Hcand) |].
  store_simpl. unfold upd.
  split; [| split; [reflexivity
                   | split; [| split; [apply Permutation_refl | split; reflexivity]]]].
  - rewrite find_update by reflexivity. rewrite Hiv. cbn [option_map].
    now rewrite Hid, Z.eqb_refl.
  - intros id' Hne. rewrite find_update by reflexivity.
    destruct (find (fun x => Interview.id x =? id') (interviews w)) as [i|] eqn:Hf;
      [| reflexivity].
    cbn [option_map]. apply find_some in Hf. destruct Hf as [_ Hk]. apply Z.eqb_eq in Hk.
    destruct (Z.eqb_spec (Interview.id i) id); [congruence | reflexivity].
Qed.

(** The booked interview of the smoke test is reminded twice when
    [send_reminder] is called twice. *)
Lemma send_reminder_reminds_witness :
  exists w1 w2,
    send_reminder 1 (base - minutes 30) booked_store = (w1, Ok tt)
    /\ send_reminder 1 (base - minutes 20) w1 = (w2, Ok tt)
    /\ find (fun i => Interview.id i =? 1) (interviews w2)
       = Some (Interview.set_reminder_sent_at (base - minutes 20) demo_interview).
Proof.
  destruct (send_reminder_reminds 1 (base - minutes 30) booked_store demo_interview
              test_candidate eq_refl eq_refl)
    as (w1 & us1 & H1 & Hrow1 & _ & _ & _ & _ & Hw1).
  assert (Hc1 : find (fun c => Candidate.id c =? 1) (candidates w1) = Some test_candidate)
    by (rewrite Hw1; reflexivity).
  destruct (send_reminder_reminds 1 (base - minutes 20) w1 _ test_candidate Hrow1 Hc1)
    as (w2 & us2 & H2 & Hrow2 & _).
  exists w1, w2. split; [exact H1 |]. split; [exact H2 |]. exact Hrow2.
Defined.

(** X20. [request_feedback] for an interview that exists with its
    candidate, in a store with at most one ATS record per interview, raises
    nothing and checks neither the status nor [feedback_requested_at]: it
    sends an email and then a Slack message with the feedback form to every
    participant, one participant after the other in some order (the query
    names none), sets the status to feedback_requested and
    [feedback_requested_at] to the current time, and gives the ATS record of
    the interview, if there is one, the status interview_completed, keeping
    its recommendation and its summary; it creates no ATS record, and leaves
    the other interviews and ATS records as they were. *)
Theorem request_feedback_asks (id : Z) (t : datetime) (w : Store)
    (iv : Interview.t) (cand : Candidate.t) :
  ats_unique w ->
  find (fun i => Interview.id i =? id) (interviews w) = Some iv ->
  find (fun c => Candidate.id c =? Interview.candidate_id iv) (candidates w) = Some cand ->
  exists w' us,
    request_feedback id t w = (w', Ok tt)
    /\ find (fun i => Interview.id i =? id) (interviews w') = Some (feedback_asked t iv)
    /\ Interview.status (feedback_asked t iv) = InterviewStatus.feedback_requested
    /\ Interview.feedback_requested_at (feedback_asked t iv) = Some t
    /\ (forall id', id' <> id ->
          find (fun i => Interview.id i =? id') (interviews w')
          = find (fun i => Interview.id i =? id') (interviews w))
    /\ map ATSRecord.interview_id (ats_records w')
       = map ATSRecord.interview_id (ats_records w)
    /\ map ATSRecord.status (ats_of id w')
       = map (fun _ => ATSStatus.interview_completed) (ats_of id w)
    /\ map ATSRecord.recommendation (ats_of id w')
       = map ATSRecord.recommendation (ats_of id w)
    /\ map ATSRecord.summary (ats_of id w') = map ATSRecord.summary (ats_of id w)
    /\ (forall id', id' <> id -> ats_of id' w' = ats_of id' w)
    /\ Permutation us (participants_of id w)
    /\ outbox w' = outbox w ++ feedback_request_calls_to id us.
Proof.
  intros Huq Hiv Hcand. pose proof (found_id w id iv Hiv) as Hid.
  eexists. exists (participants_of id w).
  split; [apply (request_feedback_run id t w iv cand Hiv Hcand Huq) |].
  assert (Hats : filter (fun a => ATSRecord.interview_id a =? id)
                   (map (fun a => if ATSRecord.interview_id a =? id
                                  then ats_set_status ATSStatus.interview_completed t a
                                  else a) (ats_records w))
                 = map (ats_set_status ATSStatus.interview_completed t) (ats_of id w))
    by (apply filter_update; reflexivity).
  unfold ats_of in *. store_simpl. unfold upd.
  split; [| split; [reflexivity | split; [reflexivity |]]].
  { rewrite find_update by reflexivity. rewrite Hiv. cbn [option_map].
    now rewrite Hid, Z.eqb_refl. }
  split; [| split; [| split; [| split; [| split; [| split; [| split]]]]]].
  - intros id' Hne. rewrite find_update by reflexivity.
    destruct (find (fun x => Interview.id x =? id') (interviews w)) as [i|] eqn:Hf;
      [| reflexivity].
    cbn [option_map]. apply find_some in Hf. destruct Hf as [_ Hk]. apply Z.eqb_eq in Hk.
    destruct (Z.eqb_spec (Interview.id i) id); [congruence | reflexivity].
  - rewrite map_map. apply map_ext. intros a.
    destruct (ATSRecord.interview_id a =? id); reflexivity.
  - rewrite Hats, map_map. reflexivity.
  - rewrite Hats, map_map. reflexivity.
  - rewrite Hats, map_map. reflexivity.
  - intros id' Hne.
    apply (filter_map_miss (fun a => ATSRecord.interview_id a =? id)
             (ats_set_status ATSStatus.interview_completed t)).
    intros a Ha. apply Z.eqb_eq in Ha. cbn [ats_set_status ATSRecord.interview_id].
    rewrite Ha. split; apply Z.eqb_neq; congruence.
  - apply Permutation_refl.
  - reflexivity.
Qed.

(** The feedback request of the smoke test, made right after the booking. *)
Lemma request_feedback_asks_witness :
  exists w',
    request_feedback 1 (base - minutes 110) booked_store = (w', Ok tt)
    /\ find (fun i => Interview.id i =? 1) (interviews w')
       = Some (feedback_asked (base - minutes 110) demo_interview).
Proof.
  destruct (request_feedback_asks 1 (base - minutes 110) booked_store demo_interview
              test_candidate) as (w' & us & Hrun & Hrow & _).
  - unfold ats_unique. vm_compute. repeat constructor. simpl. tauto.
  - reflexivity.
  - reflexivity.
  - exists w'. split; assumption.
Defined.

Lemma ticker_actions_missing (env : Env) (id : Z) (t : datetime) (w : Store) :
  find (fun i => Interview.id i =? id) (interviews w) = None
  \/ (exists iv,
        find (fun i => Interview.id i =? id) (interviews w) = Some iv
        /\ find (fun c => Candidate.id c =? Interview.candidate_id iv) (candidates w)
           = None) ->
  send_reminder id t w = (w, Ok tt)
  /\ request_feedback id t w = (w, Ok tt)
  /\ maybe_consolidate env id t w = (w, Ok false).
Proof.
  intros [Hnone | (iv & Hiv & Hcand)].
  - split; [| split];
      [unfold send_reminder | unfold request_feedback | unfold maybe_consolidate];
      unfold bind at 1, get_interview, gets at 1; now rewrite Hnone.
  - split; [| split];
      [unfold send_reminder | unfold request_feedback | unfold maybe_consolidate];
      unfold bind at 1, get_interview, gets at 1; rewrite Hiv;
      unfold bind at 1, get_candidate, gets at 1; now rewrite Hcand.
Qed.

(** X21. The three actions of the ticker do nothing for an interview that
    is not in the store, or whose candidate is not: [send_reminder] and
    [request_feedback] return, [maybe_consolidate] returns false, and the
    store is as it was. *)
Theorem ticker_actions_skip_missing (env : Env) (id : Z) (t : datetime) (w : Store) :
  find (fun i => Interview.id i =? id) (interviews w) = None
  \/ (exists iv,
        find (fun i => Interview.id i =? id) (interviews w) = Some iv
        /\ find (fun c => Candidate.id c =? Interview.candidate_id iv) (candidates w)
           = None) ->
  send_reminder id t w = (w, Ok tt)
  /\ request_feedback id t w = (w, Ok tt)
  /\ maybe_consolidate env id t w = (w, Ok false).
Proof. apply ticker_actions_missing. Qed.

(** No interview has the id 7 in the seeded store. *)
Lemma ticker_actions_skip_missing_witness :
  maybe_consolidate demo_env 7 base seed_store = (seed_store, Ok false).
Proof.
  apply (ticker_actions_skip_missing demo_env 7 base seed_store). left. reflexivity.
Defined.

(* ===================================================================== *)
(** ** Nothing is deleted *)

Section Steady.

Variable R : Store -> Store -> Prop.
Hypothesis R_refl : forall w, R w w.
Hypothesis R_trans : forall w1 w2 w3, R w1 w2 -> R w2 w3 -> R w1 w3.
Hypothesis R_rollback : forall w w1, R w w1 -> R w (with_outbox (outbox w1) w).

Lemma steady_ret {A} (a : A) : preserves R (ret a).
Proof. intros w w' r [= <- _]. apply R_refl. Qed.

Lemma steady_raise {A} e : preserves R (@raise A e).
Proof. intros w w' r [= <- _]. apply R_refl. Qed.

Lemma steady_gets {A} (f : Store -> A) : preserves R (gets f).
Proof. intros w w' r [= <- _]. apply R_refl. Qed.

Lemma steady_modify (f : Store -> Store) :
  (forall w, R w (f w)) -> preserves R (modify f).
Proof. intros H w w' r [= <- _]. apply H. Qed.

Lemma steady_bind {A B} (m : M A) (k : A -> M B) :
  preserves R m -> (forall a, preserves R (k a)) -> preserves R (bind m k).
Proof.
  intros Hm Hk w w' r. unfold bind.
  destruct (m w) as [w1 [a | e]] eqn:Hrun.
  - intros H. eapply R_trans; [eapply Hm | eapply Hk]; eauto.
  - intros [= <- _]. eapply Hm; eauto.
Qed.

Lemma steady_for_each {A} (l : list A) (f : A -> M unit) :
  (forall x, preserves R (f x)) -> preserves R (for_each l f).
Proof.
  intros H. induction l as [|x l IH]; simpl.
  - apply steady_ret.
  - apply steady_bind; auto.
Qed.

Lemma steady_scalar {A} (rows : list A) : preserves R (scalar_one_or_none rows).
Proof.
  unfold scalar_one_or_none. destruct rows as [|x [|y rows]];
    first [apply steady_ret | apply steady_raise].
Qed.

Lemma steady_transactional {A} (m : M A) :
  preserves R m -> preserves R (transactional m).
Proof.
  intros Hm w w' r. unfold transactional.
  destruct (m w) as [w1 [a | e]] eqn:Hrun.
  - intros [= <- _]. eapply Hm; eauto.
  - destruct e; intros [= <- _]; try (eapply Hm; eassumption).
    eapply R_rollback, Hm; eassumption.
Qed.

Lemma steady_discard {A} (m : M A) :
  preserves R m -> preserves R (discard_uncommitted m).
Proof.
  intros Hm w w' r. unfold discard_uncommitted.
  destruct (m w) as [w1 [a | e]] eqn:Hrun.
  - intros [= <- _]. eapply Hm; eauto.
  - intros [= <- _]. eapply R_rollback, Hm; eassumption.
Qed.

End Steady.

Section Growth.

Lemma prefix_refl {A} (l : list A) : prefix l l.
Proof. exists []. now rewrite app_nil_r. Qed.

Lemma prefix_trans {A} (l1 l2 l3 : list A) : prefix l1 l2 -> prefix l2 l3 -> prefix l1 l3.
Proof. intros [a ->] [b ->]. exists (a ++ b). now rewrite app_assoc. Qed.

Lemma prefix_app {A} (l more : list A) : prefix l (l ++ more).
Proof. now exists more. Qed.

Lemma prefix_map_app {A B} (f : A -> B) (l more : list A) :
  prefix (map f l) (map f (l ++ more)).
Proof. rewrite map_app. apply prefix_app. Qed.

(** An update in place that keeps the key of every row. *)
Lemma prefix_map_update {A B} (key : A -> B) (g : A -> A) (l : list A) :
  (forall x, key (g x) = key x) -> prefix (map key l) (map key (map g l)).
Proof.
  intros H. rewrite map_map. rewrite (map_ext (fun x => key (g x)) key H).
  apply prefix_refl.
Qed.

Lemma grows_refl w : grows w w.
Proof. repeat split; apply prefix_refl. Qed.

Lemma grows_trans w1 w2 w3 : grows w1 w2 -> grows w2 w3 -> grows w1 w3.
Proof.
  intros (Hu & Hc & Hi & Hp & Hf & Ha & Hb & Hr & Ho & Hx)
         (Hu' & Hc' & Hi' & Hp' & Hf' & Ha' & Hb' & Hr' & Ho' & Hx').
  repeat split; try congruence; eapply prefix_trans; eauto.
Qed.

Lemma grows_rollback w w1 : grows w w1 -> grows w (with_outbox (outbox w1) w).
Proof.
  intros (_ & _ & _ & _ & _ & _ & _ & _ & _ & Hx).
  unfold grows. store_simpl. repeat split; try apply prefix_refl. exact Hx.
Qed.

Ltac grows_write :=
  unfold grows; store_simpl;
  repeat split;
  first [ apply prefix_refl | apply prefix_app | apply prefix_map_app ].

Lemma grows_emit iid c : preserves grows (emit iid c).
Proof. intros w w' r [= <- _]. grows_write. Qed.

Lemma grows_add_interview mk_row : preserves grows (add_interview mk_row).
Proof. intros w w' r [= <- _]. grows_write. Qed.

Lemma grows_update_interview id f :
  (forall i, Interview.id (f i) = Interview.id i) ->
  preserves grows (update_interview id f).
Proof.
  intros Hf w w' r [= <- _]. unfold grows. store_simpl.
  repeat split; try apply prefix_refl.
  apply prefix_map_update. intros i. destruct (Interview.id i =? id); auto.
Qed.

Lemma grows_add_participant p : preserves grows (add_participant p).
Proof.
  intros w w' r. unfold add_participant.
  destruct existsb; intros [= <- _]; [apply grows_refl | grows_write].
Qed.

Lemma grows_add_ats a : preserves grows (add_ats a).
Proof.
  intros w w' r. unfold add_ats.
  destruct existsb; intros [= <- _]; [apply grows_refl | grows_write].
Qed.

Lemma grows_update_ats id f :
  (forall a, ATSRecord.interview_id (f a) = ATSRecord.interview_id a) ->
  preserves grows (update_ats id f).
Proof.
  intros Hf w w' r [= <- _]. unfold grows. store_simpl.
  repeat split; try apply prefix_refl.
  apply prefix_map_update. intros a. destruct (ATSRecord.interview_id a =? id); auto.
Qed.

Lemma grows_add_feedback f : preserves grows (add_feedback f).
Proof.
  intros w w' r. unfold add_feedback.
  destruct existsb; intros [= <- _]; [apply grows_refl | grows_write].
Qed.

Lemma grows_update_feedback iid uid (row : Feedback.t) :
  Feedback.interview_id row = iid -> Feedback.user_id row = uid ->
  preserves grows (update_feedback iid uid (fun _ => row)).
Proof.
  intros Hi Hu w w' r [= <- _]. unfold grows. store_simpl.
  repeat split; try apply prefix_refl.
  apply (prefix_map_update (fun f => (Feedback.interview_id f, Feedback.user_id f))).
  intros g. destruct (Z.eqb_spec (Feedback.interview_id g) iid);
    destruct (Z.eqb_spec (Feedback.user_id g) uid); cbn [andb]; congruence.
Qed.

Lemma grows_add_request mk_row : preserves grows (add_request mk_row).
Proof. intros w w' r [= <- _]. grows_write. Qed.

Lemma grows_update_request id f :
  (forall x, SchedulingRequest.id (f x) = SchedulingRequest.id x) ->
  preserves grows (update_request id f).
Proof.
  intros Hf w w' r [= <- _]. unfold grows. store_simpl.
  repeat split; try apply prefix_refl.
  apply prefix_map_update. intros x. destruct (SchedulingRequest.id x =? id); auto.
Qed.

Lemma grows_add_option rid s e : preserves grows (add_option rid s e).
Proof.
  intros w w' r. unfold add_option.
  destruct existsb; intros [= <- _]; [apply grows_refl | grows_write].
Qed.

Lemma grows_add_options rid slots : preserves grows (add_options rid slots).
Proof.
  induction slots as [|[s e] rest IH]; simpl.
  - apply steady_ret, grows_refl.
  - apply steady_bind; [apply grows_trans | apply grows_add_option | intros opt].
    apply steady_bind; [apply grows_trans | exact IH | intros opts].
    apply steady_ret, grows_refl.
Qed.

Lemma grows_block_time uid s e title : preserves grows (do_block_time uid s e title).
Proof. intros w w' r [= <- _]. unfold block_time. grows_write. Qed.

End Growth.

(** Discharges [preserves grows m] for the bodies of the services. *)
Ltac grows_tac :=
  unfold notify_scheduled, get_candidate, get_interview, get_request, get_option;
  cbv zeta;
  repeat first
    [ exact grows_refl | exact grows_trans | exact grows_rollback
    | match goal with |- forall _, _ => intros ? end
    | apply steady_ret | apply steady_gets | apply steady_raise
    | apply steady_scalar
    | apply grows_emit | apply grows_add_interview
    | apply grows_add_participant | apply grows_add_ats | apply grows_add_feedback
    | apply grows_add_request | apply grows_add_options | apply grows_block_time
    | apply grows_update_interview; intros ?; reflexivity
    | apply grows_update_ats; intros ?; reflexivity
    | apply grows_update_request; intros ?; reflexivity
    | apply grows_update_feedback; reflexivity
    | apply steady_transactional
    | apply steady_discard
    | apply steady_for_each
    | apply steady_bind
    | match goal with
      | |- preserves _ (match ?x with _ => _ end) => destruct x
      | |- preserves _ (if ?b then _ else _) => destruct b
      end ].

Section GrowthOfEntryPoints.

Variable env : Env.

Lemma start_interview_grows rn re c j ids tw d now hex :
  preserves grows (start_interview rn re c j ids tw d now hex).
Proof. unfold start_interview. grows_tac. Qed.

Lemma propose_schedule_grows rn re c j ids tw d lim now :
  preserves grows (propose_schedule rn re c j ids tw d lim now).
Proof. unfold propose_schedule. grows_tac. Qed.

Lemma approve_grows rid oid ids now hex :
  preserves grows (approve_schedule_and_create_interview rid oid ids now hex).
Proof. unfold approve_schedule_and_create_interview. grows_tac. Qed.

Lemma submit_feedback_grows tok dec com now :
  preserves grows (submit_feedback env tok dec com now).
Proof. unfold submit_feedback. grows_tac. Qed.

Lemma tick_grows t clock : preserves grows (tick env t clock).
Proof. unfold tick, send_reminder, request_feedback, maybe_consolidate. grows_tac. Qed.

Lemma step_grows op w : grows w (step env op w).
Proof.
  destruct op; cbn [step].
  - eapply start_interview_grows. apply surjective_pairing.
  - eapply propose_schedule_grows. apply surjective_pairing.
  - eapply approve_grows. apply surjective_pairing.
  - eapply submit_feedback_grows. apply surjective_pairing.
  - eapply tick_grows. apply surjective_pairing.
Qed.

Lemma run_grows ops : forall w, grows w (run env ops w).
Proof.
  induction ops as [|op ops IH]; intros w; unfold run; cbn [fold_left].
  - apply grows_refl.
  - eapply grows_trans; [apply step_grows | apply IH].
Qed.

End GrowthOfEntryPoints.

(** X22. No sequence of calls of the entry points deletes a row or changes
    a key: the users and the candidates stay the same; the interviews, the
    ATS records, the feedback rows and the scheduling requests keep their
    keys in place; participant rows, calendar blocks and scheduling options
    stay as they are; new rows come at the end; and what was sent stays
    sent. *)
Theorem entry_points_only_add (env : Env) (ops : list Op) (w : Store) :
  grows w (run env ops w).
Proof. apply run_grows. Qed.

Lemma is_user_free_more (blocks more : list CalendarBlock.t) (uid : Z) (s e : datetime) :
  is_user_free blocks uid s e = false -> is_user_free (blocks ++ more) uid s e = false.
Proof.
  unfold is_user_free. cbv zeta. rewrite find_append.
  destruct (find _ blocks); [reflexivity | discriminate].
Qed.

(** X23. Calendar time is never released: a user who is not free in an
    interval stays not free in it after any sequence of calls of the entry
    points. *)
Theorem busy_stays_busy (env : Env) (ops : list Op) (w : Store)
    (uid : Z) (s e : datetime) :
  is_user_free (calendar_blocks w) uid s e = false ->
  is_user_free (calendar_blocks (run env ops w)) uid s e = false.
Proof.
  intros Hbusy.
  destruct (run_grows env ops w) as (_ & _ & _ & _ & _ & _ & [more ->] & _).
  now apply is_user_free_more.
Qed.

(** After the booking of the smoke test, its three submissions and a tick,
    the first interviewer is still taken for the hour of the interview. *)
Lemma busy_stays_busy_witness :
  is_user_free
    (calendar_blocks (run demo_env [OpTick (base + minutes 70) (ticking (base + minutes 70))] feedback_store))
    1 base (base + minutes 60) = false.
Proof.
  apply (busy_stays_busy demo_env [OpTick (base + minutes 70) (ticking (base + minutes 70))] feedback_store).
  vm_compute. reflexivity.
Defined.

(* ===================================================================== *)
(** ** seed.py *)

Section Seed.

Lemma rollback_same (w : Store) : with_outbox (outbox w) w = w.
Proof. now destruct w. Qed.

Lemma seed_if_empty_skips now w :
  users w <> [] -> seed_if_empty now w = (w, Ok tt).
Proof.
  intros Hne. unfold seed_if_empty, transactional.
  unfold bind at 1, gets at 1.
  destruct (users w) as [|u us]; [congruence |]. cbn [map firstn].
  reflexivity.
Qed.

Lemma seed_if_empty_run now w :
  users w = [] ->
  seed_if_empty now w
  = if existsb (fun c => String.eqb (Candidate.email c) seed_email) (candidates w)
    then (w, Raise IntegrityError)
    else (seeded now w, Ok tt).
Proof.
  intros Hempty. unfold seed_if_empty, transactional.
  unfold bind at 1, gets at 1. rewrite Hempty. cbn [map firstn].
  unfold bind at 1, scalar_one_or_none, ret at 1.
  unfold bind at 1, add_user at 1. rewrite Hempty. cbn [existsb map app].
  unfold bind at 1, add_user at 1.
  cbn [users with_users candidates User.email User.id map existsb app].
  replace (String.eqb _ _) with false by (vm_compute; reflexivity). cbn [orb].
  unfold bind at 1, add_user at 1.
  cbn [users with_users candidates User.email User.id map existsb app].
  replace (String.eqb "ivan.engineer@example.com" "max.techlead@example.com")
    with false by (vm_compute; reflexivity).
  replace (String.eqb "olga.engineer@example.com" "max.techlead@example.com")
    with false by (vm_compute; reflexivity).
  cbn [orb].
  unfold bind at 1, add_candidate at 1.
  cbn [users with_users candidates Candidate.email].
  destruct (existsb _ (candidates w)).
  - cbn [outbox with_users]. now rewrite rollback_same.
  - unfold modify, seeded. reflexivity.
Qed.

End Seed.

(** X24. [seed_if_empty] seeds once. With a user in the store it does
    nothing. With none, and no candidate that has the email of the demo
    candidate, it adds the three demo users under the ids 1, 2 and 3, the
    demo candidate under the next free id, and the three demo blocks, which
    start one hour, two hours and an hour and a half after the full hour two
    hours ahead; with such a candidate it raises the integrity error and
    leaves the store as it was. In every case a second call leaves the store
    that the first has left. *)
Theorem seed_if_empty_seeds_once (now now' : datetime) (w : Store) :
  (users w <> [] -> seed_if_empty now w = (w, Ok tt))
  /\ (users w = [] ->
      (forall c, In c (candidates w) -> Candidate.email c <> seed_email) ->
      seed_if_empty now w = (seeded now w, Ok tt))
  /\ (users w = [] ->
      (exists c, In c (candidates w) /\ Candidate.email c = seed_email) ->
      seed_if_empty now w = (w, Raise IntegrityError))
  /\ fst (seed_if_empty now' (fst (seed_if_empty now w))) = fst (seed_if_empty now w).
Proof.
  split; [apply seed_if_empty_skips |].
  split; [| split].
  - intros Hempty Hfree. rewrite (seed_if_empty_run now w Hempty).
    destruct (existsb _ (candidates w)) eqn:Hex; [| reflexivity].
    apply existsb_exists in Hex. destruct Hex as (c & Hc & He).
    apply String.eqb_eq in He. now destruct (Hfree c Hc).
  - intros Hempty (c & Hc & He). rewrite (seed_if_empty_run now w Hempty).
    replace (existsb _ (candidates w)) with true; [reflexivity |].
    symmetry. apply existsb_exists. exists c. split; [assumption |].
    now apply String.eqb_eq.
  - destruct (users w) as [|u us] eqn:Hu.
    + rewrite (seed_if_empty_run now w Hu).
      destruct (existsb _ (candidates w)) eqn:Hex; cbn [fst].
      * rewrite (seed_if_empty_run now' w Hu), Hex. reflexivity.
      * rewrite seed_if_empty_skips; [reflexivity |]. discriminate.
    + assert (Hne : users w <> []) by (rewrite Hu; discriminate).
      rewrite (seed_if_empty_skips now w Hne). cbn [fst].
      now rewrite (seed_if_empty_skips now' w Hne).
Qed.

(* ===================================================================== *)
(** ** The direct booking, run forward *)

Section BookingRun.

Variables (rn re : string) (c : Z) (j : string) (ids : list Z) (tw : TimeWindow).
Variables (d : Z) (now : datetime) (hex : string) (w : Store).
Variables (cand : Candidate.t) (s e : datetime).
Hypothesis interviews_fk : rows_reference_interviews w.
Hypothesis candidate_found :
  find (fun x => Candidate.id x =? c) (candidates w) = Some cand.
Hypothesis some_id : ids <> [].
Hypothesis distinct_ids : NoDup ids.
Hypothesis users_found : List.length (users_in ids w) = len_set ids.
Hypothesis slot_found :
  find_common_slot (calendar_blocks w) ids tw d 15 = Some (s, e).

Local Abbreviation new_id := (next_id (map Interview.id (interviews w))).

Local Abbreviation created :=
  (Interview.mk new_id c j rn re now s e (_video_link new_id hex)
     InterviewStatus.scheduled None None None).

Lemma start_interview_run :
  start_interview rn re c j ids tw d now hex w
  = (booked w created ids (users_in ids w) cand (block_title cand j) now, Ok created).
Proof.
  unfold start_interview, transactional.
  unfold bind at 1, get_candidate, gets at 1. rewrite candidate_found.
  replace (is_nil ids) with false by (destruct ids; [congruence | reflexivity]).
  unfold bind at 1, gets at 1.
  rewrite users_found, Nat.eqb_refl. cbn [negb].
  unfold bind at 1, gets at 1. rewrite slot_found.
  unfold bind at 1, add_interview.
  unfold bind at 1, update_interview, modify. store_simpl. cbn [Interview.id].
  destruct interviews_fk as (Hpart & _ & Hats).
  unfold bind at 1. rewrite add_participants_run; [| assumption |].
  2:{ store_simpl. intros p Hp Hi _. apply Hpart, next_id_fresh in Hp. lia. }
  unfold bind at 1, add_ats. store_simpl. cbn [ATSRecord.interview_id].
  rewrite (existsb_fresh ATSRecord.interview_id _ _ Hats).
  unfold bind at 1. rewrite block_times_run.
  unfold bind at 1. rewrite notify_scheduled_run. unfold ret.
  pose proof (update_new_interview (interviews w)
                (Interview.mk new_id c j rn re now s e
                   "pending" InterviewStatus.scheduled None None None)
                (Interview.set_video_link (_video_link new_id hex)) eq_refl) as Hmap.
  cbn [Interview.id] in Hmap.
  f_equal. apply store_ext; store_simpl;
    cbn [Interview.id Interview.scheduled_start Interview.scheduled_end];
    solve [reflexivity | exact Hmap].
Qed.

End BookingRun.

(** X25. [start_interview] succeeds whenever its checks pass and the store
    is consistent: for a candidate of the store, a non-empty list of
    distinct ids that all name users, and a slot found by
    [find_common_slot] with a step of fifteen minutes, in a store with
    distinct user ids whose participant and ATS rows name existing
    interviews, it raises nothing, not even an integrity error; the
    interview is scheduled in that slot, its participants are the listed
    ids, and, the slot being of positive length, none of them is free in it
    afterwards. *)
Theorem start_interview_succeeds rn re c j ids tw d now hex (w : Store)
    (cand : Candidate.t) (s e : datetime) :
  rows_reference_interviews w ->
  NoDup (map User.id (users w)) ->
  find (fun x => Candidate.id x =? c) (candidates w) = Some cand ->
  ids <> [] -> NoDup ids ->
  List.length (users_in ids w) = List.length ids ->
  find_common_slot (calendar_blocks w) ids tw d 15 = Some (s, e) ->
  exists w' iv,
    start_interview rn re c j ids tw d now hex w = (w', Ok iv)
    /\ Interview.scheduled_start iv = s /\ Interview.scheduled_end iv = e
    /\ Interview.status iv = InterviewStatus.scheduled
    /\ participant_ids (Interview.id iv) w' = ids
    /\ forall uid, In uid ids -> s < e ->
         is_user_free (calendar_blocks w') uid s e = false.
Proof.
  intros Hfk Hpk Hcand Hne Hnd Hlen Hslot.
  assert (Hset : len_set ids = List.length ids).
  { unfold len_set. now rewrite (nodup_fixed_point Z.eq_dec Hnd). }
  rewrite <- Hset in Hlen.
  eexists. eexists. split.
  { apply (start_interview_run rn re c j ids tw d now hex w cand s e); assumption. }
  cbn [Interview.scheduled_start Interview.scheduled_end Interview.status Interview.id].
  split; [reflexivity |]. split; [reflexivity |]. split; [reflexivity |]. split.
  - unfold participant_ids. store_simpl. cbn [Interview.id].
    destruct Hfk as (Hpart & _).
    rewrite filter_app, (filter_fresh InterviewParticipant.interview_id _ _ Hpart).
    cbn [app]. rewrite forallb_filter_id.
    + rewrite map_map. cbn [InterviewParticipant.user_id]. apply map_id.
    + apply forallb_forall. intros p Hp. apply in_map_iff in Hp.
      destruct Hp as (u & <- & _).
      cbn [InterviewParticipant.interview_id]. apply Z.eqb_refl.
  - intros uid Huid Hlt. store_simpl.
    cbn [Interview.scheduled_start Interview.scheduled_end].
    assert (Hu : In uid (map User.id (users_in ids w))).
    { apply users_in_ids. split; [| assumption].
      now apply (proj1 (users_resolve_iff w Hpk ids) Hlen). }
    apply in_map_iff in Hu. destruct Hu as (u & Hid & Hu).
    unfold is_user_free, ensure_aware. cbv zeta. rewrite find_append.
    destruct (find _ (calendar_blocks w)); [reflexivity |].
    destruct (find _ (map _ (users_in ids w))) eqn:Hf; [reflexivity |].
    exfalso.
    assert (Hb : In (CalendarBlock.mk (User.id u) s e (block_title cand j))
                   (map (fun u => CalendarBlock.mk (User.id u) s e (block_title cand j))
                      (users_in ids w))) by (apply in_map_iff; eauto).
    pose proof (find_none _ _ Hf _ Hb) as Hno.
    unfold blocks_user in Hno.
    cbn [CalendarBlock.user_id CalendarBlock.start CalendarBlock.end_] in Hno.
    rewrite Hid, Z.eqb_refl in Hno. cbn [andb] in Hno.
    apply andb_false_iff in Hno. destruct Hno as [Hno | Hno].
    + apply Z.ltb_ge in Hno. lia.
    + rewrite Z.gtb_ltb in Hno. apply Z.ltb_ge in Hno. lia.
Qed.

(** The direct booking of the smoke test. *)
Lemma start_interview_succeeds_witness :
  exists w' iv,
    demo_start [1; 2; 3] seed_store = (w', Ok iv)
    /\ Interview.scheduled_start iv = base.
Proof.
  destruct (start_interview_succeeds "Recruiter" "recruiter@example.com" 1 "Backend Engineer"
              [1; 2; 3] demo_window 60 (base - minutes 115) "0a1b2c3d" seed_store
              test_candidate base (base + minutes 60))
    as (w' & iv & Hrun & Hs & _).
  - split; [| split]; intros x Hx; vm_compute in Hx; contradiction.
  - vm_compute. repeat constructor; simpl; intuition discriminate.
  - reflexivity.
  - discriminate.
  - repeat constructor; simpl; intuition lia.
  - vm_compute. reflexivity.
  - vm_compute. reflexivity.
  - exists w', iv. split; assumption.
Defined.

Lemma floor_hour_on_the_hour (now : datetime) : (minutes 60 | floor_hour now).
Proof.
  unfold floor_hour. exists (now / minutes 60).
  pose proof (Z.div_mod now (minutes 60)) as H.
  assert (Hpos : minutes 60 <> 0) by (unfold minutes, MICROSECOND; lia).
  specialize (H Hpos). lia.
Qed.

(** X26. The demo calendar leaves the first hour free. After a seeding of a
    store without users and without calendar blocks, a search for the three
    demo users in a window that starts at the base time of the seed (the
    full hour two hours ahead, as in the smoke tests), for a duration of at
    most sixty minutes that fits the window, returns the slot that starts at
    the base time. *)
Theorem seeded_calendar_first_slot (now : datetime) (w w1 : Store)
    (window : TimeWindow) (d : Z) :
  users w = [] -> calendar_blocks w = [] ->
  seed_if_empty now w = (w1, Ok tt) ->
  tw_start window = floor_hour now + minutes 120 ->
  0 < d <= 60 ->
  floor_hour now + minutes 120 + minutes d <= tw_end window ->
  find_common_slot (calendar_blocks w1) [1; 2; 3] window d 15
  = Some (floor_hour now + minutes 120, floor_hour now + minutes 120 + minutes d).
Proof.
  intros Hu Hb Hrun Hstart Hd Hend.
  rewrite (seed_if_empty_run now w Hu) in Hrun.
  destruct (existsb _ (candidates w)); [discriminate |].
  injection Hrun as <-. unfold seeded. store_simpl. rewrite Hb. cbn [app].
  set (base := floor_hour now + minutes 120) in *.
  set (blocks := seed_blocks 1 2 3 base).
  assert (Hgrid : on_grid 15 base).
  { unfold on_grid, base. destruct (floor_hour_on_the_hour now) as [k Hk].
    exists (4 * k + 8). rewrite Hk. unfold minutes, MICROSECOND. lia. }
  assert (Hsec : (MICROSECOND | tw_start window)).
  { rewrite Hstart. destruct Hgrid as [k Hk]. exists (k * 900).
    rewrite Hk. unfold minutes, MICROSECOND. lia. }
  assert (Hfree : feasible blocks [1; 2; 3] base (base + minutes d)).
  { intros uid _ b Hin (_ & Hlt & _).
    assert (Hge : base + minutes 60 <= CalendarBlock.start b).
    { unfold blocks, seed_blocks in Hin.
      destruct Hin as [<- | [<- | [<- | []]]]; cbn [CalendarBlock.start];
        unfold minutes, MICROSECOND; lia. }
    unfold minutes, MICROSECOND in *. lia. }
  assert (Hstep : 0 < 15) by lia.
  assert (Hsome : [1; 2; 3] <> []) by discriminate.
  pose proof (find_common_slot_first_fit blocks [1; 2; 3] window d 15 Hstep Hsome Hsec)
    as Hfit.
  destruct (find_common_slot blocks [1; 2; 3] window d 15) as [[s e]|].
  - destruct Hfit as (He & [Hin _] & _ & _ & Hfirst). subst e.
    assert (Hs : s = base).
    { destruct (Z.eq_dec s base) as [Heq | Hneq]; [assumption |].
      exfalso. apply (Hfirst base Hgrid); [lia | exact Hfree]. }
    now subst s.
  - exfalso. apply (Hfit base Hgrid); [| exact Hfree].
    split; [rewrite Hstart; apply Z.le_refl | exact Hend].
Qed.

(** A first start at 08:05 in an empty store: the smoke test books
    10:00 to 11:00. *)
Lemma seeded_calendar_first_slot_witness :
  find_common_slot
    (calendar_blocks (seeded (base - minutes 115)
                        (mkStore [] [] [] [] [] [] [] [] [] [])))
    [1; 2; 3] demo_window 60 15
  = Some (floor_hour (base - minutes 115) + minutes 120,
          floor_hour (base - minutes 115) + minutes 120 + minutes 60).
Proof.
  apply (seeded_calendar_first_slot (base - minutes 115)
           (mkStore [] [] [] [] [] [] [] [] [] [])).
  - reflexivity.
  - reflexivity.
  - vm_compute. reflexivity.
  - vm_compute. reflexivity.
  - lia.
  - vm_compute. discriminate.
Defined.

(* ===================================================================== *)
(** ** The unique constraints are kept, and the ticker returns *)

Section Constraints.

Lemma keeps_refl P w : keeps P w w.
Proof. intros H. exact H. Qed.

Lemma keeps_trans P w1 w2 w3 : keeps P w1 w2 -> keeps P w2 w3 -> keeps P w1 w3.
Proof. intros H12 H23 H. auto. Qed.

Lemma constraints_rollback w w1 :
  keeps constraints w w1 -> keeps constraints w (with_outbox (outbox w1) w).
Proof. intros _ H. exact H. Qed.

Lemma NoDup_snoc (l : list Z) (k : Z) : NoDup l -> ~ In k l -> NoDup (l ++ [k]).
Proof.
  intros Hnd Hnot. apply NoDup_app; [assumption | repeat constructor; auto |].
  intros x Hx [<- | []]. contradiction.
Qed.

Lemma constraints_emit iid c : preserves (keeps constraints) (emit iid c).
Proof. intros w w' r [= <- _] H. exact H. Qed.

Lemma constraints_add_interview mk_row :
  (forall id, Interview.id (mk_row id) = id) ->
  preserves (keeps constraints) (add_interview mk_row).
Proof.
  intros Hid w w' r [= <- _] (Hpk & Ha & Hf). split; [| split; assumption].
  unfold interviews_pk in *. store_simpl. rewrite map_app. cbn [map]. rewrite Hid.
  apply NoDup_snoc; [assumption |]. intros Hin. apply next_id_fresh in Hin. lia.
Qed.

Lemma constraints_update_interview id f :
  (forall i, Interview.id (f i) = Interview.id i) ->
  preserves (keeps constraints) (update_interview id f).
Proof.
  intros Hf w w' r [= <- _] (Hpk & Ha & Hfb). split; [| split; assumption].
  unfold interviews_pk in *. store_simpl. rewrite map_map.
  rewrite (map_ext _ Interview.id); [assumption |].
  intros i. destruct (Interview.id i =? id); auto.
Qed.

Lemma constraints_add_participant p : preserves (keeps constraints) (add_participant p).
Proof.
  intros w w' r. unfold add_participant.
  destruct existsb; intros [= <- _] H; exact H.
Qed.

Lemma constraints_add_ats a : preserves (keeps constraints) (add_ats a).
Proof.
  intros w w' r. unfold add_ats.
  destruct (existsb _ (ats_records w)) eqn:Hex; intros [= <- _] (Hpk & Ha & Hf);
    [repeat split; assumption |].
  split; [assumption |]. split; [| assumption].
  unfold ats_unique in *. store_simpl. rewrite map_app. cbn [map].
  apply NoDup_snoc; [assumption |]. intros Hin.
  apply in_map_iff in Hin. destruct Hin as (b & Hk & Hb).
  assert (Hc : existsb (fun b => ATSRecord.interview_id b =? ATSRecord.interview_id a)
                 (ats_records w) = true).
  { apply existsb_exists. exists b. split; [assumption | now apply Z.eqb_eq]. }
  congruence.
Qed.

Lemma constraints_update_ats id f :
  (forall a, ATSRecord.interview_id (f a) = ATSRecord.interview_id a) ->
  preserves (keeps constraints) (update_ats id f).
Proof.
  intros Hf w w' r [= <- _] (Hpk & Ha & Hfb). split; [assumption |].
  split; [| assumption].
  unfold ats_unique in *. store_simpl. rewrite map_map.
  rewrite (map_ext _ ATSRecord.interview_id); [assumption |].
  intros a. destruct (ATSRecord.interview_id a =? id); auto.
Qed.

Lemma constraints_add_feedback f : preserves (keeps constraints) (add_feedback f).
Proof.
  intros w w' r. unfold add_feedback.
  destruct (existsb _ (feedback w)) eqn:Hex; intros [= <- _] (Hpk & Ha & Hf);
    [repeat split; assumption |].
  split; [assumption |]. split; [assumption |].
  intros i u. unfold feedback_by. store_simpl. rewrite filter_app, length_app.
  cbn [filter].
  destruct ((Feedback.interview_id f =? i) && (Feedback.user_id f =? u)) eqn:Hk;
    cbn [List.length]; [| specialize (Hf i u); unfold feedback_by in Hf; lia].
  apply andb_true_iff in Hk. destruct Hk as [Hi Hu]. apply Z.eqb_eq in Hi, Hu. subst i u.
  destruct (filter _ (feedback w)) as [|g gs] eqn:Hflt; [cbn [List.length]; lia |].
  exfalso.
  assert (Hg : In g (filter (fun g => (Feedback.interview_id g =? Feedback.interview_id f)
                                      && (Feedback.user_id g =? Feedback.user_id f))
                       (feedback w))) by (rewrite Hflt; now left).
  apply filter_In in Hg. destruct Hg as [Hg Hgk].
  assert (Hc : existsb (fun g => (Feedback.interview_id g =? Feedback.interview_id f)
                                 && (Feedback.user_id g =? Feedback.user_id f))
                 (feedback w) = true) by (apply existsb_exists; eauto).
  congruence.
Qed.

Lemma constraints_update_feedback iid uid (row : Feedback.t) :
  Feedback.interview_id row = iid -> Feedback.user_id row = uid ->
  preserves (keeps constraints) (update_feedback iid uid (fun _ => row)).
Proof.
  intros Hi Hu w w' r [= <- _] (Hpk & Ha & Hf). split; [assumption |].
  split; [assumption |].
  intros i u. unfold feedback_by. store_simpl.
  destruct (Z.eq_dec i iid) as [-> | Hne1]; [destruct (Z.eq_dec u uid) as [-> | Hne2] |].
  - rewrite (filter_map_hit _ (fun _ => row)).
    + rewrite length_map. apply (Hf iid uid).
    + intros g _. now rewrite Hi, Hu, !Z.eqb_refl.
  - rewrite (filter_map_miss (fun g => (Feedback.interview_id g =? iid)
                                       && (Feedback.user_id g =? uid)) (fun _ => row)).
    + apply (Hf iid u).
    + intros g Hg. apply andb_true_iff in Hg. destruct Hg as [Hgi Hgu].
      apply Z.eqb_eq in Hgi, Hgu. rewrite Hi, Hu, Hgi, Hgu, Z.eqb_refl. cbn [andb].
      split; apply Z.eqb_neq; congruence.
  - rewrite (filter_map_miss (fun g => (Feedback.interview_id g =? iid)
                                       && (Feedback.user_id g =? uid)) (fun _ => row)).
    + apply (Hf i u).
    + intros g Hg. apply andb_true_iff in Hg. destruct Hg as [Hgi Hgu].
      apply Z.eqb_eq in Hgi, Hgu. rewrite Hi, Hgi.
      replace (iid =? i) with false by (symmetry; apply Z.eqb_neq; congruence).
      now split.
Qed.

Lemma constraints_add_request mk_row : preserves (keeps constraints) (add_request mk_row).
Proof. intros w w' r [= <- _] H. exact H. Qed.

Lemma constraints_update_request id f : preserves (keeps constraints) (update_request id f).
Proof. intros w w' r [= <- _] H. exact H. Qed.

Lemma constraints_add_option rid s e : preserves (keeps constraints) (add_option rid s e).
Proof.
  intros w w' r. unfold add_option.
  destruct existsb; intros [= <- _] H; exact H.
Qed.

Lemma constraints_add_options rid slots :
  preserves (keeps constraints) (add_options rid slots).
Proof.
  induction slots as [|[s e] rest IH]; simpl.
  - apply steady_ret, keeps_refl.
  - apply steady_bind; [apply keeps_trans | apply constraints_add_option | intros opt].
    apply steady_bind; [apply keeps_trans | exact IH | intros opts].
    apply steady_ret, keeps_refl.
Qed.

Lemma constraints_block_time uid s e title :
  preserves (keeps constraints) (do_block_time uid s e title).
Proof. intros w w' r [= <- _] H. exact H. Qed.

End Constraints.

(** Discharges [preserves (keeps constraints) m] for the bodies of the
    services. *)
Ltac constraints_tac :=
  unfold notify_scheduled, get_candidate, get_interview, get_request, get_option;
  cbv zeta;
  repeat first
    [ exact (keeps_refl constraints) | exact (keeps_trans constraints)
    | exact constraints_rollback
    | match goal with |- forall _, _ => intros ? end
    | apply steady_ret | apply steady_gets | apply steady_raise
    | apply steady_scalar
    | apply constraints_emit
    | apply constraints_add_interview; intros ?; reflexivity
    | apply constraints_add_participant | apply constraints_add_ats
    | apply constraints_add_feedback
    | apply constraints_add_request | apply constraints_add_options
    | apply constraints_block_time
    | apply constraints_update_interview; intros ?; reflexivity
    | apply constraints_update_ats; intros ?; reflexivity
    | apply constraints_update_request
    | apply constraints_update_feedback; reflexivity
    | apply steady_transactional
    | apply steady_discard
    | apply steady_for_each
    | apply steady_bind
    | match goal with
      | |- preserves _ (match ?x with _ => _ end) => destruct x
      | |- preserves _ (if ?b then _ else _) => destruct b
      end ].

Section ConstraintsOfEntryPoints.

Variable env : Env.

Lemma start_interview_constraints rn re c j ids tw d now hex :
  preserves (keeps constraints) (start_interview rn re c j ids tw d now hex).
Proof. unfold start_interview. constraints_tac. Qed.

Lemma propose_schedule_constraints rn re c j ids tw d lim now :
  preserves (keeps constraints) (propose_schedule rn re c j ids tw d lim now).
Proof. unfold propose_schedule. constraints_tac. Qed.

Lemma approve_constraints rid oid ids now hex :
  preserves (keeps constraints)
    (approve_schedule_and_create_interview rid oid ids now hex).
Proof. unfold approve_schedule_and_create_interview. constraints_tac. Qed.

Lemma submit_feedback_constraints tok dec com now :
  preserves (keeps constraints) (submit_feedback env tok dec com now).
Proof. unfold submit_feedback. constraints_tac. Qed.

Lemma send_reminder_constraints id t :
  preserves (keeps constraints) (send_reminder id t).
Proof. unfold send_reminder. constraints_tac. Qed.

Lemma request_feedback_constraints id t :
  preserves (keeps constraints) (request_feedback id t).
Proof. unfold request_feedback. constraints_tac. Qed.

Lemma maybe_consolidate_constraints id t :
  preserves (keeps constraints) (maybe_consolidate env id t).
Proof. unfold maybe_consolidate. constraints_tac. Qed.

Lemma tick_constraints t clock : preserves (keeps constraints) (tick env t clock).
Proof.
  unfold tick.
  repeat first
    [ exact (keeps_refl constraints) | exact (keeps_trans constraints)
    | exact constraints_rollback
    | match goal with |- forall _, _ => intros ? end
    | apply steady_ret | apply steady_gets
    | apply send_reminder_constraints | apply request_feedback_constraints
    | apply maybe_consolidate_constraints
    | apply steady_discard | apply steady_for_each | apply steady_bind ].
Qed.

Lemma step_constraints op w : constraints w -> constraints (step env op w).
Proof.
  destruct op; cbn [step].
  - eapply start_interview_constraints. apply surjective_pairing.
  - eapply propose_schedule_constraints. apply surjective_pairing.
  - eapply approve_constraints. apply surjective_pairing.
  - eapply submit_feedback_constraints. apply surjective_pairing.
  - eapply tick_constraints. apply surjective_pairing.
Qed.

Lemma run_constraints ops : forall w, constraints w -> constraints (run env ops w).
Proof.
  induction ops as [|op ops IH]; intros w H; unfold run; cbn [fold_left].
  - exact H.
  - apply IH, step_constraints, H.
Qed.

(** Each action of the ticker returns in a store that satisfies the
    constraints. *)
Lemma send_reminder_returns id t w :
  exists w', send_reminder id t w = (w', Ok tt).
Proof.
  destruct (find (fun i => Interview.id i =? id) (interviews w)) as [iv|] eqn:Hiv.
  - destruct (find (fun c => Candidate.id c =? Interview.candidate_id iv) (candidates w))
      as [cand|] eqn:Hcand.
    + eexists. apply (send_reminder_run id t w iv cand Hiv Hcand).
    + exists w. apply (ticker_actions_missing env id t w). right. eauto.
  - exists w. apply (ticker_actions_missing env id t w). now left.
Qed.

Lemma request_feedback_returns id t w :
  constraints w -> exists w', request_feedback id t w = (w', Ok tt).
Proof.
  intros (_ & Ha & _).
  destruct (find (fun i => Interview.id i =? id) (interviews w)) as [iv|] eqn:Hiv.
  - destruct (find (fun c => Candidate.id c =? Interview.candidate_id iv) (candidates w))
      as [cand|] eqn:Hcand.
    + eexists. apply (request_feedback_run id t w iv cand Hiv Hcand Ha).
    + exists w. apply (ticker_actions_missing env id t w). right. eauto.
  - exists w. apply (ticker_actions_missing env id t w). now left.
Qed.

Lemma maybe_consolidate_returns id t w :
  constraints w -> exists w' b, maybe_consolidate env id t w = (w', Ok b).
Proof.
  intros (_ & Ha & _).
  destruct (find (fun i => Interview.id i =? id) (interviews w)) as [iv|] eqn:Hiv.
  - destruct (find (fun c => Candidate.id c =? Interview.candidate_id iv) (candidates w))
      as [cand|] eqn:Hcand.
    + destruct (issubset (map User.id (participants_of id w))
                  (map Feedback.user_id (feedback_of id w))) eqn:Hgate.
      * eexists. eexists. apply (maybe_consolidate_done env w id t iv cand Hiv Hcand Ha Hgate).
      * eexists. eexists. apply (maybe_consolidate_not_yet env w id t iv cand Hiv Hcand Hgate).
    + exists w, false. apply (ticker_actions_missing env id t w). right. eauto.
  - exists w, false. apply (ticker_actions_missing env id t w). now left.
Qed.

Lemma scan_returns (ids : list Z) (act : Z -> M unit) :
  (forall id, preserves (keeps constraints) (act id)) ->
  (forall id w, constraints w -> exists w', act id w = (w', Ok tt)) ->
  forall w, constraints w ->
    exists w', for_each ids act w = (w', Ok tt) /\ constraints w'.
Proof.
  intros Hkeep Hret. induction ids as [|id ids IH]; intros w Hc; cbn [for_each].
  - exists w. split; [reflexivity | assumption].
  - destruct (Hret id w Hc) as (w1 & Hrun).
    assert (Hc1 : constraints w1) by (eapply Hkeep; eauto).
    destruct (IH w1 Hc1) as (w2 & Hrest & Hc2).
    exists w2. split; [| assumption]. unfold bind. now rewrite Hrun.
Qed.

Lemma discard_ok {A} (m : M A) w w' a :
  m w = (w', Ok a) -> discard_uncommitted m w = (w', Ok a).
Proof. intros H. unfold discard_uncommitted. now rewrite H. Qed.

Lemma tick_returns t clock w :
  constraints w -> exists w', tick env t clock w = (w', Ok tt) /\ constraints w'.
Proof.
  intros Hc. unfold tick.
  unfold bind at 1, gets at 1.
  destruct (scan_returns (select_ids (reminder_due env t) w)
              (fun id => discard_uncommitted (send_reminder id (reminder_at clock id))))
    with (w := w)
    as (w1 & H1 & Hc1); [| | assumption |].
  { intros id. apply steady_discard; [exact constraints_rollback |].
    apply send_reminder_constraints. }
  { intros id w0 _.
    destruct (send_reminder_returns id (reminder_at clock id) w0) as (w' & Hr).
    exists w'. now apply discard_ok. }
  unfold bind at 1. rewrite H1.
  unfold bind at 1, gets at 1.
  destruct (scan_returns (select_ids (feedback_request_due env t) w1)
              (fun id => discard_uncommitted (request_feedback id (request_at clock id))))
    with (w := w1)
    as (w2 & H2 & Hc2); [| | assumption |].
  { intros id. apply steady_discard; [exact constraints_rollback |].
    apply request_feedback_constraints. }
  { intros id w0 Hc0.
    destruct (request_feedback_returns id (request_at clock id) w0 Hc0) as (w' & Hr).
    exists w'. now apply discard_ok. }
  unfold bind at 1. rewrite H2.
  unfold bind at 1, gets at 1.
  apply (scan_returns (select_ids consolidation_due w2)
           (fun id => bind (discard_uncommitted
                              (maybe_consolidate env id (consolidation_at clock id)))
                        (fun _ => ret tt))); [| | assumption].
  { intros id. apply steady_bind;
      [exact (keeps_trans constraints)
      | apply steady_discard;
        [exact constraints_rollback | apply maybe_consolidate_constraints]
      | intros ?; apply steady_ret; exact (keeps_refl constraints)]. }
  { intros id w0 Hc0.
    destruct (maybe_consolidate_returns id (consolidation_at clock id) w0 Hc0)
      as (w' & b & Hr).
    exists w'. unfold bind. now rewrite (discard_ok _ _ _ _ Hr). }
Qed.

End ConstraintsOfEntryPoints.

(** X27. The unique constraints are an invariant, and on them the ticker
    relies: from a store with distinct interview ids, at most one ATS record
    per interview and at most one Feedback row per interview and user, every
    sequence of calls of the entry points leaves such a store, and a [tick]
    on that store returns without raising, whatever the times its actions
    read. *)
Theorem tick_never_raises (env : Env) (ops : list Op) (t : datetime)
    (clock : ActionClock) (w : Store) :
  constraints w ->
  constraints (run env ops w)
  /\ exists w', tick env t clock (run env ops w) = (w', Ok tt).
Proof.
  intros Hc. pose proof (run_constraints env ops w Hc) as Hc'.
  split; [assumption |].
  destruct (tick_returns env t clock _ Hc') as (w' & Hrun & _). eauto.
Qed.

(** The tick after the three submissions of the smoke test. *)
Lemma tick_never_raises_witness :
  exists w', tick demo_env (base + minutes 70) (ticking (base + minutes 70))
               feedback_store = (w', Ok tt).
Proof.
  apply (tick_never_raises demo_env
           [ OpSubmit "token-1-1" "pass" "Comment from Ivan Engineer: demo evaluation."
               after_interview;
             OpSubmit "token-1-2" "need_more_info"
               "Comment from Olga Engineer: demo evaluation." after_interview;
             OpSubmit "token-1-3" "pass" "Comment from Max TechLead: demo evaluation."
               after_interview ]
           (base + minutes 70) (ticking (base + minutes 70)) booked_store).
  split; [| split].
  - unfold interviews_pk. vm_compute. repeat constructor. simpl. tauto.
  - unfold ats_unique. vm_compute. repeat constructor. simpl. tauto.
  - intros i u. vm_compute. lia.
Defined.

(* ===================================================================== *)
(** ** One tick in closed form *)

Section Scans.

Variables (env : Env) (clock : ActionClock).

Lemma mem_selected (p : Interview.t -> bool) (w : Store) (i : Interview.t) :
  interviews_pk w -> In i (interviews w) ->
  mem (Interview.id i) (select_ids p w) = p i.
Proof.
  intros Hpk Hi. destruct (p i) eqn:Hp.
  - apply mem_In, select_ids_In. eauto.
  - destruct (mem _ _) eqn:Hm; [| reflexivity].
    apply mem_In in Hm. apply (select_ids_row _ _ _ Hpk Hi) in Hm. congruence.
Qed.

Lemma find_other (id id' : Z) (f : Interview.t -> Interview.t) (l : list Interview.t) :
  (forall i, Interview.id (f i) = Interview.id i) -> id' <> id ->
  find (fun i => Interview.id i =? id') (map (upd id f) l)
  = find (fun i => Interview.id i =? id') l.
Proof.
  intros Hf Hne. unfold upd. rewrite find_update by exact Hf.
  destruct (find (fun x => Interview.id x =? id') l) as [i|] eqn:Hfind; [| reflexivity].
  cbn [option_map]. apply find_some in Hfind. destruct Hfind as [_ Hk].
  apply Z.eqb_eq in Hk.
  destruct (Z.eqb_spec (Interview.id i) id); [congruence | reflexivity].
Qed.

Lemma present_after (ids : list Z) (w w' : Store) (g : Interview.t -> Interview.t) :
  (forall i, Interview.id (g i) = Interview.id i) ->
  (forall i, Interview.candidate_id (g i) = Interview.candidate_id i) ->
  interviews w' = map g (interviews w) -> candidates w' = candidates w ->
  present ids w -> present ids w'.
Proof.
  intros Hid Hc Hi Hcs Hp id Hin. destruct (Hp id Hin) as (iv & cand & Hiv & Hcand).
  exists (g iv), cand. rewrite Hi, Hcs, Hc. split; [| assumption].
  clear Hcand Hi. revert Hiv. generalize (interviews w).
  induction l as [|x l IH]; cbn [map find]; [discriminate |].
  rewrite Hid. destruct (Interview.id x =? id); [congruence | exact IH].
Qed.

Lemma flat_map_same {A B} (f g : A -> list B) (l : list A) :
  (forall x, In x l -> f x = g x) -> flat_map f l = flat_map g l.
Proof.
  induction l as [|x l IH]; intros H; cbn [flat_map]; [reflexivity |].
  rewrite (H x (or_introl eq_refl)), IH; [reflexivity |].
  intros y Hy. apply H. now right.
Qed.

(** The feedback requests of a scan, in closed form. *)
Lemma feedback_request_scan_run (ids : list Z) :
  forall w,
    present ids w -> ats_unique w ->
    for_each ids (fun id => discard_uncommitted (request_feedback id (request_at clock id))) w
    = (with_ats_records
         (map (fun a => if mem (ATSRecord.interview_id a) ids
                        then ats_set_status ATSStatus.interview_completed
                               (request_at clock (ATSRecord.interview_id a)) a
                        else a)
              (ats_records w))
         (with_interviews
            (map (fun i => if mem (Interview.id i) ids
                           then feedback_asked (request_at clock (Interview.id i)) i else i)
                 (interviews w))
            (with_outbox (outbox w ++ flat_map (fun id => feedback_request_calls id w) ids)
               w)),
       Ok tt).
Proof.
  induction ids as [|id ids IH]; intros w Hready Huq; cbn [for_each flat_map].
  - unfold ret. f_equal. apply store_ext; store_simpl; try reflexivity.
    + now rewrite map_id.
    + now rewrite map_id.
    + now rewrite app_nil_r.
  - destruct (Hready id (or_introl eq_refl)) as (iv & cand & Hiv & Hcand).
    unfold bind at 1, discard_uncommitted at 1.
    rewrite (request_feedback_run id (request_at clock id) w iv cand Hiv Hcand Huq).
    rewrite IH.
    + f_equal. apply store_ext; store_simpl; try reflexivity.
      * rewrite map_map. apply map_ext. intros i. unfold upd, mem. cbn [existsb].
        destruct (Z.eqb_spec (Interview.id i) id) as [Heq | Hne].
        -- cbn [orb Interview.id feedback_asked Interview.set_feedback_requested_at
                Interview.set_status]. rewrite Heq.
           destruct (existsb _ ids); reflexivity.
        -- cbn [orb]. reflexivity.
      * rewrite map_map. apply map_ext. intros a. unfold mem. cbn [existsb].
        destruct (Z.eqb_spec (ATSRecord.interview_id a) id) as [Heq | Hne].
        -- cbn [orb ats_set_status ATSRecord.interview_id]. rewrite Heq.
           destruct (existsb _ ids); reflexivity.
        -- cbn [orb]. reflexivity.
      * unfold feedback_request_calls at 2. rewrite <- !app_assoc. reflexivity.
    + eapply (present_after ids w _ (upd id (feedback_asked (request_at clock id))));
        try eassumption;
        try reflexivity.
      * intros i. unfold upd. destruct (Interview.id i =? id); reflexivity.
      * intros i. unfold upd. destruct (Interview.id i =? id); reflexivity.
      * intros id' Hin. apply Hready. now right.
    + unfold ats_unique in *. store_simpl. rewrite map_map.
      rewrite (map_ext _ ATSRecord.interview_id); [assumption |].
      intros a. destruct (ATSRecord.interview_id a =? id); reflexivity.
Qed.

(** The consolidations of a scan: the rows and the calls in closed form. *)
Lemma consolidation_scan_run (ids : list Z) :
  forall w,
    NoDup ids -> present ids w -> constraints w ->
    exists w',
      for_each ids (fun id =>
        bind (discard_uncommitted (maybe_consolidate env id (consolidation_at clock id)))
          (fun _ => ret tt)) w
      = (w', Ok tt)
      /\ interviews w'
         = map (fun i => if mem (Interview.id i) ids && gate_open (Interview.id i) w
                         then consolidated_row (consolidation_at clock (Interview.id i)) i
                         else i) (interviews w)
      /\ outbox w' = outbox w ++ flat_map (consolidation_calls_of env w) ids
      /\ users w' = users w /\ candidates w' = candidates w
      /\ interview_participants w' = interview_participants w
      /\ feedback w' = feedback w
      /\ calendar_blocks w' = calendar_blocks w
      /\ scheduling_requests w' = scheduling_requests w
      /\ scheduling_options w' = scheduling_options w
      /\ constraints w'.
Proof.
  induction ids as [|id ids IH]; intros w Hnd Hready Hc; cbn [for_each flat_map].
  - exists w. split; [reflexivity |]. rewrite app_nil_r.
    repeat split; try reflexivity; try apply Hc. now rewrite map_id.
  - inversion Hnd as [|? ? Hnotin Hnd']; subst.
    destruct (Hready id (or_introl eq_refl)) as (iv & cand & Hiv & Hcand).
    pose proof (found_id w id iv Hiv) as Hid.
    assert (Hcalls : consolidation_calls_of env w id
                     = if gate_open id w then consolidation_calls env w iv cand else [])
      by (unfold consolidation_calls_of; now rewrite Hiv, Hcand).
    assert (Hstep : exists w1,
               maybe_consolidate env id (consolidation_at clock id) w
               = (w1, Ok (gate_open id w))
               /\ interviews w1
                  = (if gate_open id w
                     then map (upd id (consolidated_row (consolidation_at clock id)))
                            (interviews w)
                     else interviews w)
               /\ outbox w1 = outbox w ++ consolidation_calls_of env w id
               /\ users w1 = users w /\ candidates w1 = candidates w
               /\ interview_participants w1 = interview_participants w
               /\ feedback w1 = feedback w
               /\ calendar_blocks w1 = calendar_blocks w
               /\ scheduling_requests w1 = scheduling_requests w
               /\ scheduling_options w1 = scheduling_options w).
    { rewrite Hcalls. unfold gate_open. destruct (issubset _ _) eqn:Hgate.
      - exists (consolidated env w iv cand (consolidation_at clock id)).
        split; [apply (maybe_consolidate_done env w id (consolidation_at clock id) iv cand
                         Hiv Hcand); [apply Hc | exact Hgate] |].
        unfold consolidated. store_simpl. rewrite Hid. repeat split; reflexivity.
      - exists w.
        split; [apply (maybe_consolidate_not_yet env w id (consolidation_at clock id)
                         iv cand Hiv Hcand Hgate) |].
        rewrite app_nil_r. repeat split; reflexivity. }
    destruct Hstep as (w1 & Hrun & Hi1 & Ho1 & Hu1 & Hc1 & Hp1 & Hf1 & Hb1 & Hr1 & Hs1).
    assert (Hcon1 : constraints w1).
    { eapply (maybe_consolidate_constraints env id (consolidation_at clock id)); eauto. }
    assert (Hgate1 : forall id', gate_open id' w1 = gate_open id' w).
    { intros id'. unfold gate_open, participants_of, feedback_of.
      now rewrite Hu1, Hp1, Hf1. }
    assert (Hready1 : present ids w1).
    { destruct (gate_open id w).
      - eapply (present_after ids w w1 (upd id (consolidated_row (consolidation_at clock id))));
          try eassumption.
        + intros i. unfold upd. destruct (Interview.id i =? id); reflexivity.
        + intros i. unfold upd. destruct (Interview.id i =? id); reflexivity.
        + intros id' Hin. apply Hready. now right.
      - intros id' Hin. rewrite Hi1, Hc1. apply Hready. now right. }
    destruct (IH w1 Hnd' Hready1 Hcon1)
      as (w' & Hrest & Hi' & Ho' & Hu' & Hc' & Hp' & Hf' & Hb' & Hr' & Hs' & Hcon').
    exists w'. split.
    { unfold bind at 1. unfold bind at 1.
      rewrite (discard_ok _ _ _ _ Hrun). unfold ret at 1. exact Hrest. }
    split; [| split; [| repeat split; try congruence; apply Hcon']].
    + rewrite Hi'.
      assert (Hmap : interviews w1
                     = map (fun i => if (Interview.id i =? id) && gate_open id w
                                     then consolidated_row (consolidation_at clock id) i
                                     else i) (interviews w)).
      { rewrite Hi1. destruct (gate_open id w).
        - apply map_ext. intros i. unfold upd. now rewrite andb_true_r.
        - rewrite <- (map_id (interviews w)) at 1. apply map_ext. intros i.
          now rewrite andb_false_r. }
      rewrite Hmap, map_map. apply map_ext. intros i. rewrite !Hgate1.
      unfold mem. cbn [existsb].
      destruct (Z.eqb_spec (Interview.id i) id) as [Heq | Hne].
      * rewrite Heq. cbn [orb andb].
        assert (Hno : existsb (Z.eqb id) ids = false).
        { destruct (existsb (Z.eqb id) ids) eqn:Hex; [| reflexivity].
          exfalso. apply Hnotin. now apply mem_In. }
        destruct (gate_open id w) eqn:Hg.
        -- cbn [Interview.id consolidated_row Interview.set_consolidated_at
                Interview.set_status]. rewrite Heq, Hno. reflexivity.
        -- rewrite Heq, Hno. reflexivity.
      * cbn [orb andb]. reflexivity.
    + rewrite Ho', Ho1, <- app_assoc. f_equal. f_equal.
      apply flat_map_same. intros id' Hin'.
      assert (Hne : id' <> id) by (intros ->; contradiction).
      unfold consolidation_calls_of. rewrite Hc1, Hgate1.
      assert (Hfind : find (fun i => Interview.id i =? id') (interviews w1)
                      = find (fun i => Interview.id i =? id') (interviews w)).
      { rewrite Hi1. destruct (gate_open id w); [| reflexivity].
        apply find_other; [reflexivity | assumption]. }
      rewrite Hfind.
      destruct (find (fun i => Interview.id i =? id') (interviews w)) as [iv'|];
        [| reflexivity].
      destruct (find (fun c => Candidate.id c =? Interview.candidate_id iv') (candidates w))
        as [cand'|]; [| reflexivity].
      destruct (gate_open id' w); [| reflexivity].
      unfold consolidation_calls, participants_of, feedback_of.
      now rewrite Hu1, Hp1, Hf1.
Qed.

End Scans.

Section TickRun.

Variables (env : Env) (t : datetime) (clock : ActionClock) (w : Store).
Hypothesis consistent : constraints w.
Hypothesis candidates_fk : interviews_have_candidates w.

Local Abbreviation ids1 := (select_ids (reminder_due env t) w).
Local Abbreviation ids2 := (select_ids (feedback_request_due env t) w).

Lemma after_requests_id i : Interview.id (after_requests env t clock i) = Interview.id i.
Proof.
  unfold after_requests. cbv zeta.
  destruct (reminder_due env t i); destruct (feedback_request_due env t _); reflexivity.
Qed.

Lemma after_requests_candidate i :
  Interview.candidate_id (after_requests env t clock i) = Interview.candidate_id i.
Proof.
  unfold after_requests. cbv zeta.
  destruct (reminder_due env t i); destruct (feedback_request_due env t _); reflexivity.
Qed.

Lemma after_requests_fields i :
  Interview.job_title (after_requests env t clock i) = Interview.job_title i
  /\ Interview.recruiter_email (after_requests env t clock i) = Interview.recruiter_email i.
Proof.
  unfold after_requests. cbv zeta.
  destruct (reminder_due env t i); destruct (feedback_request_due env t _);
    split; reflexivity.
Qed.

Lemma feedback_request_due_reminded t' i :
  feedback_request_due env t (reminded t' i) = feedback_request_due env t i.
Proof. reflexivity. Qed.

(** The store after the first two scans. *)
Lemma requests_run :
  exists w2,
    tick env t clock w
    = bind (gets (select_ids consolidation_due))
        (fun ids3 => for_each ids3 (fun id =>
           bind (discard_uncommitted (maybe_consolidate env id (consolidation_at clock id)))
             (fun _ => ret tt))) w2
    /\ interviews w2 = map (after_requests env t clock) (interviews w)
    /\ outbox w2
       = outbox w ++ flat_map (fun id => reminder_calls id w) ids1
         ++ flat_map (fun id => feedback_request_calls id w) ids2
    /\ users w2 = users w /\ candidates w2 = candidates w
    /\ interview_participants w2 = interview_participants w
    /\ feedback w2 = feedback w
    /\ calendar_blocks w2 = calendar_blocks w
    /\ scheduling_requests w2 = scheduling_requests w
    /\ scheduling_options w2 = scheduling_options w
    /\ constraints w2.
Proof.
  destruct consistent as (Hpk & Hats & Hfb).
  pose proof (reminder_scan_run clock ids1 w (present_selected _ w candidates_fk)) as H1.
  set (w1 := with_interviews
               (map (fun i => if mem (Interview.id i) ids1
                              then reminded (reminder_at clock (Interview.id i)) i else i)
                  (interviews w))
               (with_outbox (outbox w ++ flat_map (fun id => reminder_calls id w) ids1) w))
    in *.
  assert (Hi1 : interviews w1
                = map (fun i => if reminder_due env t i
                                then reminded (reminder_at clock (Interview.id i)) i else i)
                    (interviews w)).
  { unfold w1. store_simpl. apply map_ext_in. intros i Hi.
    now rewrite (mem_selected _ w i Hpk Hi). }
  assert (Hpk1 : interviews_pk w1).
  { unfold interviews_pk. rewrite Hi1, map_map.
    rewrite (map_ext _ Interview.id); [exact Hpk |].
    intros i. destruct (reminder_due env t i); reflexivity. }
  assert (Hfk1 : interviews_have_candidates w1).
  { intros i1 Hin. rewrite Hi1 in Hin. apply in_map_iff in Hin.
    destruct Hin as (i & <- & Hi).
    replace (candidates w1) with (candidates w) by reflexivity.
    destruct (reminder_due env t i); apply (candidates_fk i Hi). }
  assert (Hsel2 : select_ids (feedback_request_due env t) w1 = ids2).
  { unfold select_ids. rewrite Hi1. clear.
    induction (interviews w) as [|i l IH]; [reflexivity |]. cbn [map filter].
    replace (feedback_request_due env t
               (if reminder_due env t i
                then reminded (reminder_at clock (Interview.id i)) i else i))
      with (feedback_request_due env t i)
      by (destruct (reminder_due env t i); reflexivity).
    destruct (feedback_request_due env t i); cbn [map]; rewrite IH; [| reflexivity].
    f_equal. destruct (reminder_due env t i); reflexivity. }
  pose proof (feedback_request_scan_run clock (select_ids (feedback_request_due env t) w1) w1
                (present_selected _ w1 Hfk1) Hats) as H2.
  rewrite Hsel2 in H2.
  set (w2 := with_ats_records _ _) in H2.
  exists w2. split; [| split; [| split]].
  - unfold tick.
    unfold bind at 1, gets at 1. unfold bind at 1. rewrite H1.
    unfold bind at 1, gets at 1. rewrite Hsel2. unfold bind at 1. rewrite H2.
    reflexivity.
  - unfold w2. store_simpl. rewrite Hi1, map_map. apply map_ext_in. intros i Hi.
    unfold after_requests. cbv zeta.
    set (i1 := if reminder_due env t i
               then reminded (reminder_at clock (Interview.id i)) i else i).
    assert (Hin1 : In i1 (interviews w1)).
    { rewrite Hi1. apply in_map_iff. exists i. split; [reflexivity | assumption]. }
    rewrite <- Hsel2. rewrite (mem_selected _ w1 i1 Hpk1 Hin1).
    assert (Hid1 : Interview.id i1 = Interview.id i)
      by (unfold i1; destruct (reminder_due env t i); reflexivity).
    now rewrite Hid1.
  - unfold w2, w1. store_simpl. rewrite <- app_assoc. reflexivity.
  - unfold w2, w1. store_simpl. repeat split; try reflexivity.
    + unfold interviews_pk. store_simpl. rewrite !map_map.
      rewrite (map_ext _ Interview.id); [exact Hpk |].
      intros i. destruct (mem _ ids1); destruct (mem _ ids2); reflexivity.
    + unfold ats_unique. store_simpl. rewrite map_map.
      rewrite (map_ext _ ATSRecord.interview_id); [exact Hats |].
      intros a. destruct (mem _ ids2); reflexivity.
    + exact Hfb.
Qed.

Lemma consolidation_calls_kind (w0 : Store) (iv : Interview.t) (cand : Candidate.t)
    (e : Effect) :
  In e (consolidation_calls env w0 iv cand) ->
  about e = Interview.id iv /\ is_consolidation (call e) = true.
Proof.
  unfold consolidation_calls. cbv zeta.
  intros [<- | [<- | [<- | []]]]; split; reflexivity.
Qed.

Lemma consolidation_calls_of_kind (w0 : Store) (id : Z) (e : Effect) :
  In e (consolidation_calls_of env w0 id) ->
  about e = id /\ is_consolidation (call e) = true /\ gate_open id w0 = true.
Proof.
  unfold consolidation_calls_of.
  destruct (find (fun i => Interview.id i =? id) (interviews w0)) as [iv|] eqn:Hiv;
    [| contradiction].
  destruct (find _ (candidates w0)) as [cand|]; [| contradiction].
  destruct (gate_open id w0); [| contradiction].
  intros He. apply consolidation_calls_kind in He. destruct He as [Ha Hk].
  rewrite Ha, (found_id w0 id iv Hiv). auto.
Qed.

(** One tick, in closed form. *)
Lemma tick_run :
  exists w' s3,
    tick env t clock w = (w', Ok tt)
    /\ interviews w' = map (tick_row env t clock w) (interviews w)
    /\ outbox w'
       = outbox w ++ flat_map (fun id => reminder_calls id w) ids1
         ++ flat_map (fun id => feedback_request_calls id w) ids2 ++ s3
    /\ (forall e, In e s3 -> is_consolidation (call e) = true)
    /\ (forall i, In i (interviews w) ->
          (exists e, In e s3 /\ about e = Interview.id i)
          <-> consolidation_due (after_requests env t clock i) && gate_open (Interview.id i) w
              = true)
    /\ users w' = users w /\ candidates w' = candidates w
    /\ interview_participants w' = interview_participants w
    /\ feedback w' = feedback w
    /\ calendar_blocks w' = calendar_blocks w
    /\ scheduling_requests w' = scheduling_requests w
    /\ scheduling_options w' = scheduling_options w.
Proof.
  destruct requests_run
    as (w2 & Htick & Hi2 & Ho2 & Hu2 & Hc2 & Hp2 & Hf2 & Hb2 & Hr2 & Hs2 & Hcon2).
  pose proof Hcon2 as (Hpk2 & _).
  assert (Hfk2 : interviews_have_candidates w2).
  { intros i2 Hin. rewrite Hi2 in Hin. apply in_map_iff in Hin.
    destruct Hin as (i & <- & Hi). rewrite Hc2, after_requests_candidate.
    apply (candidates_fk i Hi). }
  assert (Hgate : forall id, gate_open id w2 = gate_open id w).
  { intros id. unfold gate_open, participants_of, feedback_of. now rewrite Hu2, Hp2, Hf2. }
  destruct (consolidation_scan_run env clock (select_ids consolidation_due w2) w2
              (select_ids_NoDup _ w2 Hpk2) (present_selected _ w2 Hfk2) Hcon2)
    as (w' & Hrun & Hi' & Ho' & Hu' & Hc' & Hp' & Hf' & Hb' & Hr' & Hs' & _).
  exists w', (flat_map (consolidation_calls_of env w2) (select_ids consolidation_due w2)).
  assert (Hsel : forall i, In i (interviews w) ->
            mem (Interview.id (after_requests env t clock i)) (select_ids consolidation_due w2)
            = consolidation_due (after_requests env t clock i)).
  { intros i Hi. apply mem_selected; [assumption |].
    rewrite Hi2. now apply in_map. }
  split; [| split; [| split; [| split; [| split]]]].
  - rewrite Htick. unfold bind at 1, gets at 1. exact Hrun.
  - rewrite Hi', Hi2, map_map. apply map_ext_in. intros i Hi.
    unfold tick_row. cbv zeta.
    now rewrite (Hsel i Hi), Hgate, after_requests_id.
  - rewrite Ho', Ho2, <- !app_assoc. reflexivity.
  - intros e He. apply in_flat_map in He. destruct He as (id & _ & He).
    now apply consolidation_calls_of_kind in He.
  - intros i Hi. split.
    + intros (e & He & Ha). apply in_flat_map in He. destruct He as (id & Hid & He).
      apply consolidation_calls_of_kind in He. destruct He as (Ha' & _ & Hg).
      rewrite Ha in Ha'. subst id.
      rewrite Hgate in Hg. rewrite Hg, andb_true_r.
      rewrite <- (Hsel i Hi), after_requests_id. now apply mem_In.
    + intros Hcond. apply andb_true_iff in Hcond. destruct Hcond as [Hdue Hg].
      assert (Hin : In (Interview.id i) (select_ids consolidation_due w2)).
      { apply mem_In. rewrite <- (after_requests_id i). now rewrite (Hsel i Hi). }
      destruct (present_selected _ w2 Hfk2 _ Hin) as (iv2 & cand & Hiv2 & Hcand).
      exists {| about := Interview.id i;
                call := llm_summarize (Candidate.name cand) (Interview.job_title iv2)
                          (feedback_items (participants_of (Interview.id iv2) w2)
                             (feedback_of (Interview.id iv2) w2)) |}.
      split; [| reflexivity].
      apply in_flat_map. exists (Interview.id i). split; [assumption |].
      unfold consolidation_calls_of. rewrite Hiv2, Hcand, Hgate, Hg.
      unfold consolidation_calls. cbv zeta.
      rewrite (found_id w2 _ iv2 Hiv2). now left.
  - repeat split; congruence.
Qed.

End TickRun.

Section TickSpec.

Variables (env : Env) (t : datetime) (clock : ActionClock).

Lemma feedback_request_due_spec (i : Interview.t) :
  feedback_request_due env t i = true
  <-> Interview.feedback_requested_at i = None
      /\ Interview.scheduled_end i
         <= t - minutes (feedback_request_delay_minutes (settings env)).
Proof.
  unfold feedback_request_due. cbv zeta.
  now rewrite andb_true_iff, is_none_spec, Z.leb_le.
Qed.

Lemma consolidation_due_after (i : Interview.t) :
  consolidation_due (after_requests env t clock i) = true
  <-> Interview.consolidated_at i = None
      /\ (feedback_request_due env t i = true
          \/ Interview.status i = InterviewStatus.feedback_requested
          \/ Interview.status i = InterviewStatus.completed).
Proof.
  unfold after_requests, consolidation_due. cbv zeta.
  replace (feedback_request_due env t
             (if reminder_due env t i
              then reminded (reminder_at clock (Interview.id i)) i else i))
    with (feedback_request_due env t i)
    by (destruct (reminder_due env t i); reflexivity).
  destruct (feedback_request_due env t i);
    destruct (reminder_due env t i);
    cbn [feedback_asked reminded Interview.status Interview.consolidated_at
         Interview.set_feedback_requested_at Interview.set_status
         Interview.set_reminder_sent_at InterviewStatus.eqb orb];
    rewrite ?andb_true_iff, ?orb_true_iff, is_none_spec;
    destruct (Interview.status i); cbn [InterviewStatus.eqb];
    intuition congruence.
Qed.

Lemma gate_open_spec (id : Z) (w : Store) :
  gate_open id w = true
  <-> forall u, In u (participants_of id w) -> has_feedback id (User.id u) w.
Proof.
  unfold gate_open, issubset. rewrite forallb_forall. split.
  - intros H u Hu. apply got_ids, mem_In, H. now apply in_map.
  - intros H x Hx. apply in_map_iff in Hx. destruct Hx as (u & <- & Hu).
    apply mem_In, got_ids, H, Hu.
Qed.

Lemma reminder_calls_kind id w e :
  In e (reminder_calls id w) -> about e = id /\ is_reminder (call e) = true.
Proof.
  unfold reminder_calls. intros He. apply in_app_or in He.
  destruct He as [He | [<- | []]]; [| split; reflexivity].
  apply in_map_iff in He. destruct He as (u & <- & _). split; reflexivity.
Qed.

Lemma feedback_request_calls_kind id w e :
  In e (feedback_request_calls id w) ->
  about e = id /\ is_feedback_request (call e) = true.
Proof.
  unfold feedback_request_calls. intros He. apply in_flat_map in He.
  destruct He as (u & _ & [<- | [<- | []]]); split; reflexivity.
Qed.

End TickSpec.

(** The store of the smoke test after the booking and the three
    submissions satisfies the constraints. *)
Lemma feedback_store_constraints : constraints feedback_store.
Proof.
  apply (run_constraints demo_env _ booked_store).
  split; [| split].
  - unfold interviews_pk. vm_compute. repeat constructor. simpl. tauto.
  - unfold ats_unique. vm_compute. repeat constructor. simpl. tauto.
  - intros i u. vm_compute. lia.
Qed.

(** X28. One [tick] on a store that satisfies the unique constraints and
    whose interviews name existing candidates returns, and acts on every
    interview row by itself: the row is reminded if its reminder is due at
    the time [t] that the tick read for its queries; then asked for feedback
    if that is due at [t]; then consolidated if it is then in status
    feedback_requested or completed with no [consolidated_at] and every
    participant of the interview has submitted. So one tick can ask for the
    feedback of an interview and consolidate it. Each action stamps the row
    with the time that it read for itself, whatever that is, not with [t].
    Users, candidates, participants, feedback, calendar blocks, requests and
    options are as before. *)
Theorem tick_acts_row_by_row (env : Env) (t : datetime) (clock : ActionClock)
    (w : Store) :
  constraints w -> interviews_have_candidates w ->
  exists w',
    tick env t clock w = (w', Ok tt)
    /\ interviews w' = map (tick_row env t clock w) (interviews w)
    /\ users w' = users w /\ candidates w' = candidates w
    /\ interview_participants w' = interview_participants w
    /\ feedback w' = feedback w
    /\ calendar_blocks w' = calendar_blocks w
    /\ scheduling_requests w' = scheduling_requests w
    /\ scheduling_options w' = scheduling_options w.
Proof.
  intros Hc Hfk.
  destruct (tick_run env t clock w Hc Hfk) as (w' & s3 & Hrun & Hi & _ & _ & _ & Hrest).
  exists w'. split; [exact Hrun |]. split; [exact Hi | exact Hrest].
Qed.

(** The first tick after the three submissions of the smoke test asks for
    the feedback and consolidates it. *)
Lemma tick_acts_row_by_row_witness :
  exists w',
    tick demo_env (base + minutes 70) (ticking (base + minutes 70)) feedback_store
    = (w', Ok tt)
    /\ map Interview.status (interviews w') = [InterviewStatus.feedback_received]
    /\ map Interview.consolidated_at (interviews w')
       = [Some (base + minutes 70 + 3 * MICROSECOND)].
Proof.
  destruct (tick_acts_row_by_row demo_env (base + minutes 70)
              (ticking (base + minutes 70)) feedback_store)
    as (w' & Hrun & Hi & _).
  - exact feedback_store_constraints.
  - intros i Hi. vm_compute in Hi. destruct Hi as [<- | []]. vm_compute. tauto.
  - exists w'. split; [exact Hrun |]. rewrite Hi. vm_compute. split; reflexivity.
Defined.

(** X29. One [tick] on a store that satisfies the unique constraints and
    whose interviews name existing candidates calls the summarizer or sends
    a report about an interview of the store exactly when the interview has
    no [consolidated_at], is in status feedback_requested or completed or
    has its feedback request due at this very tick, and every participant
    has a Feedback row. *)
Theorem tick_consolidates_when_ready (env : Env) (t : datetime) (clock : ActionClock)
    (w : Store) :
  constraints w -> interviews_have_candidates w ->
  exists w' sent,
    tick env t clock w = (w', Ok tt)
    /\ outbox w' = outbox w ++ sent
    /\ forall i, In i (interviews w) ->
         (exists e, In e sent /\ about e = Interview.id i
                    /\ is_consolidation (call e) = true)
         <-> Interview.consolidated_at i = None
             /\ (Interview.status i = InterviewStatus.feedback_requested
                 \/ Interview.status i = InterviewStatus.completed
                 \/ (Interview.feedback_requested_at i = None
                     /\ Interview.scheduled_end i
                        <= t - minutes (feedback_request_delay_minutes (settings env))))
             /\ forall u, In u (participants_of (Interview.id i) w) ->
                  has_feedback (Interview.id i) (User.id u) w.
Proof.
  intros Hc Hfk.
  destruct (tick_run env t clock w Hc Hfk) as (w' & s3 & Hrun & _ & Ho & Hk3 & Hiff & _).
  exists w'. eexists. split; [exact Hrun |]. split; [exact Ho |].
  intros i Hi. rewrite <- gate_open_spec, <- feedback_request_due_spec.
  specialize (Hiff i Hi). rewrite andb_true_iff, consolidation_due_after in Hiff.
  split.
  - intros (e & He & Ha & Hk).
    apply in_app_or in He. destruct He as [He | He].
    { apply in_flat_map in He. destruct He as (id & _ & He).
      apply reminder_calls_kind in He. destruct He as [_ Hr].
      destruct (call e) as [? []|[]|]; discriminate. }
    apply in_app_or in He. destruct He as [He | He].
    { apply in_flat_map in He. destruct He as (id & _ & He).
      apply feedback_request_calls_kind in He. destruct He as [_ Hr].
      destruct (call e) as [? []|[]|]; discriminate. }
    assert (H : exists e, In e s3 /\ about e = Interview.id i) by eauto.
    apply Hiff in H. tauto.
  - intros (Hnone & Hst & Hg).
    destruct (proj2 Hiff) as (e & He & Ha); [tauto |].
    exists e. split; [| split; [exact Ha | now apply Hk3]].
    apply in_or_app. right. apply in_or_app. now right.
Qed.

(** The tick after the three submissions of the smoke test sends the
    report. *)
Lemma tick_consolidates_when_ready_witness :
  exists w' sent,
    tick demo_env (base + minutes 70) (ticking (base + minutes 70)) feedback_store
    = (w', Ok tt)
    /\ outbox w' = outbox feedback_store ++ sent
    /\ exists e, In e sent /\ about e = 1 /\ is_consolidation (call e) = true.
Proof.
  destruct (tick_consolidates_when_ready demo_env (base + minutes 70)
              (ticking (base + minutes 70)) feedback_store)
    as (w' & sent & Hrun & Ho & Hiff).
  - exact feedback_store_constraints.
  - intros i Hi. vm_compute in Hi. destruct Hi as [<- | []]. vm_compute. tauto.
  - exists w', sent. split; [exact Hrun |]. split; [exact Ho |].
    assert (Hin : In demo_interview (interviews feedback_store)) by (vm_compute; tauto).
    apply (proj2 (Hiff demo_interview Hin)).
    split; [reflexivity |]. split.
    + right. right. split; [reflexivity |]. vm_compute. discriminate.
    + intros u Hu. vm_compute in Hu.
      destruct Hu as [<- | [<- | [<- | []]]]; apply got_ids; vm_compute; tauto.
Defined.

(** X30. One [tick] that reads the time [t] for its queries, on a store
    that satisfies the unique constraints and whose interviews name existing
    candidates, sends the feedback form to a participant of an interview of
    the store exactly when the interview has no [feedback_requested_at] and
    its [scheduled_end] is at least the feedback delay before [t], whatever
    its status; and then the interview has, when the tick ends, the
    [feedback_requested_at] that [request_feedback] gave it: the time that
    [request_feedback] read for itself, not [t]. *)
Theorem tick_asks_for_feedback_when_due (env : Env) (t : datetime)
    (clock : ActionClock) (w : Store) :
  constraints w -> interviews_have_candidates w ->
  exists w' sent,
    tick env t clock w = (w', Ok tt)
    /\ outbox w' = outbox w ++ sent
    /\ forall i, In i (interviews w) ->
         let due := Interview.feedback_requested_at i = None
                    /\ Interview.scheduled_end i
                       <= t - minutes (feedback_request_delay_minutes (settings env)) in
         (forall u, In u (participants_of (Interview.id i) w) ->
            In {| about := Interview.id i;
                  call := send_slack (FeedbackRequested (User.id u)) |} sent <-> due)
         /\ (due -> exists i', In i' (interviews w')
                               /\ Interview.id i' = Interview.id i
                               /\ Interview.feedback_requested_at i'
                                  = Some (request_at clock (Interview.id i))).
Proof.
  intros Hc Hfk. pose proof Hc as (Hpk & _).
  destruct (tick_run env t clock w Hc Hfk) as (w' & s3 & Hrun & Hrows & Ho & Hk3 & _).
  exists w'. eexists. split; [exact Hrun |]. split; [exact Ho |].
  intros i Hi. cbv zeta. split.
  - intros u Hu. split.
    + intros He. apply feedback_request_due_spec.
      apply in_app_or in He. destruct He as [He | He].
      { apply in_flat_map in He. destruct He as (id & _ & He).
        apply reminder_calls_kind in He. destruct He as [_ Hr]. discriminate. }
      apply in_app_or in He. destruct He as [He | He].
      * apply in_flat_map in He. destruct He as (id & Hsel & He).
        apply feedback_request_calls_kind in He. destruct He as [Ha _].
        cbn [about] in Ha. subst id.
        exact (select_ids_row _ _ _ Hpk Hi Hsel).
      * apply Hk3 in He. discriminate.
    + intros Hdue. apply feedback_request_due_spec in Hdue.
      apply in_or_app. right. apply in_or_app. left.
      apply in_flat_map. exists (Interview.id i). split.
      * apply select_ids_In. eauto.
      * unfold feedback_request_calls. apply in_flat_map. exists u.
        split; [assumption | right; now left].
  - intros Hdue. apply feedback_request_due_spec in Hdue.
    exists (tick_row env t clock w i).
    split; [rewrite Hrows; now apply in_map |].
    unfold tick_row, after_requests. cbv zeta.
    replace (feedback_request_due env t
               (if reminder_due env t i
                then reminded (reminder_at clock (Interview.id i)) i else i))
      with true
      by (destruct (reminder_due env t i); symmetry; exact Hdue).
    destruct (consolidation_due _ && gate_open _ _);
      destruct (reminder_due env t i); split; reflexivity.
Qed.

(** The tick after the three submissions of the smoke test asks the first
    interviewer for feedback. *)
Lemma tick_asks_for_feedback_when_due_witness :
  exists w' sent,
    tick demo_env (base + minutes 70) (ticking (base + minutes 70)) feedback_store
    = (w', Ok tt)
    /\ outbox w' = outbox feedback_store ++ sent
    /\ In {| about := 1; call := send_slack (FeedbackRequested 1) |} sent.
Proof.
  destruct (tick_asks_for_feedback_when_due demo_env (base + minutes 70)
              (ticking (base + minutes 70)) feedback_store)
    as (w' & sent & Hrun & Ho & Hspec).
  - exact feedback_store_constraints.
  - intros i Hi. vm_compute in Hi. destruct Hi as [<- | []]. vm_compute. tauto.
  - exists w', sent. split; [exact Hrun |]. split; [exact Ho |].
    assert (Hin : In demo_interview (interviews feedback_store)) by (vm_compute; tauto).
    destruct (Hspec demo_interview Hin) as [Hcalls _].
    apply (Hcalls ivan).
    + vm_compute. tauto.
    + split; [reflexivity |]. vm_compute. discriminate.
Defined.
